(** * Logs Dashboard: the query, aggregation and export engine

    A shallow embedding of [backend/logs_app] (models.py, filters.py,
    views.py, serializers.py).  A table is the list of its rows, a queryset
    is the rows selected so far together with the ordering it will be
    evaluated under, and every view is a function of the request and of
    the table it reads; the views of the preference store return the
    table they leave behind as well.

    The framework calls the views make (ORM grouping and ordering,
    [csv.writer], the REST framework's filter backends and object lookup)
    are written out next to the view that makes them, each under the name
    it has in the source.

    Date-times are the wall-clock readings Django hands back from the
    database in the project's time zone, taken to be UTC (Django's default
    [TIME_ZONE]); the settings module is not part of the sources.

    The demo data generator ([backend/generate_demo_data.py]) is embedded
    over the same tables, with the accounts of [django.contrib.auth]
    beside them.  What a run draws from the [random] module and reads
    from the clock is an argument of the function that uses it, an
    exception is [None], and the lines the script prints are left out. *)

From Stdlib Require Import NArith ZArith Ascii String DecimalString DecimalN.
From stdpp Require Import base decidable option list strings sorting.

Local Open Scope N_scope.

(** ** Characters and text *)

Definition quotechar : ascii := "034"%char.
Definition delimiter : ascii := ","%char.
Definition CR : ascii := "013"%char.
Definition LF : ascii := "010"%char.

Definition char (c : ascii) : string := String c EmptyString.

(** [str(n)] for a non-negative integer. *)
Definition str_N (n : N) : string := NilZero.string_of_uint (N.to_uint n).

(** One decimal digit, and [%02d], [%04d], [%06d] for numbers that fit. *)
Definition digit (n : N) : ascii := ascii_of_N (48 + n mod 10).

Definition pad2 (n : N) : string :=
  String (digit (n / 10)) (char (digit n)).
Definition pad4 (n : N) : string := pad2 (n / 100) +:+ pad2 (n mod 100).
Definition pad6 (n : N) : string := pad2 (n / 10000) +:+ pad4 (n mod 10000).

(** ** datetime.datetime and datetime.date *)

Record date := mkdate { d_year : N; d_month : N; d_day : N }.

Record datetime := mkdatetime {
  year : N; month : N; day : N;
  hour : N; minute : N; second : N; microsecond : N
}.

Global Instance date_eq_dec : EqDecision date.
Proof. solve_decision. Defined.
Global Instance datetime_eq_dec : EqDecision datetime.
Proof. solve_decision. Defined.

(** The ranges [datetime] enforces on construction (the length of the
    month apart, which nothing below depends on). *)
Definition valid_datetime (t : datetime) : Prop :=
  1 <= year t <= 9999 /\ 1 <= month t <= 12 /\ 1 <= day t <= 31 /\
  hour t < 24 /\ minute t < 60 /\ second t < 60 /\ microsecond t < 1000000.

Global Instance valid_datetime_dec t : Decision (valid_datetime t).
Proof. unfold valid_datetime. apply _. Defined.

(** [datetime.date()] and [date.isoformat()]. *)
Definition dt_date (t : datetime) : date :=
  mkdate (year t) (month t) (day t).

Definition date_isoformat (d : date) : string :=
  pad4 (d_year d) +:+ "-" +:+ pad2 (d_month d) +:+ "-" +:+ pad2 (d_day d).

(** Comparison of two date-times of the same time zone: field by field,
    most significant first. *)
Definition lex (c1 c2 : comparison) : comparison :=
  match c1 with Eq => c2 | _ => c1 end.

Definition datetime_compare (a b : datetime) : comparison :=
  lex (year a ?= year b)
 (lex (month a ?= month b)
 (lex (day a ?= day b)
 (lex (hour a ?= hour b)
 (lex (minute a ?= minute b)
 (lex (second a ?= second b)
      (microsecond a ?= microsecond b)))))).

Definition dt_le (a b : datetime) : Prop := datetime_compare a b <> Gt.
Definition dt_lt (a b : datetime) : Prop := datetime_compare a b = Lt.

Global Instance comparison_eq_dec : EqDecision comparison.
Proof. solve_decision. Defined.
Global Instance dt_le_dec a b : Decision (dt_le a b).
Proof. unfold dt_le. apply _. Defined.
Global Instance dt_lt_dec a b : Decision (dt_lt a b).
Proof. unfold dt_lt. apply _. Defined.

(** [TruncDay] and [TruncMonth]: the start of the calendar day, of the
    calendar month. *)
Definition TruncDay (t : datetime) : datetime :=
  mkdatetime (year t) (month t) (day t) 0 0 0 0.
Definition TruncMonth (t : datetime) : datetime :=
  mkdatetime (year t) (month t) 1 0 0 0 0.

(** ** models.py *)

Record Log := mkLog {
  log_id : N;
  log_timestamp : datetime;
  log_message : string;
  log_severity : string;
  log_source : string
}.

Global Instance Log_eq_dec : EqDecision Log.
Proof. solve_decision. Defined.

Definition User := N.

Record UserFilterPreference := mkPref {
  pref_id : N;
  pref_user : User;
  pref_name : string;
  pref_severity : string;
  pref_source : string;
  pref_date_from : option date;
  pref_date_to : option date;
  pref_created_at : datetime;
  pref_updated_at : datetime
}.

Global Instance UserFilterPreference_eq_dec : EqDecision UserFilterPreference.
Proof. solve_decision. Defined.

(** ** Querysets

    A queryset is lazy: it carries the rows selected so far and the
    ordering that will be applied when it is evaluated.  [order_by]
    replaces the ordering, it does not refine it. *)

Inductive OrderingField := ord_timestamp | ord_severity | ord_source.

(** One [ordering] key: [true] for a leading minus sign (descending). *)
Definition Ordering := list (bool * OrderingField).

Record QuerySet := mkQuerySet {
  qs_rows : list Log;
  qs_ordering : Ordering
}.

(** [Log.objects.all()], under [Meta.ordering = ["-timestamp"]]. *)
Definition objects_all (table : list Log) : QuerySet :=
  mkQuerySet table [(true, ord_timestamp)].

Definition qs_filter (P : Log -> Prop) `{!forall l, Decision (P l)}
    (qs : QuerySet) : QuerySet :=
  mkQuerySet (filter P (qs_rows qs)) (qs_ordering qs).

Definition qs_order_by (o : Ordering) (qs : QuerySet) : QuerySet :=
  mkQuerySet (qs_rows qs) o.

Definition field_compare (f : OrderingField) (a b : Log) : comparison :=
  match f with
  | ord_timestamp => datetime_compare (log_timestamp a) (log_timestamp b)
  | ord_severity => String.compare (log_severity a) (log_severity b)
  | ord_source => String.compare (log_source a) (log_source b)
  end.

Fixpoint ordering_compare (o : Ordering) (a b : Log) : comparison :=
  match o with
  | [] => Eq
  | (desc, f) :: o' =>
      lex (if desc : bool then CompOpp (field_compare f a b)
           else field_compare f a b)
          (ordering_compare o' a b)
  end.

Definition ordered_before (o : Ordering) (a b : Log) : Prop :=
  ordering_compare o a b <> Gt.

Global Instance ordered_before_dec o a b : Decision (ordered_before o a b).
Proof. unfold ordered_before. apply _. Defined.

(** Evaluation (iteration, [list(qs)], [qs.iterator()]): the selected rows
    in the order the ordering prescribes. *)
Definition evaluate (qs : QuerySet) : list Log :=
  merge_sort (ordered_before (qs_ordering qs)) (qs_rows qs).

(** [qs.values(key).annotate(count=Count("id"))]: GROUP BY [key], one row
    per distinct value of the key with the number of rows that have it
    (the primary key is never null, so [Count("id")] counts rows). *)
Definition values_count {K} `{EqDecision K}
    (key : Log -> K) (qs : QuerySet) : list (K * nat) :=
  (fun k => (k, length (filter (fun l => key l = k) (qs_rows qs))))
    <$> remove_dups (key <$> qs_rows qs).

(** [.order_by("period")] and [.order_by("-count")] on the grouped rows. *)
Definition period_le (x y : datetime * nat) : Prop := dt_le x.1 y.1.
Definition count_ge {K} (x y : K * nat) : Prop := (y.2 <= x.2)%nat.

Global Instance period_le_dec x y : Decision (period_le x y).
Proof. unfold period_le. apply _. Defined.
Global Instance count_ge_dec {K} (x y : K * nat) : Decision (count_ge x y).
Proof. unfold count_ge. apply _. Defined.

Definition order_by_period (data : list (datetime * nat)) :
    list (datetime * nat) :=
  merge_sort period_le data.

Definition order_by_count_desc {K} (data : list (K * nat)) : list (K * nat) :=
  merge_sort count_ge data.

(** ** filters.py: LogFilter, and the view's filter backends *)

(** The cleaned values of the filter form, with the search and ordering
    parameters as the REST framework takes them apart: the search value
    split into its terms at white space and commas, the ordering into its
    keys.  An absent or empty [severity] or [source] is the empty string,
    an absent or empty date bound is [None]. *)
Record FilterQuery := mkFilterQuery {
  q_severity : string;
  q_source : string;
  q_date_from : option datetime;
  q_date_to : option datetime;
  q_search : list string;
  q_ordering : Ordering
}.

Record Request := mkRequest {
  query_params : list (string * string);
  filter_params : FilterQuery;
  user : User
}.

(** [QueryDict.get(key, default)]: the last value given for the key. *)
Fixpoint get (qp : list (string * string)) (key default : string) : string :=
  match qp with
  | [] => default
  | (k, v) :: rest =>
      if decide (k = key) then get rest key v else get rest key default
  end.

(** A django-filter [Filter]: an empty value leaves the queryset alone. *)
Definition filter_exact (field : Log -> string) (value : string)
    (qs : QuerySet) : QuerySet :=
  if decide (value = EmptyString) then qs
  else qs_filter (fun l => field l = value) qs.

(** [IsoDateTimeFilter(field_name="timestamp", lookup_expr="gte")] *)
Definition filter_gte (value : option datetime) (qs : QuerySet) : QuerySet :=
  match value with
  | None => qs
  | Some a => qs_filter (fun l => dt_le a (log_timestamp l)) qs
  end.

(** [IsoDateTimeFilter(field_name="timestamp", lookup_expr="lte")] *)
Definition filter_lte (value : option datetime) (qs : QuerySet) : QuerySet :=
  match value with
  | None => qs
  | Some b => qs_filter (fun l => dt_le (log_timestamp l) b) qs
  end.

(** [LogFilter]: fields = ["severity", "source", "date_from", "date_to"]. *)
Definition LogFilter (q : FilterQuery) (qs : QuerySet) : QuerySet :=
  filter_lte (q_date_to q)
    (filter_gte (q_date_from q)
      (filter_exact log_source (q_source q)
        (filter_exact log_severity (q_severity q) qs))).

(** The [icontains] lookup: a substring test after folding case. *)
Definition lower (c : ascii) : ascii :=
  let n := N_of_ascii c in
  if (65 <=? n) && (n <=? 90) then ascii_of_N (n + 32) else c.

Fixpoint lower_string (s : string) : string :=
  match s with
  | EmptyString => EmptyString
  | String c s' => String (lower c) (lower_string s')
  end.

Fixpoint contains (t s : string) : bool :=
  String.prefix t s ||
  match s with
  | EmptyString => false
  | String _ s' => contains t s'
  end.

Definition icontains (value term : string) : bool :=
  contains (lower_string term) (lower_string value).

(** [search_fields = ["message", "source"]]: a term matches a row when
    one of the fields contains it. *)
Definition search_fields : list (Log -> string) := [log_message; log_source].

Definition term_matches (term : string) (l : Log) : bool :=
  existsb (fun field => icontains (field l) term) search_fields.

(** [SearchFilter]: every term has to match; no term, no constraint. *)
Definition SearchFilter (terms : list string) (qs : QuerySet) : QuerySet :=
  match terms with
  | [] => qs
  | _ => qs_filter (fun l => forallb (fun t => term_matches t l) terms = true) qs
  end.

(** [OrderingFilter] over [ordering_fields = ["timestamp", "severity",
    "source"]]: a non-empty ordering replaces the queryset's. *)
Definition OrderingFilter (o : Ordering) (qs : QuerySet) : QuerySet :=
  match o with
  | [] => qs
  | _ => qs_order_by o qs
  end.

(** Modelled from the spec: the configured filter backends (the settings
    module is not part of the sources): the field filters of
    [filterset_class], the free-text search and the ordering. *)
Definition filter_backends (q : FilterQuery) : list (QuerySet -> QuerySet) :=
  [LogFilter q; SearchFilter (q_search q); OrderingFilter (q_ordering q)].

(** [GenericAPIView.filter_queryset]: each backend in turn. *)
Definition filter_queryset (request : Request) (qs : QuerySet) : QuerySet :=
  foldl (fun qs backend => backend qs) qs
        (filter_backends (filter_params request)).

(** ** views.py: LogViewSet *)

Definition get_queryset (table : list Log) : QuerySet := objects_all table.

(** One object of the aggregated response: [{field: value, "count": n}]. *)
Record Entry := mkEntry {
  e_field : string;
  e_value : string;
  e_count : nat
}.

Definition aggregated (request : Request) (table : list Log) : list Entry :=
  let group_by := get (query_params request) "group_by" "date" in
  let interval := get (query_params request) "interval" "day" in
  let qs := filter_queryset request (get_queryset table) in
  if decide (group_by = "date") then
    let ts := if decide (interval = "day") then TruncDay else TruncMonth in
    let data :=
      order_by_period (values_count (fun l => ts (log_timestamp l)) qs) in
    (fun item => mkEntry "date" (date_isoformat (dt_date item.1)) item.2)
      <$> data
  else if decide (group_by = "severity") then
    let data := order_by_count_desc (values_count log_severity qs) in
    (fun item => mkEntry "severity" item.1 item.2) <$> data
  else
    let data := order_by_count_desc (values_count log_source qs) in
    (fun item => mkEntry "source" item.1 item.2) <$> data.

(** ** csv.writer under the default dialect

    [delimiter=","], [quotechar] the double quote, [doublequote=True],
    [quoting=QUOTE_MINIMAL], [lineterminator="\r\n"], no escape
    character. *)

Definition CRLF : string := String CR (char LF).

(** The characters that force a field into quotes. *)
Definition special (c : ascii) : bool :=
  bool_decide (c = delimiter) || bool_decide (c = quotechar) ||
  bool_decide (c = CR) || bool_decide (c = LF).

Fixpoint has_special (s : string) : bool :=
  match s with
  | EmptyString => false
  | String c s' => special c || has_special s'
  end.

(** Copy the field, writing every embedded quote twice. *)
Fixpoint double_quotes (s : string) : string :=
  match s with
  | EmptyString => EmptyString
  | String c s' =>
      if decide (c = quotechar)
      then String quotechar (String quotechar (double_quotes s'))
      else String c (double_quotes s')
  end.

Definition quoted (s : string) : string :=
  String quotechar (double_quotes s +:+ char quotechar).

Definition write_field (s : string) : string :=
  if has_special s then quoted s else s.

Fixpoint join (sep : ascii) (l : list string) : string :=
  match l with
  | [] => EmptyString
  | [s] => s
  | s :: l' => s +:+ String sep (join sep l')
  end.

(** [writer.writerow(row)] on a row already turned into text; a lone
    empty field is written as a pair of quotes.  With [Echo] as the file,
    the written line is the value returned. *)
Definition writerow (row : list string) : string :=
  match row with
  | [EmptyString] => quoted EmptyString +:+ CRLF
  | _ => join delimiter (write_field <$> row) +:+ CRLF
  end.

(** [datetime.isoformat(sep)] of a UTC date-time: the ISO date, the
    separator, the time of day with its microseconds when there are any,
    and the offset. *)
Definition time_isoformat (t : datetime) : string :=
  pad2 (hour t) +:+ ":" +:+ pad2 (minute t) +:+ ":" +:+ pad2 (second t) +:+
  (if decide (microsecond t = 0) then EmptyString
   else "." +:+ pad6 (microsecond t)).

Definition utc_offset : string := "+00:00".

Definition datetime_isoformat (sep : ascii) (t : datetime) : string :=
  date_isoformat (dt_date t) +:+ String sep (time_isoformat t +:+ utc_offset).

(** [str(t)], which the writer applies to a field that is not text, is
    [t.isoformat(" ")]. *)
Definition str_datetime (t : datetime) : string := datetime_isoformat " " t.

(** ** serializers.py: LogSerializer *)

(** [DateTimeField.to_representation]: [isoformat()], a UTC offset
    shortened to "Z". *)
Definition to_representation (t : datetime) : string :=
  date_isoformat (dt_date t) +:+ String "T" (time_isoformat t +:+ "Z").

(** The serialised row: fields = ["id", "timestamp", "message",
    "severity", "source"]. *)
Record LogData := mkLogData {
  data_id : N;
  data_timestamp : string;
  data_message : string;
  data_severity : string;
  data_source : string
}.

Definition LogSerializer (log : Log) : LogData :=
  mkLogData (log_id log) (to_representation (log_timestamp log))
            (log_message log) (log_severity log) (log_source log).

(** ** views.py: LogViewSet.raw and LogViewSet.export_csv *)

Definition raw (request : Request) (table : list Log) : list LogData :=
  let qs := filter_queryset request (get_queryset table) in
  LogSerializer <$> evaluate qs.

Definition csv_header : list string :=
  ["id"; "timestamp"; "message"; "severity"; "source"].

(** The row handed to [writerow], each field under [str]. *)
Definition csv_row (log : Log) : list string :=
  [str_N (log_id log); str_datetime (log_timestamp log);
   log_message log; log_severity log; log_source log].

(** [generate_csv]: the header line, then one line per row. *)
Definition generate_csv (qs : QuerySet) : list string :=
  writerow csv_header :: ((fun log => writerow (csv_row log)) <$> evaluate qs).

Definition export_csv (request : Request) (table : list Log) : list string :=
  let qs := filter_queryset request (get_queryset table) in
  generate_csv qs.

(** The streamed response body: the chunks one after the other. *)
Definition body (chunks : list string) : string :=
  foldr String.append EmptyString chunks.

(** ** csv.reader under the same dialect

    The reading side of the round trip: the state machine of [csv.reader]
    for the dialect above (not strict, no escape character), fed the text
    line by line, a line ending after a line feed, after a carriage return
    no line feed follows, or with the text. *)

Inductive ParserState :=
  | START_RECORD | START_FIELD | IN_FIELD
  | IN_QUOTED_FIELD | QUOTE_IN_QUOTED_FIELD | EAT_CRNL.

Global Instance ParserState_eq_dec : EqDecision ParserState.
Proof. solve_decision. Defined.

Record Reader := mkReader {
  state : ParserState;
  fields : list string;
  field : string
}.

Definition new_reader : Reader := mkReader START_RECORD [] EmptyString.

Definition parse_add_char (r : Reader) (c : ascii) (st : ParserState) : Reader :=
  mkReader st (fields r) (field r +:+ char c).

Definition parse_save_field (r : Reader) (st : ParserState) : Reader :=
  mkReader st (fields r ++ [field r]) EmptyString.

Definition is_newline (c : ascii) : bool :=
  bool_decide (c = LF) || bool_decide (c = CR).

(** A character arriving at the start of a field. *)
Definition start_field (r : Reader) (c : ascii) : Reader :=
  if is_newline c then parse_save_field r EAT_CRNL
  else if decide (c = quotechar) then
    mkReader IN_QUOTED_FIELD (fields r) (field r)
  else if decide (c = delimiter) then parse_save_field r START_FIELD
  else parse_add_char r c IN_FIELD.

(** [parse_process_char] on a character of the line; [None] is
    [csv.Error]. *)
Definition parse_process_char (r : Reader) (c : ascii) : option Reader :=
  match state r with
  | START_RECORD =>
      if is_newline c then Some (mkReader EAT_CRNL (fields r) (field r))
      else Some (start_field r c)
  | START_FIELD => Some (start_field r c)
  | IN_FIELD =>
      if is_newline c then Some (parse_save_field r EAT_CRNL)
      else if decide (c = delimiter) then Some (parse_save_field r START_FIELD)
      else Some (parse_add_char r c IN_FIELD)
  | IN_QUOTED_FIELD =>
      if decide (c = quotechar) then
        Some (mkReader QUOTE_IN_QUOTED_FIELD (fields r) (field r))
      else Some (parse_add_char r c IN_QUOTED_FIELD)
  | QUOTE_IN_QUOTED_FIELD =>
      if decide (c = quotechar) then Some (parse_add_char r c IN_QUOTED_FIELD)
      else if decide (c = delimiter) then Some (parse_save_field r START_FIELD)
      else if is_newline c then Some (parse_save_field r EAT_CRNL)
      else Some (parse_add_char r c IN_FIELD)
  | EAT_CRNL =>
      if is_newline c then Some r else None
  end.

(** [parse_process_char] at the end of a line. *)
Definition parse_process_eol (r : Reader) : Reader :=
  match state r with
  | START_RECORD | IN_QUOTED_FIELD => r
  | START_FIELD | IN_FIELD | QUOTE_IN_QUOTED_FIELD =>
      parse_save_field r START_RECORD
  | EAT_CRNL => mkReader START_RECORD (fields r) (field r)
  end.

Definition line_ends (c : ascii) (rest : string) : bool :=
  match rest with
  | EmptyString => true
  | String c' _ =>
      bool_decide (c = LF) || (bool_decide (c = CR) && negb (bool_decide (c' = LF)))
  end.

(** The input exhausted in the middle of a record: what has been read is
    kept when a field is under way or a quoted field is open. *)
Definition at_end (r : Reader) : list (list string) :=
  if bool_decide (field r <> EmptyString) ||
     bool_decide (state r = IN_QUOTED_FIELD)
  then [fields (parse_save_field r START_RECORD)]
  else [].

(** The records of a text, in order. *)
Fixpoint reader_go (r : Reader) (text : string) : option (list (list string)) :=
  match text with
  | EmptyString => Some (at_end r)
  | String c rest =>
      match parse_process_char r c with
      | None => None
      | Some r1 =>
          if line_ends c rest then
            let r2 := parse_process_eol r1 in
            if decide (state r2 = START_RECORD)
            then cons (fields r2) <$> reader_go new_reader rest
            else reader_go r2 rest
          else reader_go r1 rest
      end
  end.

Definition csv_reader (text : string) : option (list (list string)) :=
  reader_go new_reader text.

(** Reading the cells back into values: [int(cell)] for the id and a
    parser for the two renderings of a UTC date-time met here. *)
Definition digit_value (c : ascii) : option N :=
  let n := N_of_ascii c in
  if (48 <=? n) && (n <=? 57) then Some (n - 48) else None.

Fixpoint parse_digits (k : nat) (acc : N) (s : string) : option (N * string) :=
  match k with
  | O => Some (acc, s)
  | S k' =>
      match s with
      | EmptyString => None
      | String c s' =>
          match digit_value c with
          | None => None
          | Some d => parse_digits k' (10 * acc + d) s'
          end
      end
  end.

Definition expect (c : ascii) (s : string) : option string :=
  match s with
  | String c' s' => if decide (c' = c) then Some s' else None
  | EmptyString => None
  end.

Definition expect_sep (s : string) : option string :=
  match s with
  | String c s' =>
      if bool_decide (c = "T"%char) || bool_decide (c = " "%char)
      then Some s' else None
  | EmptyString => None
  end.

Definition parse_fraction (s : string) : option (N * string) :=
  match s with
  | String "." s' => parse_digits 6 0 s'
  | _ => Some (0, s)
  end.

Definition parse_utc (s : string) : bool :=
  bool_decide (s = "Z") || bool_decide (s = utc_offset).

Definition parse_datetime (s : string) : option datetime :=
  '(y, s) ← parse_digits 4 0 s; s ← expect "-" s;
  '(mo, s) ← parse_digits 2 0 s; s ← expect "-" s;
  '(d, s) ← parse_digits 2 0 s; s ← expect_sep s;
  '(h, s) ← parse_digits 2 0 s; s ← expect ":" s;
  '(mi, s) ← parse_digits 2 0 s; s ← expect ":" s;
  '(sec, s) ← parse_digits 2 0 s;
  '(us, s) ← parse_fraction s;
  if parse_utc s then Some (mkdatetime y mo d h mi sec us) else None.

Definition parse_int (s : string) : option N :=
  N.of_uint <$> NilZero.uint_of_string s.

(** The tuple of a log row's values. *)
Definition LogTuple : Type := N * datetime * string * string * string.

Definition log_tuple (log : Log) : LogTuple :=
  (log_id log, log_timestamp log, log_message log, log_severity log,
   log_source log).

Definition decode_row (row : list string) : option LogTuple :=
  match row with
  | [i; t; m; sev; src] =>
      i' ← parse_int i; t' ← parse_datetime t; Some (i', t', m, sev, src)
  | _ => None
  end.

(** The tuples of an exported document: the records after the header. *)
Definition parse_export (text : string) : option (list LogTuple) :=
  rows ← csv_reader text;
  match rows with
  | h :: rows' => if decide (h = csv_header) then mapM decode_row rows' else None
  | [] => None
  end.

(** The tuples of a listing. *)
Definition decode_data (d : LogData) : option LogTuple :=
  t' ← parse_datetime (data_timestamp d);
  Some (data_id d, t', data_message d, data_severity d, data_source d).

Definition listing_tuples (l : list LogData) : option (list LogTuple) :=
  mapM decode_data l.

(** ** The filter preference table

    [UserFilterPreference.Meta]: [ordering = ["-created_at"]],
    [unique_together = [["user", "name"]]].  The database refuses a row
    that would share both with another one. *)

Definition same_user_name (p q : UserFilterPreference) : Prop :=
  pref_user p = pref_user q /\ pref_name p = pref_name q.

Global Instance same_user_name_dec p q : Decision (same_user_name p q).
Proof. unfold same_user_name. apply _. Defined.

(** Another row of the table already has the (user, name) of [row]. *)
Definition violates_unique_together (row : UserFilterPreference)
    (table : list UserFilterPreference) : Prop :=
  Exists (fun p => pref_id p <> pref_id row /\ same_user_name p row) table.

Global Instance violates_unique_together_dec row table :
  Decision (violates_unique_together row table).
Proof. unfold violates_unique_together. apply _. Defined.

(** The key the database gives a new row: above every key in use. *)
Definition next_id (table : list UserFilterPreference) : N :=
  1 + foldr N.max 0 (pref_id <$> table).

Definition created_desc (p q : UserFilterPreference) : Prop :=
  dt_le (pref_created_at q) (pref_created_at p).

Global Instance created_desc_dec p q : Decision (created_desc p q).
Proof. unfold created_desc. apply _. Defined.

(** ** views.py: UserFilterPreferenceViewSet *)

(** What a request ends in: the response of the action, the 404 of a
    failed lookup, or the database's [IntegrityError]. *)
Inductive Response (A : Type) :=
  | Ok (a : A)
  | Http404
  | IntegrityError.
Global Arguments Ok {A} a.
Global Arguments Http404 {A}.
Global Arguments IntegrityError {A}.

(** The writable fields of [UserFilterPreferenceSerializer], validated;
    "id", "user", "created_at" and "updated_at" are read-only. *)
Record PrefData := mkPrefData {
  v_name : string;
  v_severity : string;
  v_source : string;
  v_date_from : option date;
  v_date_to : option date
}.

(** [get_queryset]: [self.queryset.filter(user=self.request.user)]. *)
Definition pref_get_queryset (caller : User)
    (table : list UserFilterPreference) : list UserFilterPreference :=
  filter (fun p => pref_user p = caller) table.

(** [list] for a request that asks for no ordering: the caller's
    queryset, evaluated under [Meta.ordering]. *)
Definition pref_list (caller : User) (table : list UserFilterPreference) :
    list UserFilterPreference :=
  merge_sort created_desc (pref_get_queryset caller table).

(** The fields a list request can order by.  The view sets no
    [ordering_fields], so [OrderingFilter] accepts the fields of the
    serializer: "id", "user", "name", "severity", "source", "date_from",
    "date_to", "created_at" and "updated_at". *)
Inductive PrefField :=
  | pf_id | pf_user | pf_name | pf_severity | pf_source
  | pf_date_from | pf_date_to | pf_created_at | pf_updated_at.

(** The [ordering] of a request, without the terms that name no such
    field, which [OrderingFilter] drops.  One key per term: [true] for a
    leading minus sign (descending). *)
Definition PrefOrdering := list (bool * PrefField).

(** Comparison of two dates: year, month, day. *)
Definition date_compare (a b : date) : comparison :=
  lex (d_year a ?= d_year b)
 (lex (d_month a ?= d_month b)
      (d_day a ?= d_day b)).

(** A nullable column.  The database keeps the nulls together, before
    every value or after every value; which of the two is the database's
    choice ([nulls_first]). *)
Definition nullable_compare {A} (nulls_first : bool)
    (cmp : A -> A -> comparison) (a b : option A) : comparison :=
  match a, b with
  | None, None => Eq
  | None, Some _ => if nulls_first then Lt else Gt
  | Some _, None => if nulls_first then Gt else Lt
  | Some x, Some y => cmp x y
  end.

(** Two rows compared on one field.  The users are compared by their
    keys: the user model has no ordering of its own. *)
Definition pref_field_compare (nulls_first : bool) (f : PrefField)
    (p q : UserFilterPreference) : comparison :=
  match f with
  | pf_id => pref_id p ?= pref_id q
  | pf_user => pref_user p ?= pref_user q
  | pf_name => String.compare (pref_name p) (pref_name q)
  | pf_severity => String.compare (pref_severity p) (pref_severity q)
  | pf_source => String.compare (pref_source p) (pref_source q)
  | pf_date_from =>
      nullable_compare nulls_first date_compare
        (pref_date_from p) (pref_date_from q)
  | pf_date_to =>
      nullable_compare nulls_first date_compare
        (pref_date_to p) (pref_date_to q)
  | pf_created_at => datetime_compare (pref_created_at p) (pref_created_at q)
  | pf_updated_at => datetime_compare (pref_updated_at p) (pref_updated_at q)
  end.

Fixpoint pref_ordering_compare (nulls_first : bool) (o : PrefOrdering)
    (p q : UserFilterPreference) : comparison :=
  match o with
  | [] => Eq
  | (desc, f) :: o' =>
      lex (if desc : bool then CompOpp (pref_field_compare nulls_first f p q)
           else pref_field_compare nulls_first f p q)
          (pref_ordering_compare nulls_first o' p q)
  end.

Definition pref_ordered_before (nulls_first : bool) (o : PrefOrdering)
    (p q : UserFilterPreference) : Prop :=
  pref_ordering_compare nulls_first o p q <> Gt.

Global Instance pref_ordered_before_dec nf o p q :
  Decision (pref_ordered_before nf o p q).
Proof. unfold pref_ordered_before. apply _. Defined.

(** [list] with its [filter_queryset]: the view names no filter backends
    of its own, so the configured ones serve it as they serve the logs.
    It names neither a filter set nor [search_fields], which leaves
    [OrderingFilter] to act on the caller's queryset: an ordering in the
    request replaces [Meta.ordering], no ordering leaves it. *)
Definition pref_list_ordered (nulls_first : bool) (o : PrefOrdering)
    (caller : User) (table : list UserFilterPreference) :
    list UserFilterPreference :=
  match o with
  | [] => pref_list caller table
  | _ => merge_sort (pref_ordered_before nulls_first o)
                    (pref_get_queryset caller table)
  end.

(** [get_object]: the row of that key in the caller's queryset. *)
Definition get_object (caller : User) (pk : N)
    (table : list UserFilterPreference) : option UserFilterPreference :=
  head (filter (fun p => pref_id p = pk) (pref_get_queryset caller table)).

Definition pref_retrieve (caller : User) (pk : N)
    (table : list UserFilterPreference) : Response UserFilterPreference :=
  match get_object caller pk table with
  | Some p => Ok p
  | None => Http404
  end.

(** [perform_create] and [UserFilterPreferenceSerializer.create]: the
    user of the new row is the caller. *)
Definition perform_create (caller : User) (data : PrefData) (now : datetime)
    (table : list UserFilterPreference) :
    Response UserFilterPreference * list UserFilterPreference :=
  let row := mkPref (next_id table) caller (v_name data) (v_severity data)
                    (v_source data) (v_date_from data) (v_date_to data)
                    now now in
  if decide (violates_unique_together row table) then (IntegrityError, table)
  else (Ok row, table ++ [row]).

Definition pref_update (caller : User) (pk : N) (data : PrefData)
    (now : datetime) (table : list UserFilterPreference) :
    Response UserFilterPreference * list UserFilterPreference :=
  match get_object caller pk table with
  | None => (Http404, table)
  | Some p =>
      let row := mkPref (pref_id p) (pref_user p) (v_name data)
                        (v_severity data) (v_source data) (v_date_from data)
                        (v_date_to data) (pref_created_at p) now in
      if decide (violates_unique_together row table) then (IntegrityError, table)
      else (Ok row,
            (fun q => if decide (pref_id q = pref_id p) then row else q)
              <$> table)
  end.

Definition pref_destroy (caller : User) (pk : N)
    (table : list UserFilterPreference) :
    Response unit * list UserFilterPreference :=
  match get_object caller pk table with
  | None => (Http404, table)
  | Some p => (Ok tt, filter (fun q => pref_id q <> pref_id p) table)
  end.

(** The table as the database keeps it: keys are unique, and so are
    (user, name) pairs. *)
Definition table_ok (table : list UserFilterPreference) : Prop :=
  NoDup (pref_id <$> table) /\
  forall p q, p ∈ table -> q ∈ table -> same_user_name p q -> p = q.

(** ** datetime.timedelta and date arithmetic

    The proleptic Gregorian calendar of the [datetime] module: days are
    counted from 0001-01-01, which is day 1. *)

Definition is_leap (y : Z) : bool :=
  ((y mod 4 =? 0) && (negb (y mod 100 =? 0) || (y mod 400 =? 0)))%Z.

Definition days_before_year (y : Z) : Z :=
  (let y := y - 1 in y * 365 + y / 4 - y / 100 + y / 400)%Z.

Definition DAYS_IN_MONTH : list Z :=
  [-1; 31; 28; 31; 30; 31; 30; 31; 31; 30; 31; 30; 31]%Z.

Definition DAYS_BEFORE_MONTH : list Z :=
  [-1; 0; 31; 59; 90; 120; 151; 181; 212; 243; 273; 304; 334]%Z.

Definition index (l : list Z) (i : Z) : Z := nth (Z.to_nat i) l 0%Z.

Definition days_in_month (y m : Z) : Z :=
  if (m =? 2)%Z && is_leap y then 29%Z else index DAYS_IN_MONTH m.

Definition days_before_month (y m : Z) : Z :=
  (index DAYS_BEFORE_MONTH m + if (2 <? m) && is_leap y then 1 else 0)%Z.

Definition ymd2ord (y m d : Z) : Z :=
  (days_before_year y + days_before_month y m + d)%Z.

Definition DI400Y : Z := Eval cbv in days_before_year 401.
Definition DI100Y : Z := Eval cbv in days_before_year 101.
Definition DI4Y : Z := Eval cbv in days_before_year 5.
Definition MAXORDINAL : Z := Eval cbv in ymd2ord 9999 12 31.

Definition ord2ymd (n : Z) : Z * Z * Z :=
  (let n := n - 1 in
   let n400 := n / DI400Y in
   let n := n mod DI400Y in
   let y := n400 * 400 + 1 in
   let n100 := n / DI100Y in
   let n := n mod DI100Y in
   let n4 := n / DI4Y in
   let n := n mod DI4Y in
   let n1 := n / 365 in
   let n := n mod 365 in
   let y := y + n100 * 100 + n4 * 4 + n1 in
   if (n1 =? 4) || (n100 =? 4) then (y - 1, 12, 31)
   else
     let leapyear := (n1 =? 3) && (negb (n4 =? 24) || (n100 =? 3)) in
     let m := Z.shiftr (n + 50) 5 in
     let preceding :=
       index DAYS_BEFORE_MONTH m + (if (2 <? m) && leapyear then 1 else 0) in
     if n <? preceding then
       let m := m - 1 in
       let preceding :=
         preceding -
         (index DAYS_IN_MONTH m + if (m =? 2) && leapyear then 1 else 0) in
       (y, m, n - preceding + 1)
     else (y, m, n - preceding + 1))%Z.

(** [date.toordinal()] and [date.fromordinal(n)]. *)
Definition toordinal (d : date) : Z :=
  ymd2ord (Z.of_N (d_year d)) (Z.of_N (d_month d)) (Z.of_N (d_day d)).

Definition fromordinal (n : Z) : date :=
  let '(y, m, d) := ord2ymd n in mkdate (Z.to_N y) (Z.to_N m) (Z.to_N d).

(** A duration: days, seconds and microseconds, the last two within a
    day and within a second. *)
Record timedelta := mktimedelta {
  td_days : Z;
  td_seconds : Z;
  td_microseconds : Z
}.

Definition td_of_microseconds (us : Z) : timedelta :=
  (mktimedelta (us / 86400000000) (us mod 86400000000 / 1000000)
               (us mod 1000000))%Z.

Definition td_to_microseconds (d : timedelta) : Z :=
  ((td_days d * 86400 + td_seconds d) * 1000000 + td_microseconds d)%Z.

(** [timedelta(days=, hours=, minutes=, seconds=, microseconds=)] of whole
    numbers. *)
Definition timedelta_of (days hours minutes seconds microseconds : Z) :
    timedelta :=
  td_of_microseconds
    ((((days * 24 + hours) * 60 + minutes) * 60 + seconds) * 1000000
     + microseconds)%Z.

Definition td_add (a b : timedelta) : timedelta :=
  td_of_microseconds (td_to_microseconds a + td_to_microseconds b)%Z.

Definition td_neg (a : timedelta) : timedelta :=
  td_of_microseconds (- td_to_microseconds a)%Z.

(** [datetime.__add__]: through the day number and the time of day as a
    duration; a result outside the years 1 to 9999 is an [OverflowError],
    here [None]. *)
Definition datetime_add (t : datetime) (other : timedelta) : option datetime :=
  let delta :=
    td_add (timedelta_of (toordinal (dt_date t)) (Z.of_N (hour t))
              (Z.of_N (minute t)) (Z.of_N (second t))
              (Z.of_N (microsecond t)))
           other in
  let h := (td_seconds delta / 3600)%Z in
  let rem := (td_seconds delta mod 3600)%Z in
  let m := (rem / 60)%Z in
  let s := (rem mod 60)%Z in
  if ((0 <? td_days delta) && (td_days delta <=? MAXORDINAL))%Z then
    let d := fromordinal (td_days delta) in
    Some (mkdatetime (d_year d) (d_month d) (d_day d) (Z.to_N h) (Z.to_N m)
            (Z.to_N s) (Z.to_N (td_microseconds delta)))
  else None.

(** [datetime.__sub__] of a duration: [self + -other]. *)
Definition datetime_sub (t : datetime) (other : timedelta) : option datetime :=
  datetime_add t (td_neg other).

(** ** The random module

    The generator is a source of natural numbers; each function maps the
    number it is given into the outcomes it can have. *)

(** [random.randint(a, b)]: a whole number from [a] to [b]. *)
Definition random_randint (a b r : N) : N := a + r mod (b - a + 1).

(** [random.choice(seq)]: an element of [seq]; an [IndexError], here
    [None], when it is empty. *)
Definition random_choice {A} (seq : list A) (r : N) : option A :=
  seq !! N.to_nat (r mod N.of_nat (length seq)).

(** [random.choices(population, weights, k=1)[0]]: an element of the
    population whose weight is positive; a [ValueError], here [None],
    when the weights are not as many as the elements. *)
Definition random_choices1 {A} (population : list A) (weights : list N)
    (r : N) : option A :=
  if decide (length weights = length population) then
    random_choice
      (fst <$> filter (fun item => 0 < item.2) (zip population weights)) r
  else None.

(** [random.sample(population, k)]: [k] elements from different places of
    the population; a [ValueError], here [None], when it has fewer. *)
Fixpoint random_sample {A} (population : list A) (k : nat) (rs : list N) :
    option (list A) :=
  match k with
  | O => Some []
  | S k' =>
      let i := N.to_nat (hd 0 rs mod N.of_nat (length population)) in
      x ← population !! i;
      rest ← random_sample (delete i population) k' (tl rs);
      Some (x :: rest)
  end.

(** ** django.contrib.auth: the user table *)

(** A row of [auth_user], with the fields the code reads or writes;
    [au_password] is the password the stored hash answers to. *)
Record AuthUser := mkAuthUser {
  au_id : User;
  au_username : string;
  au_email : string;
  au_first_name : string;
  au_last_name : string;
  au_is_staff : bool;
  au_is_superuser : bool;
  au_password : string
}.

Global Instance AuthUser_eq_dec : EqDecision AuthUser.
Proof. solve_decision. Defined.

(** The keyword arguments of [create_user] besides the password. *)
Record UserData := mkUserData {
  ud_username : string;
  ud_email : string;
  ud_first_name : string;
  ud_last_name : string;
  ud_is_staff : bool;
  ud_is_superuser : bool
}.

(** [BaseUserManager.normalize_email]: white space at the ends is
    dropped and the part behind the last [@] is put in lower case; an
    address without [@] is left as it is.  Text is ASCII here, as in the
    rest of the model. *)
Fixpoint rsplit_at (c : ascii) (s : string) : option (string * string) :=
  match s with
  | EmptyString => None
  | String a s' =>
      match rsplit_at c s' with
      | Some (name, domain) => Some (String a name, domain)
      | None => if decide (a = c) then Some (EmptyString, s') else None
      end
  end.

Definition is_space (c : ascii) : bool :=
  let n := N_of_ascii c in
  ((9 <=? n) && (n <=? 13)) || ((28 <=? n) && (n <=? 32)).

Fixpoint lstrip (s : string) : string :=
  match s with
  | String c s' => if is_space c then lstrip s' else s
  | EmptyString => EmptyString
  end.

Fixpoint rstrip (s : string) : string :=
  match s with
  | String c s' =>
      match rstrip s' with
      | EmptyString => if is_space c then EmptyString else char c
      | rest => String c rest
      end
  | EmptyString => EmptyString
  end.

Definition strip (s : string) : string := rstrip (lstrip s).

Definition normalize_email (email : string) : string :=
  match rsplit_at "@" (strip email) with
  | Some (email_name, domain_part) =>
      email_name +:+ "@" +:+ lower_string domain_part
  | None => email
  end.

(** The key of a new user: above every key in use. *)
Definition next_user_id (table : list AuthUser) : N :=
  1 + foldr N.max 0 (au_id <$> table).

(** [User.objects.create_user(password=, **user_data)], for a user name
    that is not taken (an ASCII user name is its own normal form); the
    flags are those of [user_data]. *)
Definition create_user (password : string) (data : UserData)
    (table : list AuthUser) : AuthUser * list AuthUser :=
  let user := mkAuthUser (next_user_id table) (ud_username data)
                (normalize_email (ud_email data)) (ud_first_name data)
                (ud_last_name data) (ud_is_staff data) (ud_is_superuser data)
                password in
  (user, table ++ [user]).

(** ** generate_demo_data.py: the demo data generator *)

Record Database := mkDatabase {
  db_users : list AuthUser;
  db_logs : list Log;
  db_preferences : list UserFilterPreference
}.

Definition LOG_MESSAGES : list (string * list string) :=
  [ ("DEBUG",
     [ "Database query executed successfully";
       "User session initialized";
       "Cache hit for user preferences";
       "Processing request parameters";
       "Validating input data";
       "Loading configuration settings";
       "Establishing database connection";
       "Parsing request headers";
       "Initializing security context";
       "Starting background task" ]);
    ("INFO",
     [ "User login successful";
       "New user registration completed";
       "File upload completed";
       "Data export initiated";
       "System health check passed";
       "Scheduled task completed";
       "User logout processed";
       "Configuration updated";
       "Cache refresh completed";
       "Service started successfully";
       "API request processed";
       "Email notification sent";
       "Password reset requested";
       "User profile updated";
       "Search query executed" ]);
    ("WARNING",
     [ "High memory usage detected";
       "Slow database query performance";
       "API rate limit approaching";
       "Deprecated feature usage detected";
       "Unusual login pattern detected";
       "Cache miss rate increasing";
       "Disk space running low";
       "Connection timeout occurred";
       "Invalid request parameters";
       "Session expiring soon";
       "Retry attempt after failure";
       "Performance threshold exceeded" ]);
    ("ERROR",
     [ "Database connection failed";
       "Authentication failed for user";
       "File upload error occurred";
       "Payment processing failed";
       "API request timeout";
       "Invalid credentials provided";
       "Service unavailable";
       "Data validation failed";
       "Network connection error";
       "Permission denied for operation";
       "Resource not found";
       "Configuration file missing";
       "Third-party service error";
       "Email delivery failed" ]);
    ("CRITICAL",
     [ "System out of memory";
       "Database server unresponsive";
       "Security breach detected";
       "Service completely down";
       "Data corruption detected";
       "Critical security vulnerability";
       "System overload - shutting down";
       "Hardware failure detected";
       "Backup system failure";
       "Critical configuration error" ]) ].

Definition SOURCES : list string :=
  [ "auth_service"; "user_management"; "api_gateway"; "database_service";
    "payment_processor"; "email_service"; "file_storage";
    "notification_service"; "analytics_engine"; "security_monitor";
    "web_server"; "background_worker"; "cache_service"; "search_engine";
    "reporting_service"; "backup_service"; "monitoring_agent";
    "load_balancer"; "cdn_service"; "message_queue" ].

Definition DEMO_USERS : list UserData :=
  [ mkUserData "admin" "admin@logsdashboard.com" "Admin" "User" true true;
    mkUserData "developer" "dev@logsdashboard.com" "John" "Developer"
      false false;
    mkUserData "analyst" "analyst@logsdashboard.com" "Jane" "Analyst"
      false false;
    mkUserData "operator" "ops@logsdashboard.com" "Mike" "Operations"
      false false;
    mkUserData "tester" "test@logsdashboard.com" "Sarah" "Tester"
      false false ].

Record Preset := mkPreset {
  preset_name : string;
  preset_severity : string;
  preset_source : string
}.

Global Instance Preset_eq_dec : EqDecision Preset.
Proof. solve_decision. Defined.

Definition FILTER_PRESETS : list Preset :=
  [ mkPreset "Critical Issues" "CRITICAL" EmptyString;
    mkPreset "Auth Service Errors" "ERROR" "auth_service";
    mkPreset "Database Problems" "WARNING" "database_service";
    mkPreset "All Warnings" "WARNING" EmptyString;
    mkPreset "Payment Issues" EmptyString "payment_processor";
    mkPreset "Recent Errors" "ERROR" EmptyString ].

(** [clear_existing_data]: the preferences, the logs, then the accounts
    that are not superusers; deleting an account deletes the preferences
    that point to it ([on_delete=models.CASCADE]). *)
Definition delete_users (gone : AuthUser -> bool) (db : Database) : Database :=
  let deleted := filter (fun u => gone u = true) (db_users db) in
  mkDatabase
    (filter (fun u => gone u <> true) (db_users db))
    (db_logs db)
    (filter (fun p => pref_user p ∉ au_id <$> deleted) (db_preferences db)).

Definition clear_existing_data (db : Database) : Database :=
  let db := mkDatabase (db_users db) (db_logs db) [] in
  let db := mkDatabase (db_users db) [] (db_preferences db) in
  delete_users (fun u => negb (au_is_superuser u)) db.

(** [User.objects.filter(username=...)], which holds one row at most. *)
Definition user_by_name (username : string) (table : list AuthUser) :
    option AuthUser :=
  head (filter (fun u => au_username u = username) table).

(** The loop of [create_users] over the first entries of [DEMO_USERS]:
    the users so far, and the table. *)
Fixpoint create_users_loop (data : list UserData) (users : list AuthUser)
    (table : list AuthUser) : list AuthUser * list AuthUser :=
  match data with
  | [] => (users, table)
  | user_data :: rest =>
      match user_by_name (ud_username user_data) table with
      | Some user => create_users_loop rest (users ++ [user]) table
      | None =>
          let '(user, table) := create_user "demo123" user_data table in
          create_users_loop rest (users ++ [user]) table
      end
  end.

(** [create_users(count)]: the users, which the generator keeps as
    [created_users], and the database. *)
Definition create_users (count : Z) (db : Database) :
    list AuthUser * Database :=
  let n := Z.min count (Z.of_nat (length DEMO_USERS)) in
  let '(users, table) :=
    create_users_loop (take (Z.to_nat n) DEMO_USERS) [] (db_users db) in
  (users, mkDatabase table (db_logs db) (db_preferences db)).

(** What the generator draws for one log entry: a number for every call
    of the random module, and whether [random.random()] came out below
    0.3. *)
Record LogDraw := mkLogDraw {
  r_days : N; r_hours : N; r_minutes : N; r_seconds : N;
  r_severity : N; r_source : N; r_message : N;
  r_context : bool;
  r_user_id : N; r_session : N; r_request_id : N;
  r_duration : N; r_memory : N; r_cpu : N;
  r_which : N
}.

(** [severity_weights], each weight times 100 and cut to a whole number
    (the products 20.0, 40.0, 25.0, 12.0 and 3.0 are whole). *)
Definition severity_weights : list (string * nat) :=
  [ ("DEBUG", 20); ("INFO", 40); ("WARNING", 25); ("ERROR", 12);
    ("CRITICAL", 3) ]%nat.

Definition weighted_severities : list string :=
  flat_map (fun item => replicate item.2 item.1) severity_weights.

(** A dictionary with text keys, as a list of items. *)
Fixpoint lookup_key {V} (key : string) (items : list (string * V)) : option V :=
  match items with
  | [] => None
  | (k, v) :: rest => if decide (k = key) then Some v else lookup_key key rest
  end.

(** A [Log] before it is saved. *)
Record NewLog := mkNewLog {
  n_timestamp : datetime;
  n_message : string;
  n_severity : string;
  n_source : string
}.

(** One round of the loop of [create_logs]; [None] is an exception. *)
Definition new_log (now : datetime) (d : LogDraw) : option NewLog :=
  let range30 := N.of_nat <$> seq 0 30 in
  days_ago ← random_choices1 range30
               ((fun i => N.max (30 - i) 1) <$> range30) (r_days d);
  let hours_ago := random_randint 0 23 (r_hours d) in
  let minutes_ago := random_randint 0 59 (r_minutes d) in
  let seconds_ago := random_randint 0 59 (r_seconds d) in
  timestamp ← datetime_sub now
    (timedelta_of (Z.of_N days_ago) (Z.of_N hours_ago) (Z.of_N minutes_ago)
       (Z.of_N seconds_ago) 0);
  severity ← random_choice weighted_severities (r_severity d);
  source ← random_choice SOURCES (r_source d);
  messages ← lookup_key severity LOG_MESSAGES;
  message ← random_choice messages (r_message d);
  message ←
    (if r_context d then
       let contexts :=
         [ "User ID: " +:+ str_N (random_randint 1 1000 (r_user_id d));
           "Session: " +:+ str_N (random_randint 10000 99999 (r_session d));
           "Request ID: " +:+
             str_N (random_randint 100000 999999 (r_request_id d));
           "Duration: " +:+ str_N (random_randint 50 5000 (r_duration d))
             +:+ "ms";
           "Memory: " +:+ str_N (random_randint 64 512 (r_memory d)) +:+ "MB";
           "CPU: " +:+ str_N (random_randint 10 95 (r_cpu d)) +:+ "%" ] in
       context ← random_choice contexts (r_which d);
       Some (message +:+ " - " +:+ context)
     else Some message);
  Some (mkNewLog timestamp message severity source).

(** The key of a new log: above every key in use. *)
Definition next_log_id (table : list Log) : N :=
  1 + foldr N.max 0 (log_id <$> table).

(** [Log.objects.bulk_create]: the rows are inserted in their order. *)
Definition bulk_create (objs : list NewLog) (table : list Log) : list Log :=
  foldl (fun table o =>
           table ++ [mkLog (next_log_id table) (n_timestamp o) (n_message o)
                           (n_severity o) (n_source o)])
        table objs.

(** [create_logs(count)]: nothing is written when a round raises.  The
    statistics it ends with are printed only. *)
Definition create_logs (count : Z) (now : datetime) (draws : nat -> LogDraw)
    (db : Database) : option Database :=
  logs_to_create ← mapM (fun i => new_log now (draws i))
                     (seq 0 (Z.to_nat count));
  Some (mkDatabase (db_users db) (bulk_create logs_to_create (db_logs db))
          (db_preferences db)).

(** What the generator draws for one preset of one user, and what the
    clock shows at each of its readings. *)
Record PresetDraw := mkPresetDraw {
  r_date_from : bool;
  r_days_back : N;
  now_date_from : datetime;
  r_date_to : bool;
  now_date_to : datetime;
  now_create : datetime
}.

Record UserDraw := mkUserDraw {
  r_num_presets : N;
  r_sample : list N;
  r_presets : nat -> PresetDraw
}.

(** [UserFilterPreference.objects.create(...)]: the row, or the
    database's uniqueness error. *)
Definition objects_create (user : User) (data : PrefData) (now : datetime)
    (table : list UserFilterPreference) :
    Response UserFilterPreference * list UserFilterPreference :=
  perform_create user data now table.

(** One round of the loop over the presets of a user.  The dates are
    worked out before the [try]: an exception there, here [None], ends
    the run; an exception of [create] is passed over, and the table is
    as it was. *)
Definition create_preset (user : AuthUser) (preset : Preset)
    (d : PresetDraw) (table : list UserFilterPreference) :
    option (list UserFilterPreference) :=
  date_from ←
    (if r_date_from d then
       let days_back := random_randint 1 14 (r_days_back d) in
       t ← datetime_sub (now_date_from d)
             (timedelta_of (Z.of_N days_back) 0 0 0 0);
       Some (Some (dt_date t))
     else Some None);
  let date_to :=
    if r_date_to d then Some (dt_date (now_date_to d)) else None in
  Some (objects_create (au_id user)
          (mkPrefData (preset_name preset) (preset_severity preset)
             (preset_source preset) date_from date_to)
          (now_create d) table).2.

(** The loop over the presets of one user: whether it came to its end,
    and the table with the rows written so far. *)
Fixpoint create_presets (user : AuthUser) (presets : list Preset)
    (draws : nat -> PresetDraw) (table : list UserFilterPreference) :
    option unit * list UserFilterPreference :=
  match presets with
  | [] => (Some (), table)
  | preset :: rest =>
      match create_preset user preset (draws O) table with
      | None => (None, table)
      | Some table => create_presets user rest (fun i => draws (S i)) table
      end
  end.

(** [create_filter_preferences]: for every created user, two to four
    presets. *)
Fixpoint create_filter_preferences_loop (users : list AuthUser)
    (draws : nat -> UserDraw) (table : list UserFilterPreference) :
    option unit * list UserFilterPreference :=
  match users with
  | [] => (Some (), table)
  | user :: rest =>
      let d := draws O in
      let num_presets := random_randint 2 4 (r_num_presets d) in
      match random_sample FILTER_PRESETS (N.to_nat num_presets) (r_sample d)
      with
      | None => (None, table)
      | Some user_presets =>
          match create_presets user user_presets (r_presets d) table with
          | (Some _, table) =>
              create_filter_preferences_loop rest (fun i => draws (S i)) table
          | (None, table) => (None, table)
          end
      end
  end.

Definition create_filter_preferences (created_users : list AuthUser)
    (draws : nat -> UserDraw) (db : Database) : option unit * Database :=
  match created_users with
  | [] => (Some (), db)
  | _ =>
      let '(result, table) :=
        create_filter_preferences_loop created_users draws
          (db_preferences db) in
      (result, mkDatabase (db_users db) (db_logs db) table)
  end.

(** [show_log_statistics]: the queries behind the lines it prints. *)
Definition total_logs (table : list Log) : nat :=
  length (qs_rows (objects_all table)).

Definition SEVERITY_CHOICES : list (string * string) :=
  [ ("DEBUG", "Debug"); ("INFO", "Info"); ("WARNING", "Warning");
    ("ERROR", "Error"); ("CRITICAL", "Critical") ].

Definition severity_counts (table : list Log) : list (string * nat) :=
  (fun choice =>
     (choice.1,
      length (qs_rows (qs_filter (fun l => log_severity l = choice.1)
                         (objects_all table)))))
    <$> SEVERITY_CHOICES.

Definition top_sources (table : list Log) : list (string * nat) :=
  take 5 (order_by_count_desc (values_count log_source (objects_all table))).

Definition oldest (table : list Log) : option Log :=
  head (evaluate (qs_order_by [(false, ord_timestamp)] (objects_all table))).

Definition newest (table : list Log) : option Log :=
  head (evaluate (qs_order_by [(true, ord_timestamp)] (objects_all table))).

(** The command line, as [argparse] hands it over. *)
Record Args := mkArgs {
  args_logs : Z;
  args_users : Z;
  args_clear : bool
}.

Definition default_args : Args := mkArgs 500 3 false.

(** What a run draws and reads from the clock. *)
Record Draws := mkDraws {
  now_logs : datetime;
  log_draws : nat -> LogDraw;
  user_draws : nat -> UserDraw
}.

(** [main]: the exit status and the database the run leaves behind. *)
Definition main (args : Args) (draws : Draws) (db : Database) :
    Z * Database :=
  if (args_logs args <? 1)%Z then (1%Z, db)
  else if ((args_users args <? 1) || (5 <? args_users args))%Z then (1%Z, db)
  else
    let db := if args_clear args then clear_existing_data db else db in
    let '(created_users, db) := create_users (args_users args) db in
    match create_logs (args_logs args) (now_logs draws) (log_draws draws) db
    with
    | None => (1%Z, db)
    | Some db =>
        match create_filter_preferences created_users (user_draws draws) db
        with
        | (Some _, db) => (0%Z, db)
        | (None, db) => (1%Z, db)
        end
    end.

(** * Specification *)

(** ** Orders *)

(** What makes a three-way comparison a total order. *)
Record TotalCompare {A} (cmp : A -> A -> comparison) : Prop := {
  compare_eq a b : cmp a b = Eq <-> a = b;
  compare_opp a b : cmp b a = CompOpp (cmp a b);
  compare_trans a b c : cmp a b = Lt -> cmp b c = Lt -> cmp a c = Lt
}.

Definition lex_pair {A B} (f : A -> A -> comparison)
    (g : B -> B -> comparison) (x y : A * B) : comparison :=
  lex (f x.1 y.1) (g x.2 y.2).

Definition dt_fields (t : datetime) : N * (N * (N * (N * (N * (N * N))))) :=
  (year t, (month t, (day t, (hour t, (minute t, (second t, microsecond t)))))).

(** ** Groups and their counts *)

(** The rows of a group: those whose key is [k]. *)
Definition rows_with {K} `{EqDecision K} (key : Log -> K) (k : K)
    (rows : list Log) : list Log :=
  filter (fun l => key l = k) rows.

(** [out] is the date aggregation of [rows] under the truncation [trunc]:
    the entries are the buckets in strictly ascending order of their
    start, each rendered as an ISO date with the number of rows falling in
    it, and a bucket has an entry exactly when some row falls in it. *)
Definition date_buckets (trunc : datetime -> datetime) (rows : list Log)
    (out : list Entry) : Prop :=
  exists buckets : list (datetime * nat),
    out = (fun b => mkEntry "date" (date_isoformat (dt_date b.1)) b.2)
            <$> buckets /\
    StronglySorted (fun b1 b2 => dt_lt b1.1 b2.1) buckets /\
    forall b n, (b, n) ∈ buckets <->
      (0 < n)%nat /\
      n = length (rows_with (fun l => trunc (log_timestamp l)) b rows).

(** The calendar day and the calendar month a date-time falls in, each
    named by the date of its first day. *)
Definition calendar_day (t : datetime) : date :=
  mkdate (year t) (month t) (day t).

Definition calendar_month (t : datetime) : date :=
  mkdate (year t) (month t) 1.

(** One date is before another. *)
Definition date_lt (a b : date) : Prop :=
  d_year a < d_year b \/
  (d_year a = d_year b /\
   (d_month a < d_month b \/ (d_month a = d_month b /\ d_day a < d_day b))).

(** A date in the ISO form, YYYY-MM-DD. *)
Definition iso_date (d : date) : string :=
  pad4 (d_year d) +:+ "-" +:+ pad2 (d_month d) +:+ "-" +:+ pad2 (d_day d).

(** [out] counts [rows] by the period their timestamps fall in: an entry
    for every period some row falls in and for no other, carrying the
    first day of the period as an ISO date and the number of rows that
    fall in it, the entries in ascending order of their periods. *)
Definition period_counts (period : datetime -> date) (rows : list Log)
    (out : list Entry) : Prop :=
  exists periods : list date,
    out = (fun p =>
             mkEntry "date" (iso_date p)
               (length (filter (fun l => period (log_timestamp l) = p) rows)))
          <$> periods /\
    StronglySorted date_lt periods /\
    forall p, p ∈ periods <->
      exists l, l ∈ rows /\ period (log_timestamp l) = p.

(** The first instant of a date. *)
Definition midnight (d : date) : datetime :=
  mkdatetime (d_year d) (d_month d) (d_day d) 0 0 0 0.

(** [out] is the count of [rows] per value of a text field: one entry for
    each value some row has, with the number of rows having it, in
    descending order of the counts, which add up to the number of rows. *)
Definition field_counts (name : string) (key : Log -> string)
    (rows : list Log) (out : list Entry) : Prop :=
  NoDup (e_value <$> out) /\
  (forall e, e ∈ out <->
     e_field e = name /\
     (exists l, l ∈ rows /\ key l = e_value e) /\
     e_count e = length (rows_with key (e_value e) rows)) /\
  StronglySorted (fun e1 e2 => (e_count e2 <= e_count e1)%nat) out /\
  sum_list (e_count <$> out) = length rows.

(** The request with one more query parameter, given last. *)
Definition with_param (key value : string) (request : Request) : Request :=
  mkRequest (query_params request ++ [(key, value)])
            (filter_params request) (user request).

(** ** The constraints of a filter query *)

(** [term] occurs in [value], letter case aside. *)
Definition occurs_ci (term value : string) : Prop :=
  exists pre mid post,
    value = pre +:+ mid +:+ post /\ lower_string mid = lower_string term.

(** The constraints of the field filters, of the date bounds and of the
    search terms. *)
Definition passes_fields (q : FilterQuery) (l : Log) : Prop :=
  (q_severity q = EmptyString \/ log_severity l = q_severity q) /\
  (q_source q = EmptyString \/ log_source l = q_source q).

Definition passes_dates (q : FilterQuery) (l : Log) : Prop :=
  (forall a, q_date_from q = Some a -> dt_le a (log_timestamp l)) /\
  (forall b, q_date_to q = Some b -> dt_le (log_timestamp l) b).

Definition passes_search (q : FilterQuery) (l : Log) : Prop :=
  forall term, term ∈ q_search q ->
    occurs_ci term (log_message l) \/ occurs_ci term (log_source l).

(** The rows the three views work on. *)
Definition filtered (request : Request) (table : list Log) : list Log :=
  evaluate (filter_queryset request (get_queryset table)).

(** ** Letter case *)

(** A capital letter, A to Z; in ASCII the small letter of a capital is
    32 places after it. *)
Definition capital (c : ascii) : Prop := 65 <= N_of_ascii c <= 90.

(** Two characters that are equal, letter case aside. *)
Definition same_letter (a b : ascii) : Prop :=
  a = b \/
  (capital a /\ N_of_ascii b = N_of_ascii a + 32) \/
  (capital b /\ N_of_ascii a = N_of_ascii b + 32).

(** Two texts that are equal, letter case aside. *)
Fixpoint same_text (s t : string) : Prop :=
  match s, t with
  | EmptyString, EmptyString => True
  | String a s', String b t' => same_letter a b /\ same_text s' t'
  | _, _ => False
  end.



(** ** The text of a row *)

(** What follows the first field of a row: every further field behind a
    delimiter, then the rest of the text. *)
Definition fields_tail (row : list string) (rest : string) : string :=
  foldr (fun x acc => String delimiter (write_field x +:+ acc)) rest row.

(** The state the reader is in when it has read the field [x]. *)
Definition after_field (x : string) : ParserState :=
  if has_special x then QUOTE_IN_QUOTED_FIELD
  else match x with
       | EmptyString => START_FIELD
       | String _ _ => IN_FIELD
       end.

(** ** The exported document *)

(** [text] starts the way every ISO-8601 rendering of the date-time [t]
    in the extended format does: the calendar date, then the time
    designator "T".  [t.isoformat()] and the listing's rendering are of
    this form, whatever the precision and the way the offset is written. *)
Definition iso8601 (t : datetime) (text : string) : Prop :=
  exists rest, text = date_isoformat (dt_date t) +:+ String "T" rest.

(** [doc] is the CSV document of [rows] when date-times are rendered as
    [stamp] says: the header line, then for each row the line of its id,
    timestamp, message, severity and source, each written as a field,
    joined by commas and ended by a carriage return and a line feed. *)
Definition csv_document (stamp : datetime -> string -> Prop)
    (rows : list Log) (doc : list string) : Prop :=
  exists lines,
    doc = ("id,timestamp,message,severity,source" +:+ CRLF) :: lines /\
    Forall2
      (fun l line => exists text,
         stamp (log_timestamp l) text /\
         line = join delimiter
                  (write_field <$> [str_N (log_id l); text; log_message l;
                                    log_severity l; log_source l])
                +:+ CRLF)
      rows lines.

(** How a field is written: as it is when it holds no delimiter, quote,
    carriage return or line feed, and otherwise between quotes with every
    quote of its own written twice. *)
Definition quoting_rules : Prop :=
  (forall s, has_special s = true <->
     exists a c b, s = a +:+ String c b /\
       (c = delimiter \/ c = quotechar \/ c = CR \/ c = LF)) /\
  (forall s, has_special s = false -> write_field s = s) /\
  (forall s, has_special s = true ->
     write_field s = char quotechar +:+ double_quotes s +:+ char quotechar) /\
  (forall a b, double_quotes (a +:+ b) = double_quotes a +:+ double_quotes b) /\
  double_quotes (char quotechar) = String quotechar (char quotechar) /\
  (forall c, c <> quotechar -> double_quotes (char c) = char c).

(** ** The rows a query selects *)

(** A row is not before, not after, an optional bound. *)
Definition not_before (bound : option datetime) (l : Log) : Prop :=
  match bound with
  | Some a => dt_le a (log_timestamp l)
  | None => True
  end.

Definition not_after (bound : option datetime) (l : Log) : Prop :=
  match bound with
  | Some b => dt_le (log_timestamp l) b
  | None => True
  end.

Global Instance not_before_dec bound l : Decision (not_before bound l).
Proof. destruct bound; simpl; apply _. Defined.
Global Instance not_after_dec bound l : Decision (not_after bound l).
Proof. destruct bound; simpl; apply _. Defined.

(** A row meets every constraint of the query. *)
Definition selected (q : FilterQuery) (l : Log) : Prop :=
  (q_severity q = EmptyString \/ log_severity l = q_severity q) /\
  (q_source q = EmptyString \/ log_source l = q_source q) /\
  not_before (q_date_from q) l /\ not_after (q_date_to q) l /\
  forallb (fun term => term_matches term l) (q_search q) = true.

Global Instance selected_dec q l : Decision (selected q l).
Proof. unfold selected. apply _. Defined.

(** The ordering a listing is evaluated under: the one asked for, and
    the model's own when none is. *)
Definition listing_order (q : FilterQuery) : Ordering :=
  match q_ordering q with
  | [] => [(true, ord_timestamp)]
  | o => o
  end.

(** Queries that differ in the ordering at most. *)
Definition same_constraints (q1 q2 : FilterQuery) : Prop :=
  q_severity q1 = q_severity q2 /\ q_source q1 = q_source q2 /\
  q_date_from q1 = q_date_from q2 /\ q_date_to q1 = q_date_to q2 /\
  q_search q1 = q_search q2.

(** A three-way comparison that orders with ties: ties are compatible
    with the comparison, and "not after" is transitive. *)
Record PreCompare {A} (cmp : A -> A -> comparison) : Prop := {
  pre_opp a b : cmp b a = CompOpp (cmp a b);
  pre_tie a b c : cmp a b = Eq -> cmp a c = cmp b c;
  pre_trans a b c : cmp a b <> Gt -> cmp b c <> Gt -> cmp a c <> Gt
}.

(** ** Requests in sequence *)

(** The requests that write to the preference table. *)
Inductive PrefAction : Type :=
  | ActCreate (caller : User) (data : PrefData) (now : datetime)
  | ActUpdate (caller : User) (pk : N) (data : PrefData) (now : datetime)
  | ActDestroy (caller : User) (pk : N).

(** The table after a request, whatever the response was. *)
Definition pref_step (table : list UserFilterPreference) (a : PrefAction) :
    list UserFilterPreference :=
  match a with
  | ActCreate caller data now => (perform_create caller data now table).2
  | ActUpdate caller pk data now => (pref_update caller pk data now table).2
  | ActDestroy caller pk => (pref_destroy caller pk table).2
  end.

(** ** The calendar *)

Section calendar_terms.
Local Open Scope Z_scope.

Definition valid_ymd (y m d : Z) : Prop :=
  1 <= y <= 9999 /\ 1 <= m <= 12 /\ 1 <= d <= days_in_month y m.

(** The month and the day of the month of the [n]th day of a year, as
    [ord2ymd] works them out. *)
Definition month_day (leap : bool) (n : Z) : Z * Z :=
  let m := Z.shiftr (n + 50) 5 in
  let preceding :=
    index DAYS_BEFORE_MONTH m + (if (2 <? m) && leap then 1 else 0) in
  if n <? preceding then
    let m := m - 1 in
    let preceding :=
      preceding -
      (index DAYS_IN_MONTH m + if (m =? 2) && leap then 1 else 0) in
    (m, n - preceding + 1)
  else (m, n - preceding + 1).

Definition month_day_ok (leap : bool) (n : Z) : Prop :=
  let '(m, d) := month_day leap n in
  1 <= m <= 12 /\
  1 <= d <= (if (m =? 2) && leap then 29 else index DAYS_IN_MONTH m) /\
  index DAYS_BEFORE_MONTH m + (if (2 <? m) && leap then 1 else 0) + d = n + 1.

Global Instance month_day_ok_dec leap n : Decision (month_day_ok leap n).
Proof. unfold month_day_ok. destruct (month_day leap n). apply _. Defined.

(** A date-time of the calendar: the fields in their ranges, the day
    within the month. *)
Definition calendar_datetime (t : datetime) : Prop :=
  valid_datetime t /\
  Z.of_N (day t) <= days_in_month (Z.of_N (year t)) (Z.of_N (month t)).

Global Instance calendar_datetime_dec t : Decision (calendar_datetime t).
Proof. unfold calendar_datetime. apply _. Defined.

(** The microseconds from the start of day 0 to a date-time. *)
Definition to_microseconds (t : datetime) : Z :=
  (((toordinal (dt_date t) * 24 + Z.of_N (hour t)) * 60 + Z.of_N (minute t))
     * 60 + Z.of_N (second t)) * 1000000 + Z.of_N (microsecond t).

End calendar_terms.

(** ** What the generator makes *)

(** What a round of [create_logs] makes. *)
Definition generated (now : datetime) (log : NewLog) : Prop :=
  calendar_datetime (n_timestamp log) /\
  dt_le (n_timestamp log) now /\
  (exists start,
     datetime_sub now (timedelta_of 30 0 0 0 0) = Some start /\
     dt_lt start (n_timestamp log)) /\
  microsecond (n_timestamp log) = microsecond now /\
  n_severity log ∈ SEVERITY_CHOICES.*1 /\
  n_source log ∈ SOURCES /\
  exists messages base,
    lookup_key (n_severity log) LOG_MESSAGES = Some messages /\
    base ∈ messages /\
    (n_message log = base \/
     exists context, n_message log = base +:+ " - " +:+ context).

(** The fields of a saved row are those of the object it was made from. *)
Definition saved_as (o : NewLog) (l : Log) : Prop :=
  log_timestamp l = n_timestamp o /\ log_message l = n_message o /\
  log_severity l = n_severity o /\ log_source l = n_source o.

(** The account [create_user] makes of an entry of [DEMO_USERS]. *)
Definition demo_account (data : UserData) (u : AuthUser) : Prop :=
  au_username u = ud_username data /\
  au_email u = normalize_email (ud_email data) /\
  au_first_name u = ud_first_name data /\
  au_last_name u = ud_last_name data /\
  au_is_staff u = ud_is_staff data /\
  au_is_superuser u = ud_is_superuser data /\
  au_password u = "demo123".

(** How a user of [create_users] relates to its entry of [DEMO_USERS]:
    the account of that name, as the table had it or as it was made. *)
Definition account_for (table table' : list AuthUser) (data : UserData)
    (u : AuthUser) : Prop :=
  user_by_name (ud_username data) table' = Some u /\
  (user_by_name (ud_username data) table = Some u \/
   (user_by_name (ud_username data) table = None /\ demo_account data u /\
    u ∉ table)).

(** The clock of a reading that a date is worked out from: a date-time of
    the calendar, more than two weeks after its first day. *)
Definition clock_ok (d : PresetDraw) : Prop :=
  calendar_datetime (now_date_from d) /\
  dt_le (mkdatetime 1 1 15 0 0 0 0) (now_date_from d).

Global Instance clock_ok_dec d : Decision (clock_ok d).
Proof. unfold clock_ok. apply _. Defined.

(** A row made of a preset for a user. *)
Definition preset_row (user : AuthUser) (preset : Preset)
    (p : UserFilterPreference) : Prop :=
  pref_user p = au_id user /\ pref_name p = preset_name preset /\
  pref_severity p = preset_severity preset /\
  pref_source p = preset_source preset.

(** The names of the presets a user was given rows for. *)
Definition has_presets (user : AuthUser) (table : list UserFilterPreference)
    (names : list string) : Prop :=
  NoDup names /\ (2 <= length names <= 4)%nat /\
  forall name, name ∈ names ->
    exists p, p ∈ table /\ pref_user p = au_id user /\ pref_name p = name.

(** The clocks of a run are where the dates can be worked out. *)
Definition clocks_ok (draws : Draws) : Prop :=
  calendar_datetime (now_logs draws) /\
  dt_le (mkdatetime 1 1 31 0 0 0 0) (now_logs draws) /\
  forall i j, clock_ok (r_presets (user_draws draws i) j).

(** The arguments [main] accepts. *)
Definition valid_args (args : Args) : Prop :=
  (1 <= args_logs args)%Z /\ (1 <= args_users args <= 5)%Z.

(** ** Search terms *)

(** The request with other search terms. *)
Definition with_search (terms : list string) (request : Request) : Request :=
  let q := filter_params request in
  mkRequest (query_params request)
    (mkFilterQuery (q_severity q) (q_source q) (q_date_from q) (q_date_to q)
       terms (q_ordering q))
    (user request).

(** ** The order of a preference list *)

(** Names in non-decreasing order, character by character. *)
Definition name_asc (p q : UserFilterPreference) : Prop :=
  String.compare (pref_name p) (pref_name q) <> Gt.

(** ** Example data *)

Definition no_filter : FilterQuery :=
  mkFilterQuery EmptyString EmptyString None None [] [].

Definition ex_table : list Log :=
  [ mkLog 1 (mkdatetime 2024 1 1 10 0 0 0) "err A" "ERROR" "svc1";
    mkLog 2 (mkdatetime 2024 1 1 12 0 0 0) "ok B" "INFO" "svc2";
    mkLog 3 (mkdatetime 2024 1 2 9 0 0 0) "err C" "ERROR" "svc1" ].

Definition ex_request (qp : list (string * string)) : Request :=
  mkRequest qp no_filter 1.

Definition ex_range (a b : datetime) : Request :=
  mkRequest []
    (mkFilterQuery EmptyString EmptyString (Some a) (Some b) [] []) 1.

Definition ex_search (terms : list string) : Request :=
  mkRequest [] (mkFilterQuery EmptyString EmptyString None None terms []) 1.

Definition ex_prefs : list UserFilterPreference :=
  [ mkPref 1 1 "errors" "ERROR" EmptyString None None
      (mkdatetime 2024 1 1 8 0 0 0) (mkdatetime 2024 1 1 8 0 0 0);
    mkPref 2 2 "errors" "ERROR" "svc1" None None
      (mkdatetime 2024 1 2 8 0 0 0) (mkdatetime 2024 1 2 8 0 0 0);
    mkPref 3 1 "recent" EmptyString EmptyString
      (Some (mkdate 2024 1 1)) None
      (mkdatetime 2024 1 3 8 0 0 0) (mkdatetime 2024 1 3 8 0 0 0) ].

Definition ex_other_pref : UserFilterPreference :=
  mkPref 2 2 "errors" "ERROR" "svc1" None None
    (mkdatetime 2024 1 2 8 0 0 0) (mkdatetime 2024 1 2 8 0 0 0).

Definition ex_data : PrefData :=
  mkPrefData "errors" "CRITICAL" EmptyString None None.

Definition ex_now : datetime := mkdatetime 2024 1 4 8 0 0 0.

Definition ex_message : string :=
  "say " +:+ char quotechar +:+ "hi" +:+ char quotechar +:+ ", bye" +:+
  CRLF +:+ "again".

Definition ex_quoted_table : list Log :=
  [ mkLog 7 (mkdatetime 2024 3 9 23 59 59 250000) ex_message "WARNING"
      "svc,3" ].

Definition ex_ordered (o : Ordering) : Request :=
  mkRequest []
    (mkFilterQuery EmptyString EmptyString None None [] o) 1.

Definition ex_own_pref : UserFilterPreference :=
  mkPref 3 1 "recent" EmptyString EmptyString
    (Some (mkdate 2024 1 1)) None
    (mkdatetime 2024 1 3 8 0 0 0) (mkdatetime 2024 1 3 8 0 0 0).

Definition ex_rename : PrefData :=
  mkPrefData "older" "INFO" "svc2" None (Some (mkdate 2024 1 3)).

Definition ex_created : UserFilterPreference :=
  mkPref 4 3 "errors" "CRITICAL" EmptyString None None ex_now ex_now.

Definition ex_prefs_created : list UserFilterPreference :=
  ex_prefs ++ [ex_created].

Definition ex_updated : UserFilterPreference :=
  mkPref 3 1 "older" "INFO" "svc2" None (Some (mkdate 2024 1 3))
    (mkdatetime 2024 1 3 8 0 0 0) ex_now.

Definition ex_prefs_updated : list UserFilterPreference :=
  [ mkPref 1 1 "errors" "ERROR" EmptyString None None
      (mkdatetime 2024 1 1 8 0 0 0) (mkdatetime 2024 1 1 8 0 0 0);
    mkPref 2 2 "errors" "ERROR" "svc1" None None
      (mkdatetime 2024 1 2 8 0 0 0) (mkdatetime 2024 1 2 8 0 0 0);
    ex_updated ].

Definition ex_prefs_destroyed : list UserFilterPreference :=
  [ mkPref 1 1 "errors" "ERROR" EmptyString None None
      (mkdatetime 2024 1 1 8 0 0 0) (mkdatetime 2024 1 1 8 0 0 0);
    mkPref 2 2 "errors" "ERROR" "svc1" None None
      (mkdatetime 2024 1 2 8 0 0 0) (mkdatetime 2024 1 2 8 0 0 0) ].

Definition ex_log_draw : LogDraw :=
  mkLogDraw 3 5 7 11 45 2 4 true 10 20 30 40 50 60 3.

Definition ex_preset_draw : PresetDraw :=
  mkPresetDraw true 5 ex_now true ex_now ex_now.

Definition ex_user_draw : UserDraw :=
  mkUserDraw 1 [2; 7; 1; 0] (fun _ => ex_preset_draw).

Definition ex_draws : Draws :=
  mkDraws ex_now (fun _ => ex_log_draw) (fun _ => ex_user_draw).

Definition ex_users : list AuthUser :=
  [ mkAuthUser 1 "root" "root@example.org" "Root" "User" true true "secret";
    mkAuthUser 2 "developer" "dev@example.org" "Dev" "Eloper" false false
      "hunter2" ].

Definition ex_db : Database := mkDatabase ex_users ex_table ex_prefs.

Definition ex_args : Args := mkArgs 2 2 true.

(** * Properties *)

(** ** Comparisons *)

Lemma N_TotalCompare : TotalCompare N.compare.
Proof.
  split.
  - apply N.compare_eq_iff.
  - intros a b. apply N.compare_antisym.
  - intros a b c. rewrite !N.compare_lt_iff. apply N.lt_trans.
Qed.

Lemma lex_pair_TotalCompare {A B} (f : A -> A -> comparison)
    (g : B -> B -> comparison) :
  TotalCompare f -> TotalCompare g -> TotalCompare (lex_pair f g).
Proof.
  intros Hf Hg. split.
  - intros [a1 a2] [b1 b2]. unfold lex_pair; simpl. split.
    + destruct (f a1 b1) eqn:E; simpl; try discriminate.
      intros G. apply (compare_eq _ Hf) in E. apply (compare_eq _ Hg) in G.
      congruence.
    + intros [= -> ->].
      rewrite (proj2 (compare_eq _ Hf b1 b1) eq_refl). simpl.
      by apply (compare_eq _ Hg).
  - intros [a1 a2] [b1 b2]. unfold lex_pair; simpl.
    rewrite (compare_opp _ Hf a1 b1), (compare_opp _ Hg a2 b2).
    by destruct (f a1 b1).
  - intros [a1 a2] [b1 b2] [c1 c2]. unfold lex_pair; simpl.
    destruct (f a1 b1) eqn:E1; simpl; try discriminate.
    + apply (compare_eq _ Hf) in E1 as ->.
      destruct (f b1 c1) eqn:E2; simpl; try discriminate; auto.
      apply (compare_trans _ Hg).
    + intros _. destruct (f b1 c1) eqn:E2; simpl; try discriminate.
      * apply (compare_eq _ Hf) in E2 as <-. by rewrite E1.
      * by rewrite (compare_trans _ Hf _ _ _ E1 E2).
Qed.

Section total_compare.
Context {A} (cmp : A -> A -> comparison) (Hcmp : TotalCompare cmp).

Lemma compare_refl a : cmp a a = Eq.
Proof. by apply (compare_eq _ Hcmp). Qed.

Lemma compare_not_Gt_total a b : cmp a b <> Gt \/ cmp b a <> Gt.
Proof.
  rewrite (compare_opp _ Hcmp a b). destruct (cmp a b); simpl; auto.
Qed.

Lemma compare_not_Gt_trans a b c :
  cmp a b <> Gt -> cmp b c <> Gt -> cmp a c <> Gt.
Proof.
  intros H1 H2.
  destruct (cmp a b) eqn:E1; [| |done].
  - by apply (compare_eq _ Hcmp) in E1 as ->.
  - destruct (cmp b c) eqn:E2; [| |done].
    + apply (compare_eq _ Hcmp) in E2 as <-. by rewrite E1.
    + by rewrite (compare_trans _ Hcmp _ _ _ E1 E2).
Qed.

Lemma compare_not_Gt_neq a b : cmp a b <> Gt -> a <> b -> cmp a b = Lt.
Proof.
  intros H1 H2. destruct (cmp a b) eqn:E; [|done..].
  by apply (compare_eq _ Hcmp) in E.
Qed.

Lemma compare_Lt_irrefl a : cmp a a <> Lt.
Proof. by rewrite compare_refl. Qed.
End total_compare.

Lemma dt_fields_inj a b : dt_fields a = dt_fields b -> a = b.
Proof. destruct a, b. unfold dt_fields; simpl. congruence. Qed.

Lemma datetime_TotalCompare : TotalCompare datetime_compare.
Proof.
  pose proof N_TotalCompare as HN.
  assert (TotalCompare
    (lex_pair N.compare (lex_pair N.compare (lex_pair N.compare
      (lex_pair N.compare (lex_pair N.compare
        (lex_pair N.compare N.compare))))))) as H.
  { repeat apply lex_pair_TotalCompare; exact HN. }
  split.
  - intros a b. etrans; [apply (compare_eq _ H (dt_fields a) (dt_fields b))|].
    split; [apply dt_fields_inj | by intros ->].
  - intros a b. apply (compare_opp _ H (dt_fields a) (dt_fields b)).
  - intros a b c.
    apply (compare_trans _ H (dt_fields a) (dt_fields b) (dt_fields c)).
Qed.

Global Instance dt_le_refl : Reflexive dt_le.
Proof.
  intros a. unfold dt_le.
  by rewrite (compare_refl _ datetime_TotalCompare).
Qed.
Global Instance dt_le_trans : Transitive dt_le.
Proof. intros a b c. apply (compare_not_Gt_trans _ datetime_TotalCompare). Qed.
Global Instance dt_le_total : Total dt_le.
Proof. intros a b. apply (compare_not_Gt_total _ datetime_TotalCompare). Qed.

Lemma dt_le_neq_lt a b : dt_le a b -> a <> b -> dt_lt a b.
Proof. apply (compare_not_Gt_neq _ datetime_TotalCompare). Qed.

Lemma dt_lt_le a b : dt_lt a b -> dt_le a b.
Proof. unfold dt_lt, dt_le. by intros ->. Qed.

Lemma dt_lt_irrefl a : ~ dt_lt a a.
Proof. apply (compare_Lt_irrefl _ datetime_TotalCompare). Qed.

Lemma dt_le_antisym a b : dt_le a b -> dt_le b a -> a = b.
Proof.
  unfold dt_le. rewrite (compare_opp _ datetime_TotalCompare a b).
  destruct (datetime_compare a b) eqn:E; simpl; try done.
  intros _ _. by apply (compare_eq _ datetime_TotalCompare).
Qed.

Global Instance period_le_trans : Transitive period_le.
Proof. intros x y z. unfold period_le. apply dt_le_trans. Qed.
Global Instance period_le_total : Total period_le.
Proof. intros x y. unfold period_le. apply dt_le_total. Qed.
Global Instance count_ge_trans {K} : Transitive (@count_ge K).
Proof. intros x y z. unfold count_ge. lia. Qed.
Global Instance count_ge_total {K} : Total (@count_ge K).
Proof. intros x y. unfold count_ge. lia. Qed.

(** ** Truncation *)

Lemma TruncDay_same_day a b : TruncDay a = TruncDay b <-> dt_date a = dt_date b.
Proof. unfold TruncDay, dt_date. split; intros [= -> -> ->]; done. Qed.

Lemma TruncMonth_same_month a b :
  TruncMonth a = TruncMonth b <-> year a = year b /\ month a = month b.
Proof.
  unfold TruncMonth. split; [by intros [= -> ->] | by intros [-> ->]].
Qed.

(** The buckets of a month's days fall into the bucket of the month. *)
Lemma TruncMonth_TruncDay t : TruncMonth (TruncDay t) = TruncMonth t.
Proof. reflexivity. Qed.

(** The start of the day is on the day, and not after the date-time. *)
Lemma TruncDay_start t :
  dt_date (TruncDay t) = dt_date t /\ dt_le (TruncDay t) t.
Proof.
  split; [done|]. unfold dt_le, datetime_compare, TruncDay. simpl.
  rewrite !N.compare_refl. simpl.
  destruct (hour t), (minute t), (second t), (microsecond t); by cbv.
Qed.

Lemma TruncMonth_start t :
  1 <= day t ->
  d_year (dt_date (TruncMonth t)) = year t /\
  d_month (dt_date (TruncMonth t)) = month t /\
  d_day (dt_date (TruncMonth t)) = 1 /\ dt_le (TruncMonth t) t.
Proof.
  intros Hd. repeat split.
  unfold dt_le, datetime_compare, TruncMonth. simpl.
  rewrite !N.compare_refl. simpl.
  destruct (day t) as [|[p|p|]]; [lia|by cbv..|].
  destruct (hour t), (minute t), (second t), (microsecond t); by cbv.
Qed.

(** ** Grouping and counting *)

Section grouping.
Context {K : Type} `{EqDecision K} (key : Log -> K).

Lemma rows_with_cons k x rows :
  length (rows_with key k (x :: rows)) =
  ((if decide (key x = k) then 1 else 0) + length (rows_with key k rows))%nat.
Proof.
  unfold rows_with. rewrite filter_cons. by destruct (decide (key x = k)).
Qed.

Lemma rows_with_nonempty k rows :
  (0 < length (rows_with key k rows))%nat <->
  exists l, l ∈ rows /\ key l = k.
Proof.
  unfold rows_with. split.
  - destruct (filter _ rows) as [|l ?] eqn:E; simpl; [lia|].
    intros _. exists l.
    assert (l ∈ filter (fun l => key l = k) rows) as Hl
      by (rewrite E; left).
    apply list_elem_of_filter in Hl. tauto.
  - intros (l & Hl & Hk).
    assert (l ∈ filter (fun l => key l = k) rows) as Hin
      by (apply list_elem_of_filter; done).
    destruct (filter _ rows); [by apply not_elem_of_nil in Hin|simpl; lia].
Qed.

(** Each key of [ks] counted once: the indicator of [k0] sums to one. *)
Lemma indicator_sum (k0 : K) (ks : list K) :
  NoDup ks -> k0 ∈ ks ->
  sum_list_with (fun k => if decide (k0 = k) then 1 else 0)%nat ks = 1%nat.
Proof.
  induction 1 as [|k ks Hk Hnd IH]; intros Hin.
  - by apply not_elem_of_nil in Hin.
  - simpl. destruct (decide (k0 = k)) as [->|Hne].
    + assert (sum_list_with (fun k' => if decide (k = k') then 1 else 0)%nat
                ks = 0%nat) as ->; [|done].
      clear IH Hin Hnd. induction ks as [|k' ks IH]; [done|].
      simpl. apply not_elem_of_cons in Hk as [Hne Hk].
      rewrite decide_False by done. by rewrite IH.
    + apply elem_of_cons in Hin as [?|Hin]; [done|]. by rewrite IH.
Qed.

(** The groups partition the rows. *)
Lemma group_sizes_sum (ks : list K) rows :
  NoDup ks -> (forall l, l ∈ rows -> key l ∈ ks) ->
  sum_list_with (fun k => length (rows_with key k rows)) ks = length rows.
Proof.
  intros Hnd. induction rows as [|x rows IH]; intros Hks.
  - clear Hnd Hks. induction ks as [|k ks IHks]; [done|].
    simpl in *. exact IHks.
  - transitivity
      (sum_list_with (fun k => if decide (key x = k) then 1 else 0)%nat ks +
       sum_list_with (fun k => length (rows_with key k rows)) ks)%nat.
    + clear IH Hks Hnd. induction ks as [|k ks IHks]; [done|].
      simpl. rewrite IHks, rows_with_cons. lia.
    + rewrite indicator_sum; [|done|apply Hks; left].
      rewrite IH; [done|]. intros l Hl. apply Hks. by right.
Qed.

Lemma elem_of_values_count qs k n :
  (k, n) ∈ values_count key qs <->
  (exists l, l ∈ qs_rows qs /\ key l = k) /\
  n = length (rows_with key k (qs_rows qs)).
Proof.
  unfold values_count. rewrite list_elem_of_fmap. split.
  - intros (k' & [= -> ->] & Hk).
    apply elem_of_remove_dups, list_elem_of_fmap in Hk as (l & -> & Hl).
    split; [by exists l | done].
  - intros [(l & Hl & <-) ->]. exists (key l). split; [done|].
    apply elem_of_remove_dups, list_elem_of_fmap. by exists l.
Qed.

Lemma values_count_keys qs :
  (values_count key qs).*1 = remove_dups (key <$> qs_rows qs).
Proof.
  unfold values_count. rewrite <-list_fmap_compose.
  etrans; [|apply list_fmap_id]. by apply list_fmap_ext.
Qed.

Lemma NoDup_values_count qs : NoDup (values_count key qs).*1.
Proof. rewrite values_count_keys. apply NoDup_remove_dups. Qed.

Lemma values_count_sum qs :
  sum_list (values_count key qs).*2 = length (qs_rows qs).
Proof.
  unfold values_count. rewrite <-list_fmap_compose.
  rewrite <-(group_sizes_sum (remove_dups (key <$> qs_rows qs))).
  - generalize (remove_dups (key <$> qs_rows qs)).
    intros ks. induction ks as [|k ks IH]; [done|].
    simpl. unfold rows_with at 1. f_equal. exact IH.
  - apply NoDup_remove_dups.
  - intros l Hl. apply elem_of_remove_dups, list_elem_of_fmap. by exists l.
Qed.
End grouping.

(** ** The aggregated view *)

Lemma get_absent qp key default :
  (forall v, (key, v) ∉ qp) -> get qp key default = default.
Proof.
  revert default. induction qp as [|[k v] qp IH]; intros default Hqp; [done|].
  simpl. destruct (decide (k = key)) as [->|Hne].
  - exfalso. apply (Hqp v). left.
  - apply IH. intros v' Hv'. apply (Hqp v'). by right.
Qed.

Lemma get_last qp key value default :
  get (qp ++ [(key, value)]) key default = value.
Proof.
  revert default. induction qp as [|[k v] qp IH]; intros default; simpl.
  - by rewrite decide_True.
  - destruct (decide (k = key)); apply IH.
Qed.

Lemma get_other qp key key' value default :
  key' <> key -> get (qp ++ [(key', value)]) key default = get qp key default.
Proof.
  intros Hne. revert default.
  induction qp as [|[k v] qp IH]; intros default; simpl.
  - by rewrite decide_False.
  - destruct (decide (k = key)); apply IH.
Qed.

Lemma StronglySorted_strict (l : list (datetime * nat)) :
  StronglySorted period_le l -> NoDup l.*1 ->
  StronglySorted (fun b1 b2 => dt_lt b1.1 b2.1) l.
Proof.
  induction 1 as [|x l Hl IH Hx]; intros Hnd; [constructor|].
  rewrite fmap_cons in Hnd. apply NoDup_cons in Hnd as [Hnotin Hnd].
  constructor; [by apply IH|].
  rewrite Forall_forall in Hx |- *. intros y Hy.
  apply dt_le_neq_lt; [by apply Hx|].
  intros Heq. apply Hnotin. rewrite Heq. by apply list_elem_of_fmap_2.
Qed.

(** Settle the tests whose outcome is known. *)
Ltac settle_decide :=
  repeat match goal with
  | |- context [decide (?a = ?b)] =>
      first [ rewrite (decide_True (P := a = b)) by done
            | rewrite (decide_False (P := a = b)) by done ]
  end.

Lemma order_by_period_buckets trunc (qs : QuerySet) :
  date_buckets trunc (qs_rows qs)
    ((fun b => mkEntry "date" (date_isoformat (dt_date b.1)) b.2) <$>
     order_by_period (values_count (fun l => trunc (log_timestamp l)) qs)).
Proof.
  set (key := fun l => trunc (log_timestamp l)).
  exists (order_by_period (values_count key qs)).
  pose proof (merge_sort_Permutation period_le (values_count key qs)) as Hp.
  split; [done|]. split.
  - apply StronglySorted_strict.
    + apply StronglySorted_merge_sort; apply _.
    + unfold order_by_period. rewrite Hp. apply NoDup_values_count.
  - intros b n. unfold order_by_period. rewrite Hp.
    rewrite elem_of_values_count, <-rows_with_nonempty.
    split; intros [H1 H2]; subst; done.
Qed.

Lemma order_by_count_entries name key (qs : QuerySet) :
  field_counts name key (qs_rows qs)
    ((fun item => mkEntry name item.1 item.2) <$>
     order_by_count_desc (values_count key qs)).
Proof.
  pose proof (merge_sort_Permutation count_ge (values_count key qs)) as Hp.
  fold (order_by_count_desc (values_count key qs)) in Hp.
  set (data := order_by_count_desc (values_count key qs)) in *.
  assert (e_value <$> ((fun item => mkEntry name item.1 item.2) <$> data)
          = data.*1) as Hval.
  { rewrite <-list_fmap_compose. by apply list_fmap_ext. }
  assert (e_count <$> ((fun item => mkEntry name item.1 item.2) <$> data)
          = data.*2) as Hcnt.
  { rewrite <-list_fmap_compose. by apply list_fmap_ext. }
  split; [|split; [|split]].
  - rewrite Hval, Hp. apply NoDup_values_count.
  - intros e. rewrite list_elem_of_fmap. split.
    + intros ([k n] & -> & Hin). simpl.
      rewrite Hp in Hin. apply elem_of_values_count in Hin as [? ?]. done.
    + intros (Hf & Hex & Hc). exists (e_value e, e_count e). split.
      * destruct e; simpl in *; by subst.
      * rewrite Hp. by apply elem_of_values_count.
  - apply (StronglySorted_fmap _ count_ge); [by intros [] []|].
    apply StronglySorted_merge_sort; apply _.
  - rewrite Hcnt, Hp. apply values_count_sum.
Qed.

Lemma aggregated_date request table :
  get (query_params request) "group_by" "date" = "date" ->
  date_buckets
    (if decide (get (query_params request) "interval" "day" = "day")
     then TruncDay else TruncMonth)
    (qs_rows (filter_queryset request (get_queryset table)))
    (aggregated request table).
Proof.
  intros Hg. unfold aggregated. rewrite Hg. settle_decide.
  apply order_by_period_buckets.
Qed.

Lemma aggregated_source request table :
  get (query_params request) "group_by" "date" <> "date" ->
  get (query_params request) "group_by" "date" <> "severity" ->
  aggregated request table =
    (fun item => mkEntry "source" item.1 item.2) <$>
    order_by_count_desc
      (values_count log_source (filter_queryset request (get_queryset table))).
Proof.
  intros H1 H2. unfold aggregated. by settle_decide.
Qed.

Lemma dt_lt_asym a b : dt_lt a b -> dt_lt b a -> False.
Proof.
  unfold dt_lt. rewrite (compare_opp _ datetime_TotalCompare a b).
  by intros ->.
Qed.

Lemma StronglySorted_lt_NoDup (l : list (datetime * nat)) :
  StronglySorted (fun b1 b2 => dt_lt b1.1 b2.1) l -> NoDup l.
Proof.
  induction 1 as [|x l Hl IH Hx]; constructor; [|done].
  intros Hin. rewrite Forall_forall in Hx.
  by apply (dt_lt_irrefl x.1), Hx.
Qed.

(** The description leaves no freedom: there is one date aggregation of
    given rows under a given truncation. *)
Lemma date_buckets_unique trunc rows out1 out2 :
  date_buckets trunc rows out1 -> date_buckets trunc rows out2 -> out1 = out2.
Proof.
  intros (bs1 & -> & Hs1 & Hin1) (bs2 & -> & Hs2 & Hin2). f_equal.
  eapply StronglySorted_unique_strong; [|exact Hs1|exact Hs2|].
  - intros x1 x2 _ _ H12 H21. by destruct (dt_lt_asym _ _ H12 H21).
  - apply NoDup_Permutation; [by apply StronglySorted_lt_NoDup..|].
    intros [b n]. by rewrite Hin1, Hin2.
Qed.

(** Under [interval=day] a row is counted in the entry of its calendar
    day, with every row of that day. *)
Lemma date_buckets_day rows out l :
  date_buckets TruncDay rows out -> l ∈ rows ->
  mkEntry "date" (date_isoformat (dt_date (log_timestamp l)))
    (length (rows_with (fun r => dt_date (log_timestamp r))
               (dt_date (log_timestamp l)) rows)) ∈ out.
Proof.
  intros (bs & -> & _ & Hin) Hl. apply list_elem_of_fmap.
  exists (TruncDay (log_timestamp l),
          length (rows_with (fun r => TruncDay (log_timestamp r))
                    (TruncDay (log_timestamp l)) rows)).
  split.
  - simpl. f_equal. unfold rows_with. f_equal.
    apply list_filter_iff. intros r. symmetry. apply TruncDay_same_day.
  - apply Hin. split; [|done]. apply rows_with_nonempty. by exists l.
Qed.

Lemma midnight_lt p q : dt_lt (midnight p) (midnight q) -> date_lt p q.
Proof.
  unfold dt_lt, datetime_compare, midnight, date_lt. simpl.
  destruct (N.compare_spec (d_year p) (d_year q)); simpl; [|by left|done].
  destruct (N.compare_spec (d_month p) (d_month q)); simpl;
    [|by right; split; [|left]|done].
  destruct (N.compare_spec (d_day p) (d_day q)); simpl; [done| |done].
  intros _. right. split; [done|]. by right.
Qed.

Lemma midnight_inj p q : midnight p = midnight q -> p = q.
Proof. destruct p, q. by intros [= -> -> ->]. Qed.

Lemma dt_date_midnight p : dt_date (midnight p) = p.
Proof. by destruct p. Qed.

(** Buckets under a truncation to the first instant of a period are the
    counts by that period. *)
Lemma date_buckets_period trunc period rows out :
  (forall t, trunc t = midnight (period t)) ->
  date_buckets trunc rows out -> period_counts period rows out.
Proof.
  intros Htrunc (buckets & -> & Hsorted & Hin).
  assert (forall b n, (b, n) ∈ buckets ->
            exists l, l ∈ rows /\ b = midnight (period (log_timestamp l)))
    as Hrow.
  { intros b n Hb. apply Hin in Hb as [Hpos ->].
    apply rows_with_nonempty in Hpos as (l & Hl & <-).
    exists l. split; [done|]. apply Htrunc. }
  exists ((fun b => dt_date b.1) <$> buckets). split; [|split].
  - rewrite <-list_fmap_compose. apply list_fmap_ext.
    intros i [b n] Hi. apply list_elem_of_lookup_2 in Hi.
    destruct (Hrow b n Hi) as (l & Hl & ->).
    apply Hin in Hi as [_ ->]. simpl. f_equal.
    unfold rows_with. f_equal. apply list_filter_iff. intros r.
    rewrite Htrunc, dt_date_midnight.
    split; [by intros ?%midnight_inj | by intros ->].
  - clear Hin. induction Hsorted as [|[b n] buckets Hs IH Hall];
      [constructor|].
    rewrite fmap_cons. constructor.
    + apply IH. intros b' n' Hb'. apply (Hrow b' n'). by right.
    + apply Forall_fmap, Forall_forall. intros [b' n'] Hb'.
      rewrite Forall_forall in Hall. specialize (Hall _ Hb'). simpl in *.
      destruct (Hrow b n) as (l & _ & ->); [left|].
      destruct (Hrow b' n') as (l' & _ & ->); [by right|].
      by apply midnight_lt.
  - intros p. rewrite list_elem_of_fmap. split.
    + intros ([b n] & -> & Hb). destruct (Hrow b n Hb) as (l & Hl & ->).
      exists l. cbn [fst]. by rewrite dt_date_midnight.
    + intros (l & Hl & <-).
      exists (trunc (log_timestamp l),
              length (rows_with (fun r => trunc (log_timestamp r))
                        (trunc (log_timestamp l)) rows)).
      split; [cbn [fst]; by rewrite Htrunc, dt_date_midnight|]. apply Hin.
      split; [|done].
      apply rows_with_nonempty. by exists l.
Qed.


Lemma date_lt_irrefl p : ~ date_lt p p.
Proof. unfold date_lt. lia. Qed.

Lemma StronglySorted_date_lt_NoDup periods :
  StronglySorted date_lt periods -> NoDup periods.
Proof.
  induction 1 as [|p periods _ IH Hall]; constructor; [|done].
  intros Hin. rewrite Forall_forall in Hall.
  by apply (date_lt_irrefl p), Hall.
Qed.

(** Rows on two days of one month: the counts by day have more entries
    than the counts by month. *)
Lemma period_counts_day_month rows out out' l1 l2 :
  l1 ∈ rows -> l2 ∈ rows ->
  calendar_month (log_timestamp l1) = calendar_month (log_timestamp l2) ->
  calendar_day (log_timestamp l1) <> calendar_day (log_timestamp l2) ->
  period_counts calendar_day rows out ->
  period_counts calendar_month rows out' ->
  (length out' < length out)%nat.
Proof.
  intros Hl1 Hl2 Hmonth Hday (pd & -> & Hsd & Hpd) (pm & -> & Hsm & Hpm).
  rewrite !length_fmap.
  pose (g := fun d : date => mkdate (d_year d) (d_month d) 1).
  assert (forall t, calendar_month t = g (calendar_day t)) as Hg by done.
  assert (calendar_day (log_timestamp l1) ∈ pd) as Hd1.
  { apply Hpd. by exists l1. }
  assert (calendar_day (log_timestamp l2) ∈ pd) as Hd2.
  { apply Hpd. by exists l2. }
  apply elem_of_Permutation in Hd1 as [pd' Hperm].
  rewrite Hperm in Hd2. apply elem_of_cons in Hd2 as [Hd2|Hd2]; [done|].
  rewrite Hperm. cbn [length].
  apply Nat.lt_succ_r. rewrite <-(length_fmap g pd').
  apply submseteq_length, NoDup_submseteq.
  { by apply StronglySorted_date_lt_NoDup. }
  intros p Hp. apply Hpm in Hp as (l & Hl & <-).
  assert (calendar_day (log_timestamp l) ∈ pd) as Hd.
  { apply Hpd. by exists l. }
  rewrite Hperm in Hd. rewrite Hg. apply elem_of_cons in Hd as [Hd|Hd].
  - rewrite Hd, <-!Hg, Hmonth, Hg. by apply list_elem_of_fmap_2.
  - by apply list_elem_of_fmap_2.
Qed.

Lemma period_counts_apart rows out l1 l2 :
  l1 ∈ rows -> l2 ∈ rows ->
  calendar_month (log_timestamp l1) = calendar_month (log_timestamp l2) ->
  calendar_day (log_timestamp l1) <> calendar_day (log_timestamp l2) ->
  ~ (period_counts calendar_day rows out /\
     period_counts calendar_month rows out).
Proof.
  intros Hl1 Hl2 Hmonth Hday [Hd Hm].
  pose proof (period_counts_day_month _ _ _ _ _ Hl1 Hl2 Hmonth Hday Hd Hm).
  lia.
Qed.


(** C2: with [group_by=severity] there is exactly one entry per severity
    present among the filtered rows, with the number of rows having it,
    in descending order of the counts; the counts add up to the number of
    filtered rows and no absent severity has an entry. *)
Theorem aggregated_by_severity request table :
  get (query_params request) "group_by" "date" = "severity" ->
  field_counts "severity" log_severity
    (qs_rows (filter_queryset request (get_queryset table)))
    (aggregated request table).
Proof.
  intros Hg. unfold aggregated. rewrite Hg. settle_decide.
  apply order_by_count_entries.
Qed.

(** C3: any [group_by] other than "date" and "severity" gives the answer
    [group_by=source] gives: the filtered rows counted per source, in
    descending order of the counts. *)
Theorem aggregated_unknown_group_by request table g :
  get (query_params request) "group_by" "date" = g ->
  g <> "date" -> g <> "severity" ->
  aggregated request table =
    aggregated (with_param "group_by" "source" request) table /\
  field_counts "source" log_source
    (qs_rows (filter_queryset request (get_queryset table)))
    (aggregated request table).
Proof.
  intros Hg H1 H2. subst g. split.
  - rewrite aggregated_source by done.
    rewrite (aggregated_source (with_param _ _ _)).
    + done.
    + simpl. by rewrite get_last.
    + simpl. by rewrite get_last.
  - rewrite aggregated_source by done. apply order_by_count_entries.
Qed.

(** C10: with [group_by=date] the rows are counted per calendar day when
    no [interval] is given and when the one given is "day"; any other
    value given, "week" and the empty string among them, counts them per
    calendar month, as "month" does.  When two of the rows lie on
    different days of one month, the answer is the count per day exactly
    when the interval is "day", and the count per month exactly when it
    is not. *)
Theorem aggregated_interval request table :
  get (query_params request) "group_by" "date" = "date" ->
  let rows := qs_rows (filter_queryset request (get_queryset table)) in
  ((forall v, ("interval", v) ∉ query_params request) ->
   period_counts calendar_day rows (aggregated request table)) /\
  (forall v, get (query_params request) "interval" "day" = v ->
   (v = "day" ->
    period_counts calendar_day rows (aggregated request table)) /\
   (v <> "day" ->
    period_counts calendar_month rows (aggregated request table) /\
    aggregated request table =
      aggregated (with_param "interval" "month" request) table)) /\
  (forall l1 l2, l1 ∈ rows -> l2 ∈ rows ->
   calendar_month (log_timestamp l1) = calendar_month (log_timestamp l2) ->
   calendar_day (log_timestamp l1) <> calendar_day (log_timestamp l2) ->
   (period_counts calendar_day rows (aggregated request table) <->
    get (query_params request) "interval" "day" = "day") /\
   (period_counts calendar_month rows (aggregated request table) <->
    get (query_params request) "interval" "day" <> "day")).
Proof.
  intros Hg rows. pose proof (aggregated_date request table Hg) as H.
  assert (get (query_params request) "interval" "day" = "day" ->
          period_counts calendar_day rows (aggregated request table)) as Hday.
  { intros Hv. rewrite Hv in H.
    eapply date_buckets_period; [|exact H]. done. }
  assert (get (query_params request) "interval" "day" <> "day" ->
          period_counts calendar_month rows (aggregated request table))
    as Hmonth.
  { intros Hv. rewrite decide_False in H by done.
    eapply date_buckets_period; [|exact H]. done. }
  split; [|split].
  - intros Habs. apply Hday. by apply get_absent.
  - intros v Hv. split; intros Hd.
    + apply Hday. by rewrite Hv.
    + split; [apply Hmonth; by rewrite Hv|].
      unfold aggregated; simpl.
      rewrite get_other by done. rewrite Hg, get_last, Hv.
      by settle_decide.
  - intros l1 l2 Hl1 Hl2 Hm Hd.
    pose proof (period_counts_apart rows (aggregated request table)
                  l1 l2 Hl1 Hl2 Hm Hd) as Hapart.
    destruct (decide (get (query_params request) "interval" "day" = "day"))
      as [Hv|Hv].
    + split; [by split|]. split; [|done].
      intros Hpm. destruct Hapart. split; [by apply Hday|done].
    + split; [|by split]. split; [|done].
      intros Hpd. destruct Hapart. split; [done|by apply Hmonth].
Qed.

(** *** The records of the specification's example *)

Example aggregated_example_day :
  aggregated (ex_request [("group_by", "date"); ("interval", "day")]) ex_table
  = [mkEntry "date" "2024-01-01" 2; mkEntry "date" "2024-01-02" 1].
Proof. vm_compute. reflexivity. Qed.

Example aggregated_example_month :
  aggregated (ex_request [("group_by", "date"); ("interval", "month")]) ex_table
  = [mkEntry "date" "2024-01-01" 3].
Proof. vm_compute. reflexivity. Qed.

Example aggregated_example_default :
  aggregated (ex_request []) ex_table
  = [mkEntry "date" "2024-01-01" 2; mkEntry "date" "2024-01-02" 1].
Proof. vm_compute. reflexivity. Qed.

Example aggregated_example_week :
  aggregated (ex_request [("interval", "week")]) ex_table
  = [mkEntry "date" "2024-01-01" 3].
Proof. vm_compute. reflexivity. Qed.

Example aggregated_example_empty_interval :
  aggregated (ex_request [("interval", EmptyString)]) ex_table
  = [mkEntry "date" "2024-01-01" 3].
Proof. vm_compute. reflexivity. Qed.

Example aggregated_example_severity :
  aggregated (ex_request [("group_by", "severity")]) ex_table
  = [mkEntry "severity" "ERROR" 2; mkEntry "severity" "INFO" 1].
Proof. vm_compute. reflexivity. Qed.

Example aggregated_example_foo :
  aggregated (ex_request [("group_by", "foo")]) ex_table
  = [mkEntry "source" "svc1" 2; mkEntry "source" "svc2" 1].
Proof. vm_compute. reflexivity. Qed.


Lemma aggregated_by_severity_witness :
  field_counts "severity" log_severity
    (qs_rows (filter_queryset (ex_request [("group_by", "severity")])
       (get_queryset ex_table)))
    (aggregated (ex_request [("group_by", "severity")]) ex_table).
Proof.
  apply (aggregated_by_severity (ex_request [("group_by", "severity")])
           ex_table).
  reflexivity.
Defined.

Lemma aggregated_unknown_group_by_witness :
  aggregated (ex_request [("group_by", "foo")]) ex_table =
    aggregated (with_param "group_by" "source"
                  (ex_request [("group_by", "foo")])) ex_table /\
  field_counts "source" log_source
    (qs_rows (filter_queryset (ex_request [("group_by", "foo")])
       (get_queryset ex_table)))
    (aggregated (ex_request [("group_by", "foo")]) ex_table).
Proof.
  apply (aggregated_unknown_group_by (ex_request [("group_by", "foo")])
           ex_table "foo").
  - reflexivity.
  - discriminate.
  - discriminate.
Defined.

Lemma aggregated_interval_witness :
  period_counts calendar_month
    (qs_rows (filter_queryset (ex_request [("interval", "week")])
       (get_queryset ex_table)))
    (aggregated (ex_request [("interval", "week")]) ex_table) /\
  aggregated (ex_request [("interval", "week")]) ex_table =
    aggregated (with_param "interval" "month"
                  (ex_request [("interval", "week")])) ex_table.
Proof.
  apply (proj1 (proj2 (aggregated_interval (ex_request [("interval", "week")])
                         ex_table eq_refl)) "week").
  - reflexivity.
  - discriminate.
Defined.

(** ** Text *)

Lemma append_nil_l s : EmptyString +:+ s = s.
Proof. reflexivity. Qed.

Lemma append_cons c s t : String c s +:+ t = String c (s +:+ t).
Proof. reflexivity. Qed.

Lemma append_nil_r s : s +:+ EmptyString = s.
Proof. induction s as [|c s IH]; [done|]. by rewrite append_cons, IH. Qed.

Lemma append_assoc s t u : (s +:+ t) +:+ u = s +:+ (t +:+ u).
Proof. induction s as [|c s IH]; [done|]. by rewrite !append_cons, IH. Qed.

Lemma lower_string_app s t :
  lower_string (s +:+ t) = lower_string s +:+ lower_string t.
Proof.
  induction s as [|c s IH]; [done|].
  rewrite append_cons. simpl. by rewrite IH, append_cons.
Qed.

(** A split of the folded text comes from a split of the text. *)
Lemma lower_string_split s a b :
  lower_string s = a +:+ b ->
  exists s1 s2, s = s1 +:+ s2 /\ lower_string s1 = a /\ lower_string s2 = b.
Proof.
  revert s. induction a as [|c a IH]; intros s Hs.
  - by exists EmptyString, s.
  - destruct s as [|c' s]; [done|].
    rewrite append_cons in Hs. simpl in Hs. injection Hs as Hc Hs.
    destruct (IH s Hs) as (s1 & s2 & -> & H1 & H2).
    exists (String c' s1), s2. simpl. by rewrite Hc, H1, H2.
Qed.

Lemma prefix_spec t s :
  String.prefix t s = true <-> exists post, s = t +:+ post.
Proof.
  revert s. induction t as [|a t IH]; intros s.
  - split; [by exists s | by destruct s].
  - destruct s as [|b s]; simpl.
    + split; [done | by intros [post ?]].
    + destruct (ascii_dec a b) as [->|Hne].
      * rewrite IH. split; intros [post Hp]; exists post.
        -- by rewrite append_cons, Hp.
        -- rewrite append_cons in Hp. congruence.
      * split; [done|]. intros [post Hp].
        rewrite append_cons in Hp. congruence.
Qed.

Lemma contains_spec t s :
  contains t s = true <-> exists pre post, s = pre +:+ t +:+ post.
Proof.
  induction s as [|c s IH].
  - change (contains t EmptyString)
      with (String.prefix t EmptyString || false).
    rewrite orb_false_r, prefix_spec. split.
    + intros [post Hp]. by exists EmptyString, post.
    + intros (pre & post & Hp). destruct pre; [by exists post | done].
  - change (contains t (String c s))
      with (String.prefix t (String c s) || contains t s).
    rewrite orb_true_iff, prefix_spec, IH. split.
    + intros [[post Hp]|(pre & post & Hp)].
      * by exists EmptyString, post.
      * exists (String c pre), post. by rewrite append_cons, Hp.
    + intros (pre & post & Hp). destruct pre as [|c' pre].
      * left. by exists post.
      * right. exists pre, post. rewrite append_cons in Hp. congruence.
Qed.

(** ** The filter engine *)

Lemma icontains_spec value term :
  icontains value term = true <-> occurs_ci term value.
Proof.
  unfold icontains, occurs_ci. rewrite contains_spec. split.
  - intros (a & b & Hs).
    apply lower_string_split in Hs as (pre & rest & -> & <- & Hrest).
    apply lower_string_split in Hrest as (mid & post & -> & Hmid & <-).
    by exists pre, mid, post.
  - intros (pre & mid & post & -> & Hmid).
    exists (lower_string pre), (lower_string post).
    by rewrite !lower_string_app, Hmid.
Qed.

Lemma term_matches_spec term l :
  term_matches term l = true <->
  occurs_ci term (log_message l) \/ occurs_ci term (log_source l).
Proof.
  unfold term_matches, search_fields. simpl.
  rewrite orb_false_r, orb_true_iff, !icontains_spec. done.
Qed.

Lemma elem_of_evaluate qs l : l ∈ evaluate qs <-> l ∈ qs_rows qs.
Proof. unfold evaluate. by rewrite merge_sort_Permutation. Qed.

Lemma elem_of_filter_exact f value qs l :
  l ∈ qs_rows (filter_exact f value qs) <->
  l ∈ qs_rows qs /\ (value = EmptyString \/ f l = value).
Proof.
  unfold filter_exact. destruct (decide (value = EmptyString)) as [->|Hne].
  - tauto.
  - simpl. rewrite list_elem_of_filter. tauto.
Qed.

Lemma elem_of_filter_gte value qs l :
  l ∈ qs_rows (filter_gte value qs) <->
  l ∈ qs_rows qs /\ (forall a, value = Some a -> dt_le a (log_timestamp l)).
Proof.
  destruct value as [a|]; simpl.
  - rewrite list_elem_of_filter. split.
    + intros [? ?]. split; [done|]. by intros ? [= <-].
    + intros [? Ha]. split; [by apply Ha | done].
  - split; [|tauto]. intros ?. split; [done | by intros ? [=]].
Qed.

Lemma elem_of_filter_lte value qs l :
  l ∈ qs_rows (filter_lte value qs) <->
  l ∈ qs_rows qs /\ (forall b, value = Some b -> dt_le (log_timestamp l) b).
Proof.
  destruct value as [b|]; simpl.
  - rewrite list_elem_of_filter. split.
    + intros [? ?]. split; [done|]. by intros ? [= <-].
    + intros [? Hb]. split; [by apply Hb | done].
  - split; [|tauto]. intros ?. split; [done | by intros ? [=]].
Qed.

Lemma elem_of_SearchFilter terms qs l :
  l ∈ qs_rows (SearchFilter terms qs) <->
  l ∈ qs_rows qs /\
  forall term, term ∈ terms ->
    occurs_ci term (log_message l) \/ occurs_ci term (log_source l).
Proof.
  assert (forallb (fun t => term_matches t l) terms = true <->
          forall term, term ∈ terms ->
            occurs_ci term (log_message l) \/ occurs_ci term (log_source l))
    as Hall.
  { rewrite forallb_forall. split; intros H t Ht.
    - apply term_matches_spec, H. by apply list_elem_of_In.
    - apply term_matches_spec, H. by apply list_elem_of_In. }
  destruct terms as [|t terms].
  - simpl. split; [|tauto]. intros ?. split; [done|].
    intros ? Hin. by apply not_elem_of_nil in Hin.
  - unfold SearchFilter, qs_filter; simpl qs_rows.
    rewrite list_elem_of_filter, Hall. tauto.
Qed.

Lemma OrderingFilter_rows o qs : qs_rows (OrderingFilter o qs) = qs_rows qs.
Proof. by destruct o. Qed.

(** What the filtered rows are: the rows of the table that meet every
    active constraint. *)
Lemma elem_of_filter_queryset request table l :
  l ∈ qs_rows (filter_queryset request (get_queryset table)) <->
  l ∈ table /\ passes_fields (filter_params request) l /\
  passes_dates (filter_params request) l /\
  passes_search (filter_params request) l.
Proof.
  unfold filter_queryset, filter_backends, LogFilter. simpl.
  rewrite OrderingFilter_rows, elem_of_SearchFilter, elem_of_filter_lte,
    elem_of_filter_gte, !elem_of_filter_exact.
  unfold passes_fields, passes_dates, passes_search. simpl. tauto.
Qed.

Lemma elem_of_filtered request table l :
  l ∈ filtered request table <->
  l ∈ table /\ passes_fields (filter_params request) l /\
  passes_dates (filter_params request) l /\
  passes_search (filter_params request) l.
Proof.
  unfold filtered. rewrite elem_of_evaluate. apply elem_of_filter_queryset.
Qed.

Lemma raw_filtered request table :
  raw request table = LogSerializer <$> filtered request table.
Proof. reflexivity. Qed.

(** A search of several terms: every term has to occur somewhere. *)
Lemma search_every_term request table l :
  l ∈ filtered request table <->
  l ∈ table /\
  (forall term, term ∈ q_search (filter_params request) ->
     occurs_ci term (log_message l) \/ occurs_ci term (log_source l)) /\
  passes_fields (filter_params request) l /\
  passes_dates (filter_params request) l.
Proof.
  rewrite elem_of_filtered. unfold passes_search. split.
  - intros (? & ? & ? & ?). auto.
  - intros (? & ? & ? & ?). auto.
Qed.

(** C6: with [date_from=a] and [date_to=b] every row of the filtered
    listing has [a <= timestamp <= b], the comparison running over every
    field of the date-time down to the microsecond; a row outside the
    range is left out, and a row that meets the other constraints is
    listed when its timestamp is in the range, a timestamp equal to a
    bound included. *)
Theorem date_range_inclusive request table a b :
  q_date_from (filter_params request) = Some a ->
  q_date_to (filter_params request) = Some b ->
  raw request table = LogSerializer <$> filtered request table /\
  (forall l, l ∈ filtered request table ->
     dt_le a (log_timestamp l) /\ dt_le (log_timestamp l) b) /\
  (forall l, ~ (dt_le a (log_timestamp l) /\ dt_le (log_timestamp l) b) ->
     l ∉ filtered request table) /\
  (forall l, l ∈ table ->
     passes_fields (filter_params request) l ->
     passes_search (filter_params request) l ->
     dt_le a (log_timestamp l) -> dt_le (log_timestamp l) b ->
     l ∈ filtered request table) /\
  (forall l, l ∈ table ->
     passes_fields (filter_params request) l ->
     passes_search (filter_params request) l ->
     dt_le a b -> log_timestamp l = a \/ log_timestamp l = b ->
     l ∈ filtered request table).
Proof.
  intros Ha Hb.
  assert (forall l, passes_dates (filter_params request) l <->
            dt_le a (log_timestamp l) /\ dt_le (log_timestamp l) b) as Hd.
  { intros l. unfold passes_dates. rewrite Ha, Hb. split.
    - intros [H1 H2]. split; [by apply H1 | by apply H2].
    - intros [H1 H2]. split; by intros ? [= <-]. }
  split; [done|]. split; [|split; [|split]].
  - intros l Hl. apply elem_of_filtered in Hl as (_ & _ & Hl & _).
    by apply Hd.
  - intros l Hout Hl. apply Hout.
    apply elem_of_filtered in Hl as (_ & _ & Hl & _). by apply Hd.
  - intros l Hl Hf Hs H1 H2. apply elem_of_filtered.
    split; [done|]. split; [done|]. split; [|done]. by apply Hd.
  - intros l Hl Hf Hs Hab Hts. apply elem_of_filtered.
    split; [done|]. split; [done|]. split; [|done]. apply Hd.
    destruct Hts as [-> | ->]; split; done.
Qed.

Lemma N_of_ascii_bound c : N_of_ascii c < 256.
Proof. apply N_ascii_bounded. Qed.

Lemma N_of_ascii_inj a b : N_of_ascii a = N_of_ascii b -> a = b.
Proof.
  intros H. rewrite <-(ascii_N_embedding a), <-(ascii_N_embedding b).
  by rewrite H.
Qed.

Lemma lower_spec c :
  (capital c -> N_of_ascii (lower c) = N_of_ascii c + 32) /\
  (~ capital c -> lower c = c).
Proof.
  unfold lower, capital.
  destruct (N.leb_spec 65 (N_of_ascii c)), (N.leb_spec (N_of_ascii c) 90);
    simpl; (split; [|try done; lia]); try lia.
  intros _. apply N_ascii_embedding. lia.
Qed.

Lemma lower_same_letter a b : lower a = lower b <-> same_letter a b.
Proof.
  destruct (lower_spec a) as [Ha Ha'], (lower_spec b) as [Hb Hb'].
  unfold same_letter.
  destruct (decide (capital a)) as [Ca|Ca], (decide (capital b)) as [Cb|Cb].
  - specialize (Ha Ca). specialize (Hb Cb). split.
    + intros Heq. left. apply N_of_ascii_inj. rewrite Heq in Ha. lia.
    + intros [->|[[_ H]|[_ H]]]; [done| |]; unfold capital in *; lia.
  - specialize (Ha Ca). rewrite (Hb' Cb). split.
    + intros <-. right. left. by split.
    + intros [->|[[_ H]|[H _]]]; [done| |done].
      apply N_of_ascii_inj. lia.
  - specialize (Hb Cb). rewrite (Ha' Ca). split.
    + intros Heq. right. right. split; [done|]. by rewrite Heq.
    + intros [->|[[H _]|[_ H]]]; [done|done|].
      apply N_of_ascii_inj. lia.
  - rewrite (Ha' Ca), (Hb' Cb). split; [by left|].
    intros [->|[[H _]|[H _]]]; done.
Qed.

Lemma lower_string_same_text s t :
  lower_string s = lower_string t <-> same_text s t.
Proof.
  revert t. induction s as [|a s IH]; intros [|b t]; simpl;
    [done|done|done|].
  rewrite <-IH, <-lower_same_letter. split; [by intros [= -> ->]|].
  by intros [-> ->].
Qed.





(** *** Examples over the three records *)

(** Both bounds met exactly: both rows are listed. *)
Example date_range_example_bounds :
  log_id <$> filtered (ex_range (mkdatetime 2024 1 1 10 0 0 0)
                                (mkdatetime 2024 1 1 12 0 0 0)) ex_table
  = [2; 1].
Proof. vm_compute. reflexivity. Qed.

(** One microsecond short of the second row: it is left out. *)
Example date_range_example_precision :
  log_id <$> filtered (ex_range (mkdatetime 2024 1 1 10 0 0 0)
                                (mkdatetime 2024 1 1 11 59 59 999999)) ex_table
  = [1].
Proof. vm_compute. reflexivity. Qed.

Example severity_filter_example :
  log_id <$> filtered
    (mkRequest [] (mkFilterQuery "ERROR" EmptyString None None [] []) 1)
    ex_table
  = [3; 1].
Proof. vm_compute. reflexivity. Qed.

Example search_example_source :
  log_id <$> filtered (ex_search ["SVC2"]) ex_table = [2].
Proof. vm_compute. reflexivity. Qed.

Example search_example_message :
  log_id <$> filtered (ex_search ["ERR"]) ex_table = [3; 1].
Proof. vm_compute. reflexivity. Qed.

Example search_example_neither :
  log_id <$> filtered (ex_search ["disk"]) ex_table = [].
Proof. vm_compute. reflexivity. Qed.

Lemma date_range_inclusive_witness :
  let request := ex_range (mkdatetime 2024 1 1 10 0 0 0)
                          (mkdatetime 2024 1 1 12 0 0 0) in
  let a := mkdatetime 2024 1 1 10 0 0 0 in
  let b := mkdatetime 2024 1 1 12 0 0 0 in
  raw request ex_table = LogSerializer <$> filtered request ex_table /\
  (forall l, l ∈ filtered request ex_table ->
     dt_le a (log_timestamp l) /\ dt_le (log_timestamp l) b) /\
  (forall l, ~ (dt_le a (log_timestamp l) /\ dt_le (log_timestamp l) b) ->
     l ∉ filtered request ex_table) /\
  (forall l, l ∈ ex_table ->
     passes_fields (filter_params request) l ->
     passes_search (filter_params request) l ->
     dt_le a (log_timestamp l) -> dt_le (log_timestamp l) b ->
     l ∈ filtered request ex_table) /\
  (forall l, l ∈ ex_table ->
     passes_fields (filter_params request) l ->
     passes_search (filter_params request) l ->
     dt_le a b -> log_timestamp l = a \/ log_timestamp l = b ->
     l ∈ filtered request ex_table).
Proof.
  intros request a b.
  apply (date_range_inclusive request ex_table a b); reflexivity.
Defined.

(** ** Filter preferences *)

Lemma fmap_NoDup_inj {A B} (f : A -> B) (l : list A) x y :
  NoDup (f <$> l) -> x ∈ l -> y ∈ l -> f x = f y -> x = y.
Proof.
  induction l as [|z l IH]; intros Hnd Hx Hy Hf.
  - by apply not_elem_of_nil in Hx.
  - rewrite fmap_cons in Hnd. apply NoDup_cons in Hnd as [Hz Hnd].
    apply elem_of_cons in Hx as [->|Hx]; apply elem_of_cons in Hy as [->|Hy].
    + done.
    + exfalso. apply Hz. rewrite Hf. by apply list_elem_of_fmap_2.
    + exfalso. apply Hz. rewrite <-Hf. by apply list_elem_of_fmap_2.
    + by apply IH.
Qed.

Lemma elem_of_pref_list caller table x :
  x ∈ pref_list caller table <-> x ∈ table /\ pref_user x = caller.
Proof.
  unfold pref_list, pref_get_queryset.
  rewrite merge_sort_Permutation, list_elem_of_filter. tauto.
Qed.

Lemma get_object_Some caller pk table x :
  get_object caller pk table = Some x ->
  x ∈ table /\ pref_user x = caller /\ pref_id x = pk.
Proof.
  unfold get_object, pref_get_queryset. intros Hx.
  apply head_Some_elem_of in Hx.
  apply list_elem_of_filter in Hx as [Hid Hx].
  apply list_elem_of_filter in Hx as [Hu Hx]. done.
Qed.

(** The lookup of a row of another user finds nothing. *)
Lemma get_object_other caller table p :
  NoDup (pref_id <$> table) -> p ∈ table -> pref_user p <> caller ->
  get_object caller (pref_id p) table = None.
Proof.
  intros Hnd Hp Hu.
  destruct (get_object caller (pref_id p) table) as [x|] eqn:E; [|done].
  apply get_object_Some in E as (Hx & Hxu & Hxid).
  assert (x = p) by (by apply (fmap_NoDup_inj pref_id table)).
  by subst.
Qed.

Lemma next_id_above table p : p ∈ table -> pref_id p < next_id table.
Proof.
  unfold next_id. induction table as [|q table IH]; intros Hp.
  - by apply not_elem_of_nil in Hp.
  - rewrite fmap_cons.
    change (foldr N.max 0 (pref_id q :: (pref_id <$> table)))
      with (N.max (pref_id q) (foldr N.max 0 (pref_id <$> table))).
    apply elem_of_cons in Hp as [->|Hp]; [lia|].
    specialize (IH Hp). lia.
Qed.

(** C8: a caller's list holds only rows the caller owns, so never a row
    of another user, whatever the names; looking up, updating or deleting
    another user's row by its id ends in 404 and leaves the table as it
    was; and the row an action does reach is the caller's own. *)
Theorem preferences_scoped_to_caller table caller other p :
  NoDup (pref_id <$> table) ->
  p ∈ table -> pref_user p = other -> other <> caller ->
  (forall x, x ∈ pref_list caller table <->
     x ∈ table /\ pref_user x = caller) /\
  (p ∉ pref_list caller table) /\
  pref_retrieve caller (pref_id p) table = Http404 /\
  (forall data now,
     pref_update caller (pref_id p) data now table = (Http404, table)) /\
  pref_destroy caller (pref_id p) table = (Http404, table) /\
  (forall pk x, pref_retrieve caller pk table = Ok x ->
     pref_user x = caller) /\
  (forall pk data now x table',
     pref_update caller pk data now table = (Ok x, table') ->
     pref_user x = caller /\ p ∈ table') /\
  (forall pk table',
     pref_destroy caller pk table = (Ok tt, table') -> p ∈ table').
Proof.
  intros Hnd Hp Hu Hne. subst other.
  pose proof (get_object_other caller table p Hnd Hp Hne) as Hget.
  split; [apply elem_of_pref_list|].
  split; [rewrite elem_of_pref_list; tauto|].
  split; [unfold pref_retrieve; by rewrite Hget|].
  split; [intros; unfold pref_update; by rewrite Hget|].
  split; [unfold pref_destroy; by rewrite Hget|].
  split; [|split].
  - intros pk x. unfold pref_retrieve.
    destruct (get_object caller pk table) as [y|] eqn:E; [|done].
    intros [= <-]. by apply get_object_Some in E as (_ & ? & _).
  - intros pk data now x table'. unfold pref_update.
    destruct (get_object caller pk table) as [y|] eqn:E; [|done].
    apply get_object_Some in E as (Hy & Hyu & Hyid).
    case_decide; [done|]. intros [= <- <-]. split; [done|].
    apply list_elem_of_fmap. exists p. split; [|done].
    rewrite decide_False; [done|]. intros Hid.
    apply Hne. rewrite <-Hyu. f_equal.
    by apply (fmap_NoDup_inj pref_id table).
  - intros pk table'. unfold pref_destroy.
    destruct (get_object caller pk table) as [y|] eqn:E; [|done].
    apply get_object_Some in E as (Hy & Hyu & Hyid).
    intros [= <-]. apply list_elem_of_filter. split; [|done].
    intros Hid. apply Hne. rewrite <-Hyu. f_equal.
    by apply (fmap_NoDup_inj pref_id table).
Qed.

(** C9: creating a preference under a name the caller already uses ends
    in the database's uniqueness error and leaves the table as it was; a
    user who has no preference of that name creates one under it, whoever
    else uses the name. *)
Theorem create_unique_per_user table caller data now p :
  p ∈ table -> pref_user p = caller -> pref_name p = v_name data ->
  perform_create caller data now table = (IntegrityError, table) /\
  (forall other, other <> caller ->
     (forall q, q ∈ table -> pref_user q = other ->
        pref_name q <> v_name data) ->
     exists row,
       perform_create other data now table = (Ok row, table ++ [row]) /\
       pref_user row = other /\ pref_name row = v_name data /\
       (pref_id row ∉ pref_id <$> table)).
Proof.
  intros Hp Hu Hn. split.
  - unfold perform_create. rewrite decide_True; [done|].
    apply Exists_exists. exists p. split; [done|]. simpl.
    split; [|done]. pose proof (next_id_above table p Hp). lia.
  - intros other Hne Hfree. eexists. unfold perform_create.
    rewrite decide_False.
    + split; [done|]. simpl. split; [done|]. split; [done|].
      intros Hin. apply list_elem_of_fmap in Hin as (q & Hq & Hin).
      pose proof (next_id_above table q Hin). lia.
    + intros Hex. apply Exists_exists in Hex as (q & Hq & _ & Hqu & Hqn).
      simpl in *. by apply (Hfree q).
Qed.

(** The table stays well formed under creation. *)
Lemma perform_create_table_ok caller data now table :
  table_ok table -> table_ok (perform_create caller data now table).2.
Proof.
  intros [Hnd Huniq]. unfold perform_create.
  case_decide as Hv; [done|]. simpl. split.
  - rewrite fmap_app. apply NoDup_app. split; [done|]. split.
    + intros i Hi Hi'. simpl in Hi'. apply list_elem_of_singleton in Hi'.
      apply list_elem_of_fmap in Hi as (q & -> & Hq).
      pose proof (next_id_above table q Hq). lia.
    + simpl. apply NoDup_singleton.
  - intros x y Hx Hy Hxy.
    apply elem_of_app in Hx as [Hx|Hx]; apply elem_of_app in Hy as [Hy|Hy].
    + by apply Huniq.
    + apply list_elem_of_singleton in Hy as ->. exfalso. apply Hv.
      apply Exists_exists. exists x. split; [done|]. split; [|done].
      simpl. pose proof (next_id_above table x Hx). lia.
    + apply list_elem_of_singleton in Hx as ->. exfalso. apply Hv.
      apply Exists_exists. exists y. split; [done|]. split.
      * simpl. pose proof (next_id_above table y Hy). lia.
      * destruct Hxy. split; done.
    + apply list_elem_of_singleton in Hx as ->.
      by apply list_elem_of_singleton in Hy as ->.
Qed.

(** A second preference under the name of the first one is refused. *)
Lemma perform_create_twice caller data now now' table row table' :
  perform_create caller data now table = (Ok row, table') ->
  perform_create caller data now' table' = (IntegrityError, table').
Proof.
  unfold perform_create at 1. case_decide; [done|]. intros [= <- <-].
  remember (mkPref (next_id table) caller (v_name data) (v_severity data)
              (v_source data) (v_date_from data) (v_date_to data) now now)
    as row eqn:Hr.
  assert (row ∈ table ++ [row]) as Hrow by (apply elem_of_app; right; left).
  unfold perform_create. rewrite decide_True; [done|].
  apply Exists_exists. exists row. split; [done|]. split.
  - intros Heq. pose proof (next_id_above _ _ Hrow) as Hlt.
    simpl in Heq. rewrite Heq in Hlt. lia.
  - by subst row.
Qed.

Lemma pref_destroy_table_ok caller pk table :
  table_ok table -> table_ok (pref_destroy caller pk table).2.
Proof.
  intros [Hnd Huniq]. unfold pref_destroy.
  destruct (get_object caller pk table) as [p|]; [|done]. simpl. split.
  - apply (NoDup_fmap_2_strong pref_id).
    + intros x y Hx Hy. apply list_elem_of_filter in Hx as [_ Hx].
      apply list_elem_of_filter in Hy as [_ Hy].
      by apply (fmap_NoDup_inj pref_id table).
    + apply NoDup_filter. by apply NoDup_fmap_1 in Hnd.
  - intros x y Hx Hy. apply list_elem_of_filter in Hx as [_ Hx].
    apply list_elem_of_filter in Hy as [_ Hy]. by apply Huniq.
Qed.

Lemma pref_update_table_ok caller pk data now table :
  table_ok table -> table_ok (pref_update caller pk data now table).2.
Proof.
  intros [Hnd Huniq]. unfold pref_update.
  destruct (get_object caller pk table) as [p|] eqn:E; [|done].
  apply get_object_Some in E as (Hp & _ & _).
  case_decide as Hv; [done|]. simpl.
  set (row := mkPref (pref_id p) (pref_user p) (v_name data) (v_severity data)
                (v_source data) (v_date_from data) (v_date_to data)
                (pref_created_at p) now) in *.
  set (f := fun q => if decide (pref_id q = pref_id p) then row else q).
  assert (forall q, pref_id (f q) = pref_id q) as Hid.
  { intros q. unfold f. by case_decide. }
  assert (forall x, x ∈ f <$> table ->
            x = row \/ (x ∈ table /\ pref_id x <> pref_id row)) as Hcases.
  { intros x Hx. apply list_elem_of_fmap in Hx as (q & -> & Hq).
    unfold f. case_decide; [by left | by right]. }
  split.
  - rewrite <-list_fmap_compose.
    replace (pref_id ∘ f <$> table) with (pref_id <$> table); [done|].
    apply list_fmap_ext. intros i q _. exact (eq_sym (Hid q)).
  - intros x y Hx Hy Hxy.
    destruct (Hcases x Hx) as [-> | [Hx' Hxid]];
      destruct (Hcases y Hy) as [-> | [Hy' Hyid]].
    + done.
    + exfalso. apply Hv. apply Exists_exists. exists y.
      split; [done|]. split; [done|]. destruct Hxy. split; done.
    + exfalso. apply Hv. apply Exists_exists. by exists x.
    + by apply Huniq.
Qed.

(** *** Two users with a preference of the same name *)

Example pref_list_example : pref_id <$> pref_list 1 ex_prefs = [3; 1].
Proof. vm_compute. reflexivity. Qed.

Example pref_retrieve_example_own :
  pref_name <$> (match pref_retrieve 1 3 ex_prefs with
                 | Ok p => Some p | _ => None end) = Some "recent".
Proof. vm_compute. reflexivity. Qed.

Example pref_retrieve_example_other : pref_retrieve 1 2 ex_prefs = Http404.
Proof. vm_compute. reflexivity. Qed.

Example perform_create_example_duplicate :
  perform_create 1 ex_data ex_now ex_prefs = (IntegrityError, ex_prefs).
Proof. vm_compute. reflexivity. Qed.

Example perform_create_example_other_user :
  perform_create 3 ex_data ex_now ex_prefs =
    (Ok (mkPref 4 3 "errors" "CRITICAL" EmptyString None None ex_now ex_now),
     ex_prefs ++
       [mkPref 4 3 "errors" "CRITICAL" EmptyString None None ex_now ex_now]).
Proof. vm_compute. reflexivity. Qed.

Lemma preferences_scoped_to_caller_witness :
  (forall x, x ∈ pref_list 1 ex_prefs <-> x ∈ ex_prefs /\ pref_user x = 1) /\
  (ex_other_pref ∉ pref_list 1 ex_prefs) /\
  pref_retrieve 1 (pref_id ex_other_pref) ex_prefs = Http404 /\
  (forall data now,
     pref_update 1 (pref_id ex_other_pref) data now ex_prefs =
       (Http404, ex_prefs)) /\
  pref_destroy 1 (pref_id ex_other_pref) ex_prefs = (Http404, ex_prefs) /\
  (forall pk x, pref_retrieve 1 pk ex_prefs = Ok x -> pref_user x = 1) /\
  (forall pk data now x table',
     pref_update 1 pk data now ex_prefs = (Ok x, table') ->
     pref_user x = 1 /\ ex_other_pref ∈ table') /\
  (forall pk table',
     pref_destroy 1 pk ex_prefs = (Ok tt, table') -> ex_other_pref ∈ table').
Proof.
  apply (preferences_scoped_to_caller ex_prefs 1 2 ex_other_pref).
  - apply (bool_decide_unpack _). vm_compute. exact I.
  - apply (bool_decide_unpack _). vm_compute. exact I.
  - reflexivity.
  - discriminate.
Defined.

Lemma create_unique_per_user_witness :
  perform_create 1 ex_data ex_now ex_prefs = (IntegrityError, ex_prefs) /\
  (forall other, other <> 1 ->
     (forall q, q ∈ ex_prefs -> pref_user q = other ->
        pref_name q <> v_name ex_data) ->
     exists row,
       perform_create other ex_data ex_now ex_prefs =
         (Ok row, ex_prefs ++ [row]) /\
       pref_user row = other /\ pref_name row = v_name ex_data /\
       (pref_id row ∉ pref_id <$> ex_prefs)).
Proof.
  apply (create_unique_per_user ex_prefs 1 ex_data ex_now
           (mkPref 1 1 "errors" "ERROR" EmptyString None None
              (mkdatetime 2024 1 1 8 0 0 0) (mkdatetime 2024 1 1 8 0 0 0))).
  - apply (bool_decide_unpack _). vm_compute. exact I.
  - reflexivity.
  - reflexivity.
Defined.

(** ** Writing and reading CSV *)

Lemma join_fields_tail x row rest :
  join delimiter (write_field <$> (x :: row)) +:+ rest =
  write_field x +:+ fields_tail row rest.
Proof.
  revert x. induction row as [|y row IH]; intros x; [done|].
  change (join delimiter (write_field <$> x :: y :: row))
    with (write_field x +:+
          String delimiter (join delimiter (write_field <$> (y :: row)))).
  rewrite append_assoc, append_cons, IH. done.
Qed.

Lemma reader_go_step r c rest :
  reader_go r (String c rest) =
  match parse_process_char r c with
  | None => None
  | Some r1 =>
      if line_ends c rest then
        if decide (state (parse_process_eol r1) = START_RECORD)
        then cons (fields (parse_process_eol r1)) <$> reader_go new_reader rest
        else reader_go (parse_process_eol r1) rest
      else reader_go r1 rest
  end.
Proof. reflexivity. Qed.

Lemma special_false c :
  special c = false ->
  c <> delimiter /\ c <> quotechar /\ is_newline c = false.
Proof.
  unfold special, is_newline. rewrite !orb_false_iff.
  intros [[[H1 H2] H3] H4].
  apply bool_decide_eq_false in H1, H2.
  rewrite H3, H4. done.
Qed.

Lemma line_ends_inside c d rest :
  is_newline c = false -> line_ends c (String d rest) = false.
Proof.
  unfold is_newline, line_ends. rewrite orb_false_iff.
  intros [-> ->]. done.
Qed.

Lemma start_field_quote r :
  start_field r quotechar = mkReader IN_QUOTED_FIELD (fields r) (field r).
Proof. reflexivity. Qed.

Lemma start_field_delimiter r :
  start_field r delimiter = parse_save_field r START_FIELD.
Proof. reflexivity. Qed.

Lemma start_field_plain r c :
  special c = false -> start_field r c = parse_add_char r c IN_FIELD.
Proof.
  intros Hc. apply special_false in Hc as (Hd & Hq & Hn).
  unfold start_field. by rewrite Hn, !decide_False.
Qed.

(** A character of an unquoted field, past the first one. *)
Lemma read_plain_char fs f c d rest :
  special c = false ->
  reader_go (mkReader IN_FIELD fs f) (String c (String d rest)) =
  reader_go (mkReader IN_FIELD fs (f +:+ char c)) (String d rest).
Proof.
  intros Hc. apply special_false in Hc as (Hd & Hq & Hn).
  rewrite reader_go_step. unfold parse_process_char. simpl state.
  rewrite Hn, decide_False by done. by rewrite line_ends_inside.
Qed.

Lemma read_plain fs f s d rest :
  has_special s = false ->
  reader_go (mkReader IN_FIELD fs f) (s +:+ String d rest) =
  reader_go (mkReader IN_FIELD fs (f +:+ s)) (String d rest).
Proof.
  revert f. induction s as [|c s IH]; intros f Hs.
  - by rewrite append_nil_l, append_nil_r.
  - simpl in Hs. apply orb_false_iff in Hs as [Hc Hs].
    rewrite append_cons.
    destruct s as [|c' s].
    + rewrite append_nil_l. by apply read_plain_char.
    + rewrite append_cons, read_plain_char by done.
      rewrite <-append_cons, IH by done.
      by rewrite append_assoc.
Qed.

(** A character inside quotes that is not a quote, line ends included. *)
Lemma read_quoted_char fs f c d rest :
  c <> quotechar ->
  reader_go (mkReader IN_QUOTED_FIELD fs f) (String c (String d rest)) =
  reader_go (mkReader IN_QUOTED_FIELD fs (f +:+ char c)) (String d rest).
Proof.
  intros Hc. rewrite reader_go_step. unfold parse_process_char. simpl state.
  rewrite (decide_False (P := c = quotechar)) by done.
  by destruct (line_ends c (String d rest)).
Qed.

(** A doubled quote inside quotes. *)
Lemma read_doubled_quote fs f d rest :
  reader_go (mkReader IN_QUOTED_FIELD fs f)
    (String quotechar (String quotechar (String d rest))) =
  reader_go (mkReader IN_QUOTED_FIELD fs (f +:+ char quotechar))
    (String d rest).
Proof.
  rewrite reader_go_step. unfold parse_process_char. simpl state.
  rewrite (decide_True (P := quotechar = quotechar)) by done.
  rewrite line_ends_inside by done.
  rewrite reader_go_step. unfold parse_process_char. simpl state.
  rewrite (decide_True (P := quotechar = quotechar)) by done.
  by rewrite line_ends_inside.
Qed.

Lemma double_quotes_nonempty s d rest :
  exists c t, double_quotes s +:+ String d rest = String c t.
Proof. destruct s as [|c s]; simpl; [|case_decide]; eauto. Qed.

(** The body of a quoted field up to its closing quote. *)
Lemma read_quoted fs f s d rest :
  d <> quotechar ->
  reader_go (mkReader IN_QUOTED_FIELD fs f)
    (double_quotes s +:+ String quotechar (String d rest)) =
  reader_go (mkReader QUOTE_IN_QUOTED_FIELD fs (f +:+ s)) (String d rest).
Proof.
  intros Hd. revert f. induction s as [|c s IH]; intros f.
  - rewrite append_nil_l, append_nil_r.
    rewrite reader_go_step. unfold parse_process_char. simpl state.
    rewrite (decide_True (P := quotechar = quotechar)) by done.
    by rewrite line_ends_inside.
  - destruct (double_quotes_nonempty s quotechar (String d rest))
      as (c' & t & Ht).
    simpl double_quotes. destruct (decide (c = quotechar)) as [->|Hc].
    + rewrite !append_cons, Ht, read_doubled_quote, <-Ht, IH.
      by rewrite append_assoc.
    + rewrite !append_cons, Ht, read_quoted_char, <-Ht, IH by done.
      by rewrite append_assoc.
Qed.

(** A whole field, read from the start of a field up to the delimiter or
    the carriage return behind it. *)
Lemma read_field fs x d rest :
  d = delimiter \/ d = CR ->
  reader_go (mkReader START_FIELD fs EmptyString)
    (write_field x +:+ String d rest) =
  reader_go (mkReader (after_field x) fs x) (String d rest).
Proof.
  intros Hd. unfold write_field, after_field.
  destruct (has_special x) eqn:Hx.
  - unfold quoted. rewrite append_cons, append_assoc.
    change (char quotechar +:+ String d rest)
      with (String quotechar (String d rest)).
    destruct (double_quotes_nonempty x quotechar (String d rest))
      as (c' & t & Ht).
    rewrite reader_go_step. unfold parse_process_char. simpl state.
    rewrite start_field_quote. simpl fields. simpl field.
    rewrite Ht, line_ends_inside, <-Ht by done.
    rewrite read_quoted; [done|]. by destruct Hd as [-> | ->].
  - destruct x as [|c x]; [done|].
    simpl in Hx. apply orb_false_iff in Hx as [Hc Hx].
    pose proof (special_false c Hc) as (Hcd & Hcq & Hcn).
    rewrite append_cons.
    assert (exists c' t, x +:+ String d rest = String c' t) as (c' & t & Ht).
    { destruct x; simpl; eauto. }
    rewrite reader_go_step. unfold parse_process_char. simpl state.
    rewrite start_field_plain by done.
    rewrite Ht, line_ends_inside, <-Ht by done.
    unfold parse_add_char. simpl fields. simpl field.
    rewrite append_nil_l. by rewrite read_plain.
Qed.

Lemma fields_tail_head row tail :
  exists d rest,
    fields_tail row (CRLF +:+ tail) = String d rest /\
    (d = delimiter \/ d = CR).
Proof. destruct row as [|x row]; simpl; eauto. Qed.

Lemma write_field_nonempty x d rest :
  exists c t, write_field x +:+ String d rest = String c t.
Proof.
  unfold write_field, quoted.
  destruct (has_special x); [|destruct x]; simpl; eauto.
Qed.

(** The end of a row: carriage return, line feed, and the record is
    complete. *)
Lemma read_row_end st fs f tail :
  st = START_FIELD \/ st = IN_FIELD \/ st = QUOTE_IN_QUOTED_FIELD ->
  reader_go (mkReader st fs f) (CRLF +:+ tail) =
  cons (fs ++ [f]) <$> reader_go new_reader tail.
Proof.
  intros [-> | [-> | ->]]; destruct tail; reflexivity.
Qed.

Lemma read_delimiter st fs f d rest :
  st = START_FIELD \/ st = IN_FIELD \/ st = QUOTE_IN_QUOTED_FIELD ->
  reader_go (mkReader st fs f) (String delimiter (String d rest)) =
  reader_go (mkReader START_FIELD (fs ++ [f]) EmptyString) (String d rest).
Proof.
  intros [-> | [-> | ->]]; rewrite reader_go_step;
    by rewrite line_ends_inside.
Qed.

Lemma after_field_cases x :
  after_field x = START_FIELD \/ after_field x = IN_FIELD \/
  after_field x = QUOTE_IN_QUOTED_FIELD.
Proof. unfold after_field. destruct (has_special x), x; auto. Qed.

(** The fields of a row behind the first one. *)
Lemma read_fields_tail st fs f row tail :
  st = START_FIELD \/ st = IN_FIELD \/ st = QUOTE_IN_QUOTED_FIELD ->
  reader_go (mkReader st fs f) (fields_tail row (CRLF +:+ tail)) =
  cons (fs ++ f :: row) <$> reader_go new_reader tail.
Proof.
  revert st fs f. induction row as [|x row IH]; intros st fs f Hst.
  - by apply read_row_end.
  - simpl fields_tail.
    destruct (fields_tail_head row tail) as (d & rest & Hrest & Hd).
    rewrite Hrest.
    destruct (write_field_nonempty x d rest) as (c & t & Ht).
    rewrite Ht, read_delimiter, <-Ht by done.
    rewrite read_field, <-Hrest by done.
    rewrite IH by apply after_field_cases.
    by rewrite <-app_assoc.
Qed.

(** At the start of a record a character other than a line end is the
    start of a field. *)
Lemma read_record_start fs f c rest :
  is_newline c = false ->
  reader_go (mkReader START_RECORD fs f) (String c rest) =
  reader_go (mkReader START_FIELD fs f) (String c rest).
Proof.
  intros Hc. rewrite !reader_go_step. unfold parse_process_char.
  simpl state. by rewrite Hc.
Qed.

Lemma writerow_join x row :
  (x, row) <> (EmptyString, []) ->
  writerow (x :: row) = join delimiter (write_field <$> (x :: row)) +:+ CRLF.
Proof. intros Hne. destruct x, row; done. Qed.

(** One written row, read back. *)
Lemma read_row row tail :
  reader_go new_reader (writerow row +:+ tail) =
  cons row <$> reader_go new_reader tail.
Proof.
  destruct row as [|x row]; [destruct tail; reflexivity|].
  destruct (decide ((x, row) = (EmptyString, []))) as [[= -> ->]|Hne].
  { destruct tail; reflexivity. }
  rewrite writerow_join, append_assoc, join_fields_tail by done.
  destruct (fields_tail_head row tail) as (d & rest & Hrest & Hd).
  rewrite Hrest.
  assert (exists c t, write_field x +:+ String d rest = String c t /\
                      is_newline c = false) as (c & t & Ht & Hc).
  { unfold write_field, quoted. destruct (has_special x) eqn:Hx.
    - rewrite append_cons. eauto.
    - destruct x as [|c x].
      + destruct row as [|y row]; [done|].
        simpl in Hrest. injection Hrest as <- _.
        rewrite append_nil_l. eauto.
      + simpl in Hx. apply orb_false_iff in Hx as [Hc _].
        apply special_false in Hc as (_ & _ & Hc).
        rewrite append_cons. eauto. }
  unfold new_reader. rewrite Ht, read_record_start, <-Ht by done.
  rewrite read_field, <-Hrest by done.
  by rewrite read_fields_tail by apply after_field_cases.
Qed.

Lemma body_cons chunk chunks : body (chunk :: chunks) = chunk +:+ body chunks.
Proof. reflexivity. Qed.

(** Every written document reads back as the rows it was written from. *)
Lemma csv_reader_writerow rows :
  csv_reader (body (writerow <$> rows)) = Some rows.
Proof.
  unfold csv_reader. induction rows as [|row rows IH]; [done|].
  rewrite fmap_cons, body_cons, read_row, IH. done.
Qed.

(** ** Reading the cells back *)

Lemma digit_value_digit k : digit_value (digit k) = Some (k mod 10).
Proof.
  unfold digit_value, digit.
  pose proof (N.mod_lt k 10 ltac:(done)) as Hk.
  set (m := k mod 10) in *.
  rewrite N_ascii_embedding by lia.
  replace ((48 <=? 48 + m) && (48 + m <=? 57)) with true.
  - f_equal. lia.
  - symmetry. apply andb_true_iff. split; apply N.leb_le; lia.
Qed.

Lemma parse_digits_pad2 acc n rest :
  n < 100 -> parse_digits 2 acc (pad2 n +:+ rest) = Some (100 * acc + n, rest).
Proof.
  intros Hn. unfold pad2, char. rewrite !append_cons, append_nil_l.
  cbn [parse_digits]. rewrite !digit_value_digit.
  do 2 f_equal.
  pose proof (N.div_mod n 10 ltac:(done)).
  assert (n / 10 < 10) by (apply N.Div0.div_lt_upper_bound; lia).
  rewrite (N.mod_small (n / 10)) by done. lia.
Qed.

Lemma parse_digits_add j k acc s :
  parse_digits (j + k) acc s =
  match parse_digits j acc s with
  | Some (a, s') => parse_digits k a s'
  | None => None
  end.
Proof.
  revert acc s. induction j as [|j IH]; intros acc s; [done|].
  simpl. destruct s as [|c s]; [done|].
  destruct (digit_value c); [apply IH | done].
Qed.

Lemma parse_digits_pad4 acc n rest :
  n < 10000 ->
  parse_digits 4 acc (pad4 n +:+ rest) = Some (10000 * acc + n, rest).
Proof.
  intros Hn. unfold pad4. rewrite append_assoc.
  rewrite (parse_digits_add 2 2).
  assert (n / 100 < 100) by (apply N.Div0.div_lt_upper_bound; lia).
  pose proof (N.mod_lt n 100 ltac:(done)).
  rewrite !parse_digits_pad2 by done.
  do 2 f_equal. pose proof (N.div_mod n 100 ltac:(done)). lia.
Qed.

Lemma parse_digits_pad6 acc n rest :
  n < 1000000 ->
  parse_digits 6 acc (pad6 n +:+ rest) = Some (1000000 * acc + n, rest).
Proof.
  intros Hn. unfold pad6. rewrite append_assoc.
  rewrite (parse_digits_add 2 4).
  assert (n / 10000 < 100) by (apply N.Div0.div_lt_upper_bound; lia).
  pose proof (N.mod_lt n 10000 ltac:(done)).
  rewrite parse_digits_pad2, parse_digits_pad4 by done.
  do 2 f_equal. pose proof (N.div_mod n 10000 ltac:(done)). lia.
Qed.

Lemma expect_same c s : expect c (String c s) = Some s.
Proof. unfold expect. by rewrite decide_True. Qed.

Lemma expect_sep_ok sep s :
  sep = "T"%char \/ sep = " "%char -> expect_sep (String sep s) = Some s.
Proof. by intros [-> | ->]. Qed.

Lemma parse_fraction_utc us suffix :
  us < 1000000 -> suffix = "Z" \/ suffix = utc_offset ->
  parse_fraction
    ((if decide (us = 0) then EmptyString else String "." (pad6 us)) +:+ suffix)
  = Some (us, suffix).
Proof.
  intros Hus Hsuf. destruct (decide (us = 0)) as [->|Hne].
  - rewrite append_nil_l. by destruct Hsuf as [-> | ->].
  - rewrite append_cons. unfold parse_fraction.
    by rewrite parse_digits_pad6.
Qed.

Lemma parse_datetime_isoformat sep t suffix :
  valid_datetime t ->
  sep = "T"%char \/ sep = " "%char ->
  suffix = "Z" \/ suffix = utc_offset ->
  parse_datetime
    (date_isoformat (dt_date t) +:+ String sep (time_isoformat t +:+ suffix))
  = Some t.
Proof.
  intros (Hy & Hmo & Hd & Hh & Hmi & Hs & Hus) Hsep Hsuf.
  destruct t as [y mo d h mi s us]. simpl in *.
  unfold date_isoformat, time_isoformat, dt_date. simpl.
  rewrite !append_assoc, !append_cons, !append_nil_l.
  unfold parse_datetime.
  rewrite parse_digits_pad4 by lia. cbn [mbind option_bind].
  rewrite expect_same. cbn [mbind option_bind].
  rewrite parse_digits_pad2 by lia. cbn [mbind option_bind].
  rewrite expect_same. cbn [mbind option_bind].
  rewrite parse_digits_pad2 by lia. cbn [mbind option_bind].
  rewrite expect_sep_ok by done. cbn [mbind option_bind].
  rewrite parse_digits_pad2 by lia. cbn [mbind option_bind].
  rewrite expect_same. cbn [mbind option_bind].
  rewrite parse_digits_pad2 by lia. cbn [mbind option_bind].
  rewrite expect_same. cbn [mbind option_bind].
  rewrite parse_digits_pad2 by lia. cbn [mbind option_bind].
  rewrite parse_fraction_utc by done. cbn [mbind option_bind].
  replace (parse_utc suffix) with true by (by destruct Hsuf as [-> | ->]).
  do 2 f_equal; lia.
Qed.

Lemma parse_int_str n : parse_int (str_N n) = Some n.
Proof.
  unfold parse_int, str_N. rewrite NilZero.usu.
  - simpl. by rewrite Unsigned.of_to.
  - destruct n as [|p]; [done|]. simpl.
    intros H. pose proof (Unsigned.of_to (N.pos p)) as Hp.
    simpl in Hp. rewrite H in Hp. done.
Qed.

Lemma parse_datetime_str t :
  valid_datetime t -> parse_datetime (str_datetime t) = Some t.
Proof. intros Ht. apply parse_datetime_isoformat; auto. Qed.

Lemma parse_datetime_to_representation t :
  valid_datetime t -> parse_datetime (to_representation t) = Some t.
Proof. intros Ht. apply parse_datetime_isoformat; auto. Qed.

Lemma decode_row_csv_row l :
  valid_datetime (log_timestamp l) -> decode_row (csv_row l) = Some (log_tuple l).
Proof.
  intros Ht. unfold decode_row, csv_row.
  rewrite parse_int_str. cbn [mbind option_bind].
  by rewrite parse_datetime_str.
Qed.

Lemma decode_data_LogSerializer l :
  valid_datetime (log_timestamp l) ->
  decode_data (LogSerializer l) = Some (log_tuple l).
Proof.
  intros Ht. unfold decode_data, LogSerializer. simpl.
  by rewrite parse_datetime_to_representation.
Qed.

Lemma mapM_fmap_Some {A B C} (f : B -> option C) (g : A -> B) (h : A -> C)
    (l : list A) :
  (forall x, x ∈ l -> f (g x) = Some (h x)) ->
  mapM f (g <$> l) = Some (h <$> l).
Proof.
  intros Hl. apply mapM_Some_2, Forall2_fmap, Forall_Forall2_diag.
  by apply Forall_forall.
Qed.

Lemma export_csv_rows request table :
  export_csv request table =
  writerow <$> (csv_header :: (csv_row <$> filtered request table)).
Proof.
  unfold export_csv, generate_csv, filtered.
  by rewrite fmap_cons, <-list_fmap_compose.
Qed.

(** C4: the exported document, read back by a CSV reader, gives the rows
    of the filtered listing in the listing's order: the same id, date-time,
    message, severity and source, row by row, whatever characters the
    texts hold. *)
Theorem csv_round_trip request table :
  (forall l, l ∈ table -> valid_datetime (log_timestamp l)) ->
  parse_export (body (export_csv request table)) =
    listing_tuples (raw request table) /\
  listing_tuples (raw request table) =
    Some (log_tuple <$> filtered request table) /\
  csv_reader (body (export_csv request table)) =
    Some (csv_header :: (csv_row <$> filtered request table)).
Proof.
  intros Hvalid.
  assert (forall l, l ∈ filtered request table ->
            valid_datetime (log_timestamp l)) as Hv.
  { intros l Hl. apply Hvalid. by apply elem_of_filtered in Hl as [? _]. }
  assert (csv_reader (body (export_csv request table)) =
          Some (csv_header :: (csv_row <$> filtered request table))) as Hread.
  { rewrite export_csv_rows. apply csv_reader_writerow. }
  assert (listing_tuples (raw request table) =
          Some (log_tuple <$> filtered request table)) as Hraw.
  { rewrite raw_filtered. unfold listing_tuples.
    apply mapM_fmap_Some. intros l Hl.
    by apply decode_data_LogSerializer, Hv. }
  split; [|done]. rewrite Hraw. unfold parse_export. rewrite Hread.
  cbn [mbind option_bind]. rewrite decide_True by done.
  apply mapM_fmap_Some. intros l Hl. by apply decode_row_csv_row, Hv.
Qed.

(** *** A message with a comma, quotes and a line break *)

Example write_field_example :
  write_field ex_message =
    char quotechar +:+ "say " +:+ char quotechar +:+ char quotechar +:+ "hi"
    +:+ char quotechar +:+ char quotechar +:+ ", bye" +:+ CRLF +:+ "again"
    +:+ char quotechar.
Proof. vm_compute. reflexivity. Qed.

Example export_csv_example :
  export_csv (ex_request []) ex_quoted_table =
    [ "id,timestamp,message,severity,source" +:+ CRLF;
      "7,2024-03-09 23:59:59.250000+00:00," +:+ write_field ex_message +:+
      ",WARNING," +:+ char quotechar +:+ "svc,3" +:+ char quotechar +:+ CRLF ].
Proof. vm_compute. reflexivity. Qed.

Example round_trip_example_quoted :
  parse_export (body (export_csv (ex_request []) ex_quoted_table)) =
    Some [(7, mkdatetime 2024 3 9 23 59 59 250000, ex_message, "WARNING",
           "svc,3")].
Proof. vm_compute. reflexivity. Qed.

Example raw_example :
  raw (ex_request []) ex_quoted_table =
    [mkLogData 7 "2024-03-09T23:59:59.250000Z" ex_message "WARNING" "svc,3"].
Proof. vm_compute. reflexivity. Qed.

Lemma csv_round_trip_witness :
  parse_export (body (export_csv (ex_request []) ex_quoted_table)) =
    listing_tuples (raw (ex_request []) ex_quoted_table) /\
  listing_tuples (raw (ex_request []) ex_quoted_table) =
    Some (log_tuple <$> filtered (ex_request []) ex_quoted_table) /\
  csv_reader (body (export_csv (ex_request []) ex_quoted_table)) =
    Some (csv_header :: (csv_row <$> filtered (ex_request []) ex_quoted_table)).
Proof.
  apply (csv_round_trip (ex_request []) ex_quoted_table).
  apply Forall_forall. apply (bool_decide_unpack _). vm_compute. exact I.
Defined.

(** ** The exported document *)

Lemma has_special_spec s :
  has_special s = true <->
  exists a c b, s = a +:+ String c b /\
    (c = delimiter \/ c = quotechar \/ c = CR \/ c = LF).
Proof.
  induction s as [|c s IH].
  - split; [done|]. intros (a & c & b & Hs & _). by destruct a.
  - simpl. rewrite orb_true_iff, IH. split.
    + intros [Hc | (a & c' & b & -> & Hc')].
      * exists EmptyString, c, s. split; [done|].
        unfold special in Hc. rewrite !orb_true_iff in Hc.
        rewrite !bool_decide_eq_true in Hc. tauto.
      * by exists (String c a), c', b.
    + intros (a & c' & b & Hs & Hc'). destruct a as [|c'' a].
      * rewrite append_nil_l in Hs. injection Hs as -> ->. left.
        unfold special. rewrite !orb_true_iff, !bool_decide_eq_true. tauto.
      * rewrite append_cons in Hs. injection Hs as -> ->. right.
        by exists a, c', b.
Qed.

Lemma double_quotes_app a b :
  double_quotes (a +:+ b) = double_quotes a +:+ double_quotes b.
Proof.
  induction a as [|c a IH]; [done|].
  rewrite append_cons. simpl. case_decide; by rewrite IH.
Qed.

Lemma quoting_rules_hold : quoting_rules.
Proof.
  split; [apply has_special_spec|].
  split; [by intros s Hs; unfold write_field; rewrite Hs|].
  split; [by intros s Hs; unfold write_field; rewrite Hs|].
  split; [apply double_quotes_app|].
  split; [done|].
  intros c Hc. simpl. by rewrite decide_False.
Qed.

Lemma generate_csv_document qs :
  csv_document (fun t text => text = str_datetime t) (evaluate qs)
    (generate_csv qs).
Proof.
  exists ((fun log => writerow (csv_row log)) <$> evaluate qs).
  split; [done|].
  apply Forall2_fmap_r, Forall_Forall2_diag, Forall_forall.
  intros l _. exists (str_datetime (log_timestamp l)). split; [done|].
  unfold csv_row. by rewrite writerow_join.
Qed.

(** C5 as stated fails on the example records: their document is not one
    with ISO-8601 timestamps.  The cell of the first row reads
    "2024-01-02 09:00:00+00:00", a space where ISO-8601 has the "T". *)
Lemma export_csv_timestamp_not_iso8601 :
  ~ csv_document iso8601 (filtered (ex_request []) ex_table)
      (export_csv (ex_request []) ex_table).
Proof.
  intros (lines & Hdoc & Hall).
  vm_compute in Hdoc. injection Hdoc as <-.
  replace (filtered (ex_request []) ex_table) with (reverse ex_table) in Hall
    by (vm_compute; reflexivity).
  inversion Hall as [|l line ls lines' Hhead _]; subst.
  destruct Hhead as (text & (rest & Htext) & Hline).
  rewrite <-writerow_join in Hline by done.
  match type of Hline with
  | _ = writerow ?row => pose proof (csv_reader_writerow [row]) as Hread
  end.
  cbn [fmap list_fmap] in Hread. rewrite <-Hline in Hread.
  vm_compute in Hread. injection Hread as <-.
  vm_compute in Htext. discriminate.
Qed.

Lemma iso8601_isoformat t : iso8601 t (datetime_isoformat "T" t).
Proof. by eexists. Qed.

Lemma iso8601_to_representation t : iso8601 t (to_representation t).
Proof. by eexists. Qed.

Example export_csv_example_timestamp :
  export_csv (ex_request []) ex_table =
    [ "id,timestamp,message,severity,source" +:+ CRLF;
      "3,2024-01-02 09:00:00+00:00,err C,ERROR,svc1" +:+ CRLF;
      "2,2024-01-01 12:00:00+00:00,ok B,INFO,svc2" +:+ CRLF;
      "1,2024-01-01 10:00:00+00:00,err A,ERROR,svc1" +:+ CRLF ].
Proof. vm_compute. reflexivity. Qed.

(** C5, amended: the exported document is the header line
    [id,timestamp,message,severity,source] followed by one line per
    filtered row, with the fields id, timestamp, message, severity and
    source in this order; the timestamp is written as [str] renders it,
    the ISO date and the time of day with a space between them and the
    UTC offset behind; a field holding a delimiter, a quote, a carriage
    return or a line feed is put between quotes with its quotes written
    twice, and any other field is written as it is. *)
Theorem export_csv_document request table :
  csv_document (fun t text => text = str_datetime t)
    (filtered request table) (export_csv request table) /\
  (forall t, str_datetime t =
     date_isoformat (dt_date t) +:+ " " +:+ time_isoformat t +:+ "+00:00") /\
  quoting_rules.
Proof.
  split; [apply generate_csv_document|].
  split; [done|]. apply quoting_rules_hold.
Qed.

(** * Further properties *)

(** ** The listing *)

Lemma filter_all {A} (P : A -> Prop) `{!forall x, Decision (P x)} (l : list A) :
  (forall x, P x) -> filter P l = l.
Proof.
  intros HP. induction l as [|x l IH]; [done|].
  rewrite filter_cons_True by done. by rewrite IH.
Qed.

Lemma filter_exact_rows f value qs :
  qs_rows (filter_exact f value qs) =
  filter (fun l => value = EmptyString \/ f l = value) (qs_rows qs).
Proof.
  unfold filter_exact. destruct (decide (value = EmptyString)) as [->|Hne].
  - symmetry. apply filter_all. by left.
  - simpl. apply list_filter_iff. intros l. split; [by right|].
    by intros [?|?].
Qed.

Lemma filter_gte_rows value qs :
  qs_rows (filter_gte value qs) =
  filter (not_before value) (qs_rows qs).
Proof.
  destruct value as [a|]; simpl; [done|]. symmetry. by apply filter_all.
Qed.

Lemma filter_lte_rows value qs :
  qs_rows (filter_lte value qs) =
  filter (not_after value) (qs_rows qs).
Proof.
  destruct value as [a|]; simpl; [done|]. symmetry. by apply filter_all.
Qed.

Lemma SearchFilter_rows terms qs :
  qs_rows (SearchFilter terms qs) =
  filter (fun l => forallb (fun term => term_matches term l) terms = true)
         (qs_rows qs).
Proof.
  destruct terms as [|t terms]; [|done]. symmetry. by apply filter_all.
Qed.

(** The rows a request selects: those of the table that meet every
    constraint, in the table's order until they are evaluated. *)
Lemma filter_queryset_rows request table :
  qs_rows (filter_queryset request (get_queryset table)) =
  filter (selected (filter_params request)) table.
Proof.
  unfold filter_queryset, filter_backends, LogFilter. simpl.
  rewrite OrderingFilter_rows, SearchFilter_rows, filter_lte_rows,
    filter_gte_rows, !filter_exact_rows. simpl.
  rewrite !list_filter_filter. apply list_filter_iff.
  intros l. unfold selected. tauto.
Qed.

Lemma filter_queryset_ordering request table :
  qs_ordering (filter_queryset request (get_queryset table)) =
  listing_order (filter_params request).
Proof.
  unfold filter_queryset, filter_backends, LogFilter, listing_order. simpl.
  assert (forall v qs f, qs_ordering (filter_exact f v qs) = qs_ordering qs) as H1.
  { intros. unfold filter_exact. by case_decide. }
  assert (forall v qs, qs_ordering (filter_gte v qs) = qs_ordering qs) as H2.
  { by intros []. }
  assert (forall v qs, qs_ordering (filter_lte v qs) = qs_ordering qs) as H3.
  { by intros []. }
  assert (forall v qs, qs_ordering (SearchFilter v qs) = qs_ordering qs) as H4.
  { by intros []. }
  destruct (q_ordering (filter_params request)); simpl.
  - by rewrite H4, H3, H2, !H1.
  - done.
Qed.

Lemma string_compare_trans s1 s2 s3 :
  String.compare s1 s2 = Lt -> String.compare s2 s3 = Lt ->
  String.compare s1 s3 = Lt.
Proof.
  revert s2 s3. induction s1 as [|a1 s1 IH]; intros [|a2 s2] [|a3 s3];
    simpl; try done.
  destruct (Stdlib.Strings.Ascii.compare a1 a2) eqn:E12; try done.
  - apply Stdlib.Strings.Ascii.compare_eq_iff in E12 as ->.
    destruct (Stdlib.Strings.Ascii.compare a2 a3); try done. apply IH.
  - intros _. destruct (Stdlib.Strings.Ascii.compare a2 a3) eqn:E23; try done.
    + apply Stdlib.Strings.Ascii.compare_eq_iff in E23 as <-. by rewrite E12.
    + intros _. assert (Stdlib.Strings.Ascii.compare a1 a3 = Lt) as ->; [|done].
      unfold Stdlib.Strings.Ascii.compare in *. rewrite N.compare_lt_iff in *. lia.
Qed.

Lemma string_TotalCompare : TotalCompare String.compare.
Proof.
  split.
  - intros a b. split; [apply String.compare_eq_iff|]. intros <-.
    induction a as [|c a IH]; [done|]. simpl.
    unfold Stdlib.Strings.Ascii.compare. by rewrite N.compare_refl.
  - intros a b. apply String.compare_antisym.
  - apply string_compare_trans.
Qed.

Lemma key_PreCompare {A K} (cmp : K -> K -> comparison) (key : A -> K) :
  TotalCompare cmp -> PreCompare (fun a b => cmp (key a) (key b)).
Proof.
  intros H. split.
  - intros a b. apply (compare_opp _ H).
  - intros a b c Hab. by apply (compare_eq _ H) in Hab as ->.
  - intros a b c. apply (compare_not_Gt_trans _ H).
Qed.

Lemma opp_PreCompare {A} (cmp : A -> A -> comparison) :
  PreCompare cmp -> PreCompare (fun a b => CompOpp (cmp a b)).
Proof.
  intros H. split.
  - intros a b. by rewrite (pre_opp _ H a b).
  - intros a b c Hab. f_equal. apply (pre_tie _ H).
    by destruct (cmp a b).
  - intros a b c Hab Hbc.
    rewrite <-(pre_opp _ H). rewrite <-(pre_opp _ H) in Hab, Hbc.
    by apply (pre_trans _ H c b a).
Qed.

Lemma lex_PreCompare {A} (f g : A -> A -> comparison) :
  PreCompare f -> PreCompare g -> PreCompare (fun a b => lex (f a b) (g a b)).
Proof.
  intros Hf Hg. split.
  - intros a b. rewrite (pre_opp _ Hf a b), (pre_opp _ Hg a b).
    by destruct (f a b).
  - intros a b c Hab. destruct (f a b) eqn:Ef; try done. simpl in Hab.
    by rewrite (pre_tie _ Hf a b c Ef), (pre_tie _ Hg a b c Hab).
  - intros a b c Hab Hbc.
    destruct (f a b) eqn:Eab; simpl in Hab; [| |done].
    + rewrite (pre_tie _ Hf a b c Eab).
      destruct (f b c) eqn:Ebc; simpl in *; [|done..].
      by apply (pre_trans _ Hg a b c).
    + assert (f a c = Lt) as ->; [|done].
      destruct (f b c) eqn:Ebc; simpl in Hbc; [| |done].
      * assert (f c b = Eq) as Ecb by (by rewrite (pre_opp _ Hf b c), Ebc).
        rewrite (pre_opp _ Hf c a), (pre_tie _ Hf c b a Ecb).
        by rewrite (pre_opp _ Hf a b), Eab.
      * destruct (f a c) eqn:Eac; [|done|].
        -- assert (f c b = Lt) as Hcb.
           { assert (f c a = Eq) as Eca by (by rewrite (pre_opp _ Hf a c), Eac).
             by rewrite (pre_tie _ Hf c a b Eca). }
           rewrite (pre_opp _ Hf b c), Ebc in Hcb. done.
        -- exfalso. apply (pre_trans _ Hf a b c); by rewrite ?Eab, ?Ebc.
Qed.

Lemma field_PreCompare f : PreCompare (field_compare f).
Proof.
  destruct f; simpl.
  - apply (key_PreCompare datetime_compare log_timestamp datetime_TotalCompare).
  - apply (key_PreCompare String.compare log_severity string_TotalCompare).
  - apply (key_PreCompare String.compare log_source string_TotalCompare).
Qed.

Lemma ordering_PreCompare o : PreCompare (ordering_compare o).
Proof.
  induction o as [|[desc f] o IH]; simpl.
  - by split.
  - apply lex_PreCompare; [|done]. destruct desc.
    + apply opp_PreCompare, field_PreCompare.
    + apply field_PreCompare.
Qed.

Global Instance ordered_before_total o : Total (ordered_before o).
Proof.
  intros a b. unfold ordered_before.
  rewrite (pre_opp _ (ordering_PreCompare o) a b).
  destruct (ordering_compare o a b); simpl; auto.
Qed.

Global Instance ordered_before_trans o : Transitive (ordered_before o).
Proof. intros a b c. apply (pre_trans _ (ordering_PreCompare o)). Qed.

Lemma ordered_before_default a b :
  ordered_before [(true, ord_timestamp)] a b <->
  dt_le (log_timestamp b) (log_timestamp a).
Proof.
  unfold ordered_before, dt_le. simpl.
  rewrite (compare_opp _ datetime_TotalCompare (log_timestamp a)).
  by destruct (datetime_compare _ _).
Qed.

Lemma StronglySorted_impl {A} (R R' : relation A) l :
  (forall x y, R x y -> R' x y) -> StronglySorted R l -> StronglySorted R' l.
Proof.
  intros HR. induction 1 as [|x l Hl IH Hx]; constructor; [done|].
  eapply Forall_impl; [exact Hx|]. auto.
Qed.

Lemma filtered_eq request table :
  filtered request table =
  merge_sort (ordered_before (listing_order (filter_params request)))
             (filter (selected (filter_params request)) table).
Proof.
  unfold filtered, evaluate.
  by rewrite filter_queryset_rows, filter_queryset_ordering.
Qed.

(** X1: the listing of a request holds the rows of the table that meet
    every constraint of the query, each as often as the table has it, and
    [raw] serialises exactly these; with no constraint the listing holds
    the whole table. *)
Theorem listing_rows request table :
  filtered request table ≡ₚ filter (selected (filter_params request)) table /\
  raw request table = LogSerializer <$> filtered request table /\
  length (raw request table) =
    length (filter (selected (filter_params request)) table) /\
  (q_severity (filter_params request) = EmptyString ->
   q_source (filter_params request) = EmptyString ->
   q_date_from (filter_params request) = None ->
   q_date_to (filter_params request) = None ->
   q_search (filter_params request) = [] ->
   filtered request table ≡ₚ table).
Proof.
  assert (filtered request table ≡ₚ
          filter (selected (filter_params request)) table) as Hp.
  { rewrite filtered_eq. apply merge_sort_Permutation. }
  split; [done|]. split; [done|]. split.
  - rewrite raw_filtered, length_fmap. by rewrite Hp.
  - intros Hsev Hsrc Hfrom Hto Hsearch. rewrite Hp, filter_all; [done|].
    intros l. unfold selected. rewrite Hsev, Hsrc, Hfrom, Hto, Hsearch.
    simpl. auto.
Qed.

(** X2: the listing is sorted under the ordering the request asks for,
    whatever fields and directions it names; with no ordering asked for it
    is newest first ([Log.Meta.ordering]). *)
Theorem listing_sorted request table :
  StronglySorted (ordered_before (listing_order (filter_params request)))
    (filtered request table) /\
  (q_ordering (filter_params request) = [] ->
   StronglySorted (fun a b => dt_le (log_timestamp b) (log_timestamp a))
     (filtered request table)).
Proof.
  assert (StronglySorted
            (ordered_before (listing_order (filter_params request)))
            (filtered request table)) as Hs.
  { rewrite filtered_eq. apply StronglySorted_merge_sort; apply _. }
  split; [done|]. intros Ho.
  unfold listing_order in Hs. rewrite Ho in Hs.
  eapply StronglySorted_impl; [|exact Hs].
  intros x y. apply ordered_before_default.
Qed.

(** ** The counts of the groups *)

Lemma entries_counts {K} (mk : K * nat -> Entry) (data : list (K * nat)) :
  (forall item, e_count (mk item) = item.2) ->
  e_count <$> (mk <$> data) = data.*2.
Proof.
  intros H. rewrite <-list_fmap_compose. apply list_fmap_ext.
  intros i x _. apply H.
Qed.

Lemma values_count_positive {K} `{EqDecision K} (key : Log -> K) qs k n :
  (k, n) ∈ values_count key qs -> (0 < n)%nat.
Proof.
  intros Hin. apply elem_of_values_count in Hin as [Hex ->].
  by apply rows_with_nonempty.
Qed.

Lemma group_entries_total {K} `{EqDecision K} (key : Log -> K) qs
    (mk : K * nat -> Entry) (data : list (K * nat)) :
  data ≡ₚ values_count key qs ->
  (forall item, e_count (mk item) = item.2) ->
  sum_list (e_count <$> (mk <$> data)) = length (qs_rows qs) /\
  (forall e, e ∈ mk <$> data -> (0 < e_count e)%nat).
Proof.
  intros Hp Hmk. split.
  - rewrite (entries_counts mk data Hmk), Hp. apply values_count_sum.
  - intros e He. apply list_elem_of_fmap in He as ([k n] & -> & Hin).
    rewrite Hmk. simpl. rewrite Hp in Hin.
    by apply values_count_positive in Hin.
Qed.

(** X3: whatever the grouping, the counts of the aggregated response are
    positive and add up to the number of rows [raw] returns for the same
    request; the response is empty exactly when [raw]'s is. *)
Theorem aggregated_total request table :
  sum_list (e_count <$> aggregated request table) =
    length (raw request table) /\
  (forall e, e ∈ aggregated request table -> (0 < e_count e)%nat) /\
  (aggregated request table = [] <-> raw request table = []).
Proof.
  assert (length (raw request table) =
          length (qs_rows (filter_queryset request (get_queryset table))))
    as Hlen.
  { unfold raw, evaluate. rewrite length_fmap.
    by rewrite merge_sort_Permutation. }
  assert (sum_list (e_count <$> aggregated request table) =
            length (raw request table) /\
          (forall e, e ∈ aggregated request table -> (0 < e_count e)%nat))
    as [Hsum Hpos].
  { rewrite Hlen. unfold aggregated.
    repeat case_decide;
      (eapply group_entries_total; [apply merge_sort_Permutation|done]). }
  split; [done|]. split; [done|]. split.
  - intros Hnil. rewrite Hnil in Hsum. simpl in Hsum.
    by apply length_zero_iff_nil.
  - intros Hnil. rewrite Hnil in Hsum. simpl in Hsum.
    destruct (aggregated request table) as [|e out]; [done|].
    exfalso. specialize (Hpos e ltac:(left)). simpl in Hsum. lia.
Qed.

Lemma selected_same q1 q2 l :
  same_constraints q1 q2 -> selected q1 l <-> selected q2 l.
Proof.
  intros (H1 & H2 & H3 & H4 & H5). unfold selected.
  by rewrite H1, H2, H3, H4, H5.
Qed.

Lemma date_buckets_Permutation trunc rows rows' out :
  rows ≡ₚ rows' -> date_buckets trunc rows out -> date_buckets trunc rows' out.
Proof.
  intros Hp (bs & -> & Hs & Hin). exists bs. split; [done|]. split; [done|].
  intros b n. rewrite Hin. unfold rows_with. by rewrite Hp.
Qed.

(** X4: the aggregation by date depends neither on the order in which
    the table holds its rows nor on the ordering the request asks for. *)
Theorem aggregated_date_order_free request request' table table' :
  get (query_params request) "group_by" "date" = "date" ->
  query_params request' = query_params request ->
  same_constraints (filter_params request) (filter_params request') ->
  table ≡ₚ table' ->
  aggregated request table = aggregated request' table'.
Proof.
  intros Hg Hqp Hsame Hp.
  pose proof (aggregated_date request table Hg) as H1.
  pose proof (aggregated_date request' table') as H2.
  rewrite Hqp in H2. specialize (H2 Hg).
  eapply date_buckets_unique; [exact H1|].
  eapply date_buckets_Permutation; [|exact H2].
  rewrite !filter_queryset_rows, Hp.
  erewrite list_filter_iff; [done|].
  intros l. symmetry. by apply selected_same.
Qed.

(** X5: [LogFilter]'s severity and source are exact matches: every row
    of the listing has the severity and the source that were given, and
    with no date bound and no search term the listing holds every such
    row of the table. *)
Theorem exact_filters request table :
  (forall l, l ∈ filtered request table ->
     (q_severity (filter_params request) <> EmptyString ->
      log_severity l = q_severity (filter_params request)) /\
     (q_source (filter_params request) <> EmptyString ->
      log_source l = q_source (filter_params request))) /\
  (q_date_from (filter_params request) = None ->
   q_date_to (filter_params request) = None ->
   q_search (filter_params request) = [] ->
   forall l, l ∈ filtered request table <->
     l ∈ table /\
     (q_severity (filter_params request) = EmptyString \/
      log_severity l = q_severity (filter_params request)) /\
     (q_source (filter_params request) = EmptyString \/
      log_source l = q_source (filter_params request))).
Proof.
  split.
  - intros l Hl. apply elem_of_filtered in Hl as (_ & [Hsev Hsrc] & _).
    split; intros Hne; [by destruct Hsev | by destruct Hsrc].
  - intros Hfrom Hto Hsearch l. rewrite elem_of_filtered.
    unfold passes_fields, passes_dates, passes_search.
    rewrite Hfrom, Hto, Hsearch. split.
    + intros (? & ? & _). done.
    + intros (? & ?). split; [done|]. split; [done|]. split.
      * split; intros ? [=].
      * intros ? Hin. by apply not_elem_of_nil in Hin.
Qed.

(** *** Examples *)

Lemma aggregated_date_order_free_witness :
  aggregated (ex_request []) ex_table =
  aggregated (ex_ordered [(false, ord_source)]) (reverse ex_table).
Proof.
  apply (aggregated_date_order_free (ex_request [])
           (ex_ordered [(false, ord_source)]) ex_table (reverse ex_table)).
  - reflexivity.
  - reflexivity.
  - repeat split.
  - symmetry. apply reverse_Permutation.
Defined.

(** ** The life of a preference *)

Lemma table_ok_Forall table :
  table_ok table <->
  NoDup (pref_id <$> table) /\
  Forall (fun p => Forall (fun q => same_user_name p q -> p = q) table) table.
Proof.
  unfold table_ok. rewrite Forall_forall. split; intros [Hnd H]; (split; [done|]).
  - intros p Hp. apply Forall_forall. intros q Hq. by apply H.
  - intros p q Hp Hq. specialize (H p Hp). rewrite Forall_forall in H.
    by apply H.
Qed.

(** X6: the preference table stays well formed, ids and (user, name)
    pairs unique, along any sequence of create, update and delete
    requests, whoever sends them and however each one ends; the empty
    table is well formed. *)
Theorem preference_table_invariant actions :
  table_ok [] /\
  table_ok (foldl pref_step [] actions) /\
  (forall table, table_ok table -> table_ok (foldl pref_step table actions)).
Proof.
  assert (table_ok ([] : list UserFilterPreference)) as Hnil.
  { split; [constructor|]. intros p q Hp. by apply not_elem_of_nil in Hp. }
  assert (forall table, table_ok table ->
            table_ok (foldl pref_step table actions)) as Hall.
  { induction actions as [|a actions IH]; intros table Hok; [done|].
    simpl. apply IH. destruct a; simpl.
    - by apply perform_create_table_ok.
    - by apply pref_update_table_ok.
    - by apply pref_destroy_table_ok. }
  split; [done|]. split; [by apply Hall | done].
Qed.

Lemma filter_nil_Forall {A} (P : A -> Prop) `{!forall x, Decision (P x)} l :
  Forall (fun x => ~ P x) l -> filter P l = [].
Proof.
  induction 1 as [|x l Hx Hl IH]; [done|].
  by rewrite filter_cons_False.
Qed.

Lemma get_object_fresh caller table row :
  pref_user row = caller ->
  (forall q, q ∈ table -> pref_id q <> pref_id row) ->
  get_object caller (pref_id row) (table ++ [row]) = Some row.
Proof.
  intros Hu Hfresh. unfold get_object, pref_get_queryset.
  rewrite !filter_app.
  rewrite (filter_nil_Forall (fun p => pref_id p = pref_id row)
             (filter _ table)).
  - simpl. rewrite filter_cons_True by done. simpl.
    by rewrite filter_cons_True.
  - apply Forall_forall. intros q Hq.
    apply list_elem_of_filter in Hq as [_ Hq]. by apply Hfresh.
Qed.

(** X7: a preference that was created can be read back: the caller
    retrieves the new row by its id and finds it in the list, the row
    holds the data sent and the caller as its user, and every row the
    table had is still there under another id. *)
Theorem create_then_retrieve caller data now table row table' :
  perform_create caller data now table = (Ok row, table') ->
  pref_retrieve caller (pref_id row) table' = Ok row /\
  row ∈ pref_list caller table' /\
  length table' = S (length table) /\
  pref_user row = caller /\
  pref_name row = v_name data /\ pref_severity row = v_severity data /\
  pref_source row = v_source data /\
  pref_date_from row = v_date_from data /\
  pref_date_to row = v_date_to data /\
  (forall q, q ∈ table -> q ∈ table' /\ pref_id q <> pref_id row).
Proof.
  unfold perform_create. case_decide; [done|]. intros [= <- <-].
  set (row := mkPref _ _ _ _ _ _ _ _ _).
  assert (forall q, q ∈ table -> pref_id q <> pref_id row) as Hfresh.
  { intros q Hq. pose proof (next_id_above table q Hq). simpl. lia. }
  split.
  { unfold pref_retrieve. by rewrite get_object_fresh. }
  split.
  { apply elem_of_pref_list. split; [|done]. apply elem_of_app. right. left. }
  split; [rewrite length_app; simpl; lia|].
  repeat (split; [done|]).
  intros q Hq. split; [apply elem_of_app; by left | by apply Hfresh].
Qed.

Lemma get_object_own caller table p :
  NoDup (pref_id <$> table) -> p ∈ table -> pref_user p = caller ->
  get_object caller (pref_id p) table = Some p.
Proof.
  intros Hnd Hp Hu. unfold get_object, pref_get_queryset.
  destruct (filter _ (filter _ table)) as [|x l] eqn:E.
  - assert (p ∈ filter (fun q => pref_id q = pref_id p)
                (filter (fun q => pref_user q = caller) table)) as Hin.
    { apply list_elem_of_filter. split; [done|].
      by apply list_elem_of_filter. }
    rewrite E in Hin. by apply not_elem_of_nil in Hin.
  - simpl. f_equal.
    assert (x ∈ filter (fun q => pref_id q = pref_id p)
                (filter (fun q => pref_user q = caller) table)) as Hin
      by (rewrite E; left).
    apply list_elem_of_filter in Hin as [Hid Hin].
    apply list_elem_of_filter in Hin as [_ Hin].
    by apply (fmap_NoDup_inj pref_id table).
Qed.

Lemma get_object_None caller pk table :
  (forall q, q ∈ table -> pref_id q <> pk) -> get_object caller pk table = None.
Proof.
  intros Hno. destruct (get_object caller pk table) as [x|] eqn:E; [|done].
  apply get_object_Some in E as (Hx & _ & Hid). by destruct (Hno x Hx).
Qed.

Lemma filter_keep {A} (P : A -> Prop) `{!forall x, Decision (P x)} (l : list A) :
  Forall P l -> filter P l = l.
Proof.
  induction 1 as [|x l Hx Hl IH]; [done|].
  rewrite filter_cons_True by done. by rewrite IH.
Qed.

Lemma length_filter_one {A B} `{EqDecision B} (f : A -> B) (l : list A) x :
  NoDup (f <$> l) -> x ∈ l ->
  length l = S (length (filter (fun q => f q <> f x) l)).
Proof.
  induction l as [|y l IH]; intros Hnd Hx.
  - by apply not_elem_of_nil in Hx.
  - rewrite fmap_cons in Hnd. apply NoDup_cons in Hnd as [Hy Hnd].
    apply elem_of_cons in Hx as [->|Hx].
    + rewrite filter_cons_False by (intros Hn; by apply Hn). simpl. f_equal.
      rewrite filter_keep; [done|]. apply Forall_forall. intros q Hq Heq.
      apply Hy. rewrite <-Heq. by apply list_elem_of_fmap_2.
    + rewrite filter_cons_True.
      * simpl. f_equal. by apply IH.
      * intros Heq. apply Hy. rewrite Heq. by apply list_elem_of_fmap_2.
Qed.

(** X8: a delete that succeeds removed a row of the caller's: the rows
    with another id are all kept, nobody retrieves the id any more, a
    second delete ends in 404, and the table is one row shorter. *)
Theorem destroy_then_gone caller pk table table' :
  pref_destroy caller pk table = (Ok tt, table') ->
  (exists p, p ∈ table /\ pref_id p = pk /\ pref_user p = caller) /\
  (forall q, q ∈ table' <-> q ∈ table /\ pref_id q <> pk) /\
  (forall anyone, pref_retrieve anyone pk table' = Http404) /\
  pref_destroy caller pk table' = (Http404, table') /\
  (NoDup (pref_id <$> table) -> length table = S (length table')).
Proof.
  unfold pref_destroy.
  destruct (get_object caller pk table) as [p|] eqn:E; [|done].
  apply get_object_Some in E as (Hp & Hu & Hid). intros [= <-].
  assert (forall q, q ∈ filter (fun q => pref_id q <> pref_id p) table <->
            q ∈ table /\ pref_id q <> pk) as Hin.
  { intros q. rewrite list_elem_of_filter, Hid. tauto. }
  assert (forall anyone,
    get_object anyone pk (filter (fun q => pref_id q <> pref_id p) table)
    = None) as Hgone.
  { intros anyone. apply get_object_None. intros q Hq. apply Hin in Hq as [_ Hq]. exact Hq. }
  split; [by exists p|]. split; [done|]. split.
  { intros anyone. unfold pref_retrieve. by rewrite Hgone. }
  split; [by rewrite Hgone|].
  intros Hnd. by apply (length_filter_one pref_id).
Qed.

Lemma head_filter_only {A} (P : A -> Prop) `{!forall x, Decision (P x)}
    (l : list A) x :
  x ∈ l -> P x -> (forall y, y ∈ l -> P y -> y = x) ->
  head (filter P l) = Some x.
Proof.
  intros Hx HP Honly. destruct (filter P l) as [|y k] eqn:E.
  - assert (x ∈ filter P l) as Hin by (by apply list_elem_of_filter).
    rewrite E in Hin. by apply not_elem_of_nil in Hin.
  - simpl. f_equal.
    assert (y ∈ filter P l) as Hin by (rewrite E; left).
    apply list_elem_of_filter in Hin as [? ?]. by apply Honly.
Qed.

(** X9: an update that succeeds rewrites one row of the caller's: id,
    user and creation time are kept, the data are those sent, the update
    time is the time of the request; the row is what the caller retrieves
    afterwards, and the other rows are as they were. *)
Theorem update_then_retrieve caller pk data now table row table' :
  NoDup (pref_id <$> table) ->
  pref_update caller pk data now table = (Ok row, table') ->
  (exists old, old ∈ table /\ pref_id old = pk /\ pref_user old = caller /\
     pref_created_at row = pref_created_at old) /\
  pref_id row = pk /\ pref_user row = caller /\ pref_updated_at row = now /\
  pref_name row = v_name data /\ pref_severity row = v_severity data /\
  pref_source row = v_source data /\
  pref_date_from row = v_date_from data /\
  pref_date_to row = v_date_to data /\
  pref_retrieve caller pk table' = Ok row /\
  length table' = length table /\
  (forall q, q ∈ table' <-> q = row \/ (q ∈ table /\ pref_id q <> pk)).
Proof.
  intros Hnd. unfold pref_update.
  destruct (get_object caller pk table) as [p|] eqn:E; [|done].
  apply get_object_Some in E as (Hp & Hu & Hid).
  case_decide as Hv; [done|]. intros [= <- <-].
  set (row := mkPref _ _ _ _ _ _ _ _ _).
  set (f := fun q => if decide (pref_id q = pref_id p) then row else q).
  assert (forall q, q ∈ f <$> table <->
            q = row \/ (q ∈ table /\ pref_id q <> pk)) as Hin.
  { intros q. rewrite list_elem_of_fmap. split.
    - intros (y & -> & Hy). unfold f. case_decide; [by left|right].
      by rewrite <-Hid.
    - intros [-> | [Hq Hne]].
      + exists p. split; [|done]. unfold f. by rewrite decide_True.
      + exists q. split; [|done]. unfold f. rewrite decide_False; [done|].
        by rewrite Hid. }
  split; [by exists p|].
  repeat (split; [done|]).
  split; [|split; [by rewrite length_fmap | done]].
  unfold pref_retrieve, get_object, pref_get_queryset.
  rewrite (head_filter_only _ _ row); [done| |done|].
  - apply list_elem_of_filter. split; [done|]. apply Hin. by left.
  - intros y Hy Hyid. apply list_elem_of_filter in Hy as [_ Hy].
    apply Hin in Hy as [->|[_ Hne]]; done.
Qed.

Lemma filter_fmap_same {A} (P : A -> Prop) `{!forall x, Decision (P x)}
    (f : A -> A) (l : list A) :
  (forall q, q ∈ l -> (P q -> f q = q) /\ (P (f q) -> P q)) ->
  filter P (f <$> l) = filter P l.
Proof.
  induction l as [|x l IH]; intros Hf; [done|].
  rewrite fmap_cons.
  destruct (Hf x) as [Hkeep Hback]; [left|].
  assert (filter P (f <$> l) = filter P l) as IH'.
  { apply IH. intros q Hq. apply Hf. by right. }
  destruct (decide (P x)) as [Hx|Hx].
  - rewrite (filter_cons_True P x) by done.
    rewrite Hkeep by done. rewrite (filter_cons_True P x) by done.
    by rewrite IH'.
  - rewrite (filter_cons_False P x) by done.
    rewrite filter_cons_False by (intros HPf; by apply Hx, Hback).
    exact IH'.
Qed.

Lemma filter_filter_keep {A} (P Q : A -> Prop) `{!forall x, Decision (P x)}
    `{!forall x, Decision (Q x)} (l : list A) :
  (forall q, q ∈ l -> P q -> Q q) ->
  filter P (filter Q l) = filter P l.
Proof.
  induction l as [|x l IH]; intros Hall; [done|].
  assert (filter P (filter Q l) = filter P l) as IH'.
  { apply IH. intros q Hq. apply Hall. by right. }
  destruct (decide (Q x)) as [HQ|HQ].
  - rewrite (filter_cons_True Q x) by done.
    destruct (decide (P x)) as [HP|HP].
    + rewrite !(filter_cons_True P x) by done. by rewrite IH'.
    + rewrite !(filter_cons_False P x) by done. exact IH'.
  - rewrite (filter_cons_False Q x) by done.
    rewrite (filter_cons_False P x); [exact IH'|].
    intros HP. apply HQ, Hall; [left|done].
Qed.

(** X10: whatever one user creates, updates or deletes, and however the
    request ends, the list and the rows every other user can retrieve are
    as they were. *)
Theorem mutations_isolated caller other pk data now table :
  NoDup (pref_id <$> table) -> other <> caller ->
  pref_list other (perform_create caller data now table).2
    = pref_list other table /\
  pref_list other (pref_update caller pk data now table).2
    = pref_list other table /\
  pref_list other (pref_destroy caller pk table).2 = pref_list other table /\
  (forall key,
     pref_retrieve other key (perform_create caller data now table).2
       = pref_retrieve other key table /\
     pref_retrieve other key (pref_update caller pk data now table).2
       = pref_retrieve other key table /\
     pref_retrieve other key (pref_destroy caller pk table).2
       = pref_retrieve other key table).
Proof.
  intros Hnd Hne.
  assert (pref_get_queryset other (perform_create caller data now table).2
          = pref_get_queryset other table) as Hc.
  { unfold perform_create, pref_get_queryset. case_decide; [done|]. simpl.
    rewrite filter_app, filter_cons_False, filter_nil, app_nil_r; [done|].
    simpl. congruence. }
  assert (pref_get_queryset other (pref_update caller pk data now table).2
          = pref_get_queryset other table) as Hu.
  { unfold pref_update, pref_get_queryset.
    destruct (get_object caller pk table) as [p|] eqn:E; [|done].
    apply get_object_Some in E as (Hp & Hpu & Hid).
    case_decide; [done|]. simpl. apply filter_fmap_same. intros q Hq.
    case_decide as Hq'; [|done].
    assert (q = p) as -> by (by apply (fmap_NoDup_inj pref_id table)).
    split; intros Ho; simpl in Ho; congruence. }
  assert (pref_get_queryset other (pref_destroy caller pk table).2
          = pref_get_queryset other table) as Hd.
  { unfold pref_destroy, pref_get_queryset.
    destruct (get_object caller pk table) as [p|] eqn:E; [|done].
    apply get_object_Some in E as (Hp & Hpu & Hid). simpl.
    apply filter_filter_keep. intros q Hq Ho Heq.
    assert (q = p) as -> by (by apply (fmap_NoDup_inj pref_id table)).
    congruence. }
  unfold pref_list, pref_retrieve, get_object. rewrite Hc, Hu, Hd. done.
Qed.

Lemma violates_unique_together_spec row table :
  violates_unique_together row table <->
  exists q, q ∈ table /\ pref_id q <> pref_id row /\
    pref_user q = pref_user row /\ pref_name q = pref_name row.
Proof. unfold violates_unique_together. by rewrite Exists_exists. Qed.

(** X11: an update of one's own row is refused with the uniqueness error
    exactly when another row of the caller has the name sent; sending the
    row's own name again is never refused. *)
Theorem update_name_conflict caller pk data now table :
  table_ok table ->
  forall p, p ∈ table -> pref_user p = caller -> pref_id p = pk ->
  (pref_update caller pk data now table = (IntegrityError, table) <->
   exists q, q ∈ table /\ pref_id q <> pk /\ pref_user q = caller /\
     pref_name q = v_name data) /\
  (v_name data = pref_name p ->
   exists row, (pref_update caller pk data now table).1 = Ok row).
Proof.
  intros [Hnd Huniq] p Hp Hu Hid.
  assert (get_object caller pk table = Some p) as Hget.
  { rewrite <-Hid. by apply get_object_own. }
  unfold pref_update. rewrite Hget.
  split.
  - case_decide as Hv.
    + split; [intros _|done].
      apply violates_unique_together_spec in Hv as (q & Hq & Hqid & Hqu & Hqn).
      simpl in *. exists q. by rewrite <-Hid, <-Hu.
    + split; [done|]. intros (q & Hq & Hqid & Hqu & Hqn). destruct Hv.
      apply violates_unique_together_spec. exists q. simpl.
      by rewrite Hid, Hu.
  - intros Hname. rewrite decide_False; [by eexists|].
    intros Hv.
    apply violates_unique_together_spec in Hv as (q & Hq & Hqid & Hqu & Hqn).
    simpl in *. apply Hqid. f_equal. apply Huniq; [done..|].
    split; [done|]. by rewrite Hqn.
Qed.

Global Instance created_desc_total : Total created_desc.
Proof. intros p q. unfold created_desc. destruct (total dt_le (pref_created_at q) (pref_created_at p)); auto. Qed.

Global Instance created_desc_trans : Transitive created_desc.
Proof. intros p q r. unfold created_desc. intros H1 H2. by transitivity (pref_created_at q). Qed.

Lemma date_TotalCompare : TotalCompare date_compare.
Proof.
  pose proof N_TotalCompare as HN.
  assert (TotalCompare
    (lex_pair N.compare (lex_pair N.compare N.compare))) as H.
  { repeat apply lex_pair_TotalCompare; exact HN. }
  pose (fields := fun d : date => (d_year d, (d_month d, d_day d))).
  split.
  - intros a b. etrans; [apply (compare_eq _ H (fields a) (fields b))|].
    split; [|by intros ->].
    destruct a, b. unfold fields; simpl. congruence.
  - intros a b. apply (compare_opp _ H (fields a) (fields b)).
  - intros a b c.
    apply (compare_trans _ H (fields a) (fields b) (fields c)).
Qed.

Lemma nullable_TotalCompare {A} nf (cmp : A -> A -> comparison) :
  TotalCompare cmp -> TotalCompare (nullable_compare nf cmp).
Proof.
  intros H. split.
  - intros [a|] [b|]; simpl.
    + rewrite (compare_eq _ H). split; congruence.
    + by destruct nf.
    + by destruct nf.
    + done.
  - intros [a|] [b|]; simpl; try by destruct nf.
    apply (compare_opp _ H).
  - intros [a|] [b|] [c|]; simpl; try (by destruct nf).
    apply (compare_trans _ H).
Qed.

Lemma pref_field_PreCompare nf f : PreCompare (pref_field_compare nf f).
Proof.
  destruct f; simpl.
  - apply (key_PreCompare N.compare pref_id N_TotalCompare).
  - apply (key_PreCompare N.compare pref_user N_TotalCompare).
  - apply (key_PreCompare String.compare pref_name string_TotalCompare).
  - apply (key_PreCompare String.compare pref_severity string_TotalCompare).
  - apply (key_PreCompare String.compare pref_source string_TotalCompare).
  - apply (key_PreCompare (nullable_compare nf date_compare) pref_date_from
             (nullable_TotalCompare nf _ date_TotalCompare)).
  - apply (key_PreCompare (nullable_compare nf date_compare) pref_date_to
             (nullable_TotalCompare nf _ date_TotalCompare)).
  - apply (key_PreCompare datetime_compare pref_created_at
             datetime_TotalCompare).
  - apply (key_PreCompare datetime_compare pref_updated_at
             datetime_TotalCompare).
Qed.

Lemma pref_ordering_PreCompare nf o : PreCompare (pref_ordering_compare nf o).
Proof.
  induction o as [|[desc f] o IH]; simpl.
  - by split.
  - apply lex_PreCompare; [|done]. destruct desc.
    + apply opp_PreCompare, pref_field_PreCompare.
    + apply pref_field_PreCompare.
Qed.

Global Instance pref_ordered_before_total nf o :
  Total (pref_ordered_before nf o).
Proof.
  intros a b. unfold pref_ordered_before.
  rewrite (pre_opp _ (pref_ordering_PreCompare nf o) a b).
  destruct (pref_ordering_compare nf o a b); simpl; auto.
Qed.

Global Instance pref_ordered_before_trans nf o :
  Transitive (pref_ordered_before nf o).
Proof. intros a b c. apply (pre_trans _ (pref_ordering_PreCompare nf o)). Qed.

Lemma pref_list_ordered_sorted nf o caller table :
  o <> [] ->
  StronglySorted (pref_ordered_before nf o)
    (pref_list_ordered nf o caller table).
Proof.
  destruct o as [|k o]; [done|]. intros _.
  apply StronglySorted_merge_sort; apply _.
Qed.

Lemma pref_list_ordered_Permutation nf o caller table :
  pref_list_ordered nf o caller table ≡ₚ
  filter (fun p => pref_user p = caller) table.
Proof.
  destruct o as [|k o]; apply merge_sort_Permutation.
Qed.

(** The first key of an ordering orders the whole list. *)
Lemma pref_ordered_before_first nf desc f o p q :
  pref_ordered_before nf ((desc, f) :: o) p q ->
  (if desc then CompOpp (pref_field_compare nf f p q)
   else pref_field_compare nf f p q) <> Gt.
Proof.
  unfold pref_ordered_before. simpl.
  by destruct (if desc then _ else _).
Qed.

(** X12: the list of a user's preferences holds each of the user's rows
    once per row of the table, whatever ordering the request asks for, and
    it holds every row the user can retrieve.  A request that asks for no
    ordering gets it newest first by creation time ([Meta.ordering]); a
    request that asks for an ordering gets it in that ordering: by the
    first key, ties by the next one, so by name when the request says
    "name" and newest first when it says "-created_at". *)
Theorem preference_list_order nulls_first caller table :
  (forall o, pref_list_ordered nulls_first o caller table ≡ₚ
             filter (fun p => pref_user p = caller) table) /\
  (forall o p, pref_retrieve caller (pref_id p) table = Ok p ->
     p ∈ pref_list_ordered nulls_first o caller table) /\
  pref_list_ordered nulls_first [] caller table = pref_list caller table /\
  StronglySorted created_desc (pref_list_ordered nulls_first [] caller table) /\
  (forall o, o <> [] ->
     StronglySorted (pref_ordered_before nulls_first o)
       (pref_list_ordered nulls_first o caller table)) /\
  (forall o,
     StronglySorted name_asc
       (pref_list_ordered nulls_first ((false, pf_name) :: o) caller table)) /\
  (forall o,
     StronglySorted created_desc
       (pref_list_ordered nulls_first ((true, pf_created_at) :: o)
          caller table)).
Proof.
  split; [intros o; apply pref_list_ordered_Permutation|].
  split.
  { intros o p. unfold pref_retrieve.
    destruct (get_object caller (pref_id p) table) as [x|] eqn:E; [|done].
    intros [= ->]. apply get_object_Some in E as (Hp & Hu & _).
    rewrite pref_list_ordered_Permutation, list_elem_of_filter. done. }
  split; [done|].
  split; [apply StronglySorted_merge_sort; apply _|].
  split; [intros o Ho; by apply pref_list_ordered_sorted|].
  split.
  - intros o.
    eapply StronglySorted_impl;
      [|apply (pref_list_ordered_sorted nulls_first); done].
    intros p q H. by apply pref_ordered_before_first in H.
  - intros o.
    eapply StronglySorted_impl;
      [|apply (pref_list_ordered_sorted nulls_first); done].
    intros p q H. apply pref_ordered_before_first in H.
    unfold created_desc, dt_le.
    rewrite (compare_opp _ datetime_TotalCompare (pref_created_at p)).
    exact H.
Qed.

(** Ordered by name, the first user's list is not newest first. *)
Example preference_list_by_name :
  pref_id <$> pref_list_ordered true [(false, pf_name)] 1 ex_prefs = [1; 3] /\
  pref_id <$> pref_list_ordered true [] 1 ex_prefs = [3; 1] /\
  ~ StronglySorted created_desc
      (pref_list_ordered true [(false, pf_name)] 1 ex_prefs).
Proof.
  split; [by vm_compute|]. split; [by vm_compute|].
  intros H. vm_compute in H.
  apply StronglySorted_inv in H as [_ H].
  apply Forall_inv in H. by vm_compute in H.
Qed.

(** *** Examples over the two users' table *)

Lemma ex_prefs_ok : table_ok ex_prefs.
Proof.
  apply table_ok_Forall. apply (bool_decide_unpack _). vm_compute. exact I.
Qed.

Lemma create_then_retrieve_witness :
  pref_retrieve 3 (pref_id ex_created) ex_prefs_created = Ok ex_created /\
  ex_created ∈ pref_list 3 ex_prefs_created /\
  length ex_prefs_created = S (length ex_prefs) /\
  pref_user ex_created = 3 /\
  pref_name ex_created = v_name ex_data /\
  pref_severity ex_created = v_severity ex_data /\
  pref_source ex_created = v_source ex_data /\
  pref_date_from ex_created = v_date_from ex_data /\
  pref_date_to ex_created = v_date_to ex_data /\
  (forall q, q ∈ ex_prefs ->
     q ∈ ex_prefs_created /\ pref_id q <> pref_id ex_created).
Proof.
  apply (create_then_retrieve 3 ex_data ex_now ex_prefs ex_created
           ex_prefs_created).
  vm_compute. reflexivity.
Defined.

Lemma destroy_then_gone_witness :
  (exists p, p ∈ ex_prefs /\ pref_id p = 3 /\ pref_user p = 1) /\
  (forall q, q ∈ ex_prefs_destroyed <-> q ∈ ex_prefs /\ pref_id q <> 3) /\
  (forall anyone, pref_retrieve anyone 3 ex_prefs_destroyed = Http404) /\
  pref_destroy 1 3 ex_prefs_destroyed = (Http404, ex_prefs_destroyed) /\
  (NoDup (pref_id <$> ex_prefs) ->
   length ex_prefs = S (length ex_prefs_destroyed)).
Proof.
  apply (destroy_then_gone 1 3 ex_prefs ex_prefs_destroyed).
  vm_compute. reflexivity.
Defined.

Lemma update_then_retrieve_witness :
  (exists old, old ∈ ex_prefs /\ pref_id old = 3 /\ pref_user old = 1 /\
     pref_created_at ex_updated = pref_created_at old) /\
  pref_id ex_updated = 3 /\ pref_user ex_updated = 1 /\
  pref_updated_at ex_updated = ex_now /\
  pref_name ex_updated = v_name ex_rename /\
  pref_severity ex_updated = v_severity ex_rename /\
  pref_source ex_updated = v_source ex_rename /\
  pref_date_from ex_updated = v_date_from ex_rename /\
  pref_date_to ex_updated = v_date_to ex_rename /\
  pref_retrieve 1 3 ex_prefs_updated = Ok ex_updated /\
  length ex_prefs_updated = length ex_prefs /\
  (forall q, q ∈ ex_prefs_updated <->
     q = ex_updated \/ (q ∈ ex_prefs /\ pref_id q <> 3)).
Proof.
  apply (update_then_retrieve 1 3 ex_rename ex_now ex_prefs ex_updated
           ex_prefs_updated).
  - apply (bool_decide_unpack _). vm_compute. exact I.
  - vm_compute. reflexivity.
Defined.

Lemma mutations_isolated_witness :
  pref_list 2 (perform_create 1 ex_rename ex_now ex_prefs).2
    = pref_list 2 ex_prefs /\
  pref_list 2 (pref_update 1 3 ex_rename ex_now ex_prefs).2
    = pref_list 2 ex_prefs /\
  pref_list 2 (pref_destroy 1 3 ex_prefs).2 = pref_list 2 ex_prefs /\
  (forall key,
     pref_retrieve 2 key (perform_create 1 ex_rename ex_now ex_prefs).2
       = pref_retrieve 2 key ex_prefs /\
     pref_retrieve 2 key (pref_update 1 3 ex_rename ex_now ex_prefs).2
       = pref_retrieve 2 key ex_prefs /\
     pref_retrieve 2 key (pref_destroy 1 3 ex_prefs).2
       = pref_retrieve 2 key ex_prefs).
Proof.
  apply (mutations_isolated 1 2 3 ex_rename ex_now ex_prefs).
  - apply (bool_decide_unpack _). vm_compute. exact I.
  - discriminate.
Defined.

Lemma update_name_conflict_witness :
  (pref_update 1 3 ex_data ex_now ex_prefs = (IntegrityError, ex_prefs) <->
   exists q, q ∈ ex_prefs /\ pref_id q <> 3 /\ pref_user q = 1 /\
     pref_name q = v_name ex_data) /\
  (v_name ex_data = pref_name ex_own_pref ->
   exists row, (pref_update 1 3 ex_data ex_now ex_prefs).1 = Ok row).
Proof.
  apply (update_name_conflict 1 3 ex_data ex_now ex_prefs ex_prefs_ok
           ex_own_pref).
  - apply (bool_decide_unpack _). vm_compute. exact I.
  - reflexivity.
  - reflexivity.
Defined.

(** ** Search terms *)

Lemma forallb_term_matches_lower terms l :
  forallb (fun t => term_matches t l) terms =
  forallb (fun s => existsb (fun field => contains s (lower_string (field l)))
                      search_fields)
          (lower_string <$> terms).
Proof.
  induction terms as [|t terms IH]; [done|].
  rewrite fmap_cons. cbn [forallb]. by rewrite IH.
Qed.

Lemma same_text_lower terms terms' :
  Forall2 same_text terms terms' ->
  lower_string <$> terms = lower_string <$> terms'.
Proof.
  induction 1 as [|s t terms terms' Hst _ IH]; [done|].
  rewrite !fmap_cons, IH. f_equal. by apply lower_string_same_text.
Qed.

(** X13: search terms that are equal letter case aside, capitals A to Z
    against their small letters, give the same listing; a further term
    never adds a row; and the rows listed for two lists of terms together
    are the rows listed for each of them. *)
Theorem search_terms request table :
  (forall terms,
     Forall2 same_text terms (q_search (filter_params request)) ->
     filtered (with_search terms request) table = filtered request table) /\
  (forall term l,
     l ∈ filtered
           (with_search (term :: q_search (filter_params request)) request)
           table ->
     l ∈ filtered request table) /\
  (forall terms l,
     l ∈ filtered
           (with_search (q_search (filter_params request) ++ terms) request)
           table <->
     l ∈ filtered request table /\
     l ∈ filtered (with_search terms request) table).
Proof.
  split; [|split].
  - intros terms Hsame. apply same_text_lower in Hsame.
    rewrite !filtered_eq. f_equal.
    apply list_filter_iff. intros l. unfold selected, with_search.
    cbn [filter_params q_severity q_source q_date_from q_date_to q_search].
    by rewrite !forallb_term_matches_lower, Hsame.
  - intros term l. rewrite !search_every_term. unfold with_search.
    cbn [filter_params q_search]. intros (Hl & Hterms & Hf & Hd).
    split; [done|]. split; [|done].
    intros t Ht. apply Hterms. by right.
  - intros terms l. rewrite !search_every_term. unfold with_search.
    cbn [filter_params q_search]. split.
    + intros (Hl & Hterms & Hf & Hd).
      split; (split; [done|]); (split; [|done]); intros t Ht;
        apply Hterms, elem_of_app; auto.
    + intros [(Hl & H1 & Hf & Hd) (_ & H2 & _)].
      split; [done|]. split; [|done].
      intros t Ht. apply elem_of_app in Ht as [Ht|Ht]; auto.
Qed.

Example search_terms_case :
  filtered (ex_search ["ERR"]) ex_table = filtered (ex_search ["err"]) ex_table /\
  filtered (ex_search ["err"]) ex_table <> [].
Proof. by vm_compute. Qed.

(** ** The calendar *)

Section calendar.
Local Open Scope Z_scope.

Lemma is_leap_spec y :
  is_leap y = true <-> y mod 4 = 0 /\ (y mod 100 <> 0 \/ y mod 400 = 0).
Proof.
  unfold is_leap.
  rewrite andb_true_iff, orb_true_iff, negb_true_iff, !Z.eqb_eq, Z.eqb_neq.
  done.
Qed.

Lemma days_before_year_succ y :
  1 <= y ->
  days_before_year (y + 1) =
  days_before_year y + 365 + (if is_leap y then 1 else 0).
Proof.
  intros Hy. unfold days_before_year.
  replace (y + 1 - 1) with y by lia.
  destruct (is_leap y) eqn:E.
  - apply is_leap_spec in E. Z.div_mod_to_equations. lia.
  - assert (~ (y mod 4 = 0 /\ (y mod 100 <> 0 \/ y mod 400 = 0))) as Hn.
    { rewrite <-is_leap_spec. by rewrite E. }
    Z.div_mod_to_equations. lia.
Qed.

Lemma days_before_year_mono y y' :
  y <= y' -> days_before_year y <= days_before_year y'.
Proof. intros H. unfold days_before_year. Z.div_mod_to_equations. lia. Qed.

Ltac month_cases m :=
  let H := fresh in
  assert (m = 1 \/ m = 2 \/ m = 3 \/ m = 4 \/ m = 5 \/ m = 6 \/ m = 7 \/
          m = 8 \/ m = 9 \/ m = 10 \/ m = 11 \/ m = 12) as H by lia;
  destruct H as [->|[->|[->|[->|[->|[->|[->|[->|[->|[->|[->| ->]]]]]]]]]]].

Lemma days_before_month_succ y m :
  1 <= m <= 11 ->
  days_before_month y (m + 1) = days_before_month y m + days_in_month y m.
Proof.
  intros Hm. unfold days_before_month, days_in_month.
  month_cases m; try lia; destruct (is_leap y); reflexivity.
Qed.

Lemma days_in_month_pos y m : 1 <= m <= 12 -> 28 <= days_in_month y m <= 31.
Proof.
  intros Hm. unfold days_in_month.
  month_cases m; destruct (is_leap y); vm_compute; intuition congruence.
Qed.

Lemma days_before_month_mono y m m' :
  1 <= m -> m <= m' -> m' <= 12 ->
  days_before_month y m <= days_before_month y m'.
Proof.
  intros H1 H2 H3.
  replace m' with (m + Z.of_nat (Z.to_nat (m' - m))) by lia.
  assert (m + Z.of_nat (Z.to_nat (m' - m)) <= 12) as Hle by lia.
  induction (Z.to_nat (m' - m)) as [|k IH].
  - replace (m + Z.of_nat 0) with m by lia. lia.
  - replace (m + Z.of_nat (S k)) with (m + Z.of_nat k + 1) in * by lia.
    rewrite days_before_month_succ by lia.
    pose proof (days_in_month_pos y (m + Z.of_nat k)). lia.
Qed.

Lemma days_before_month_nonneg y m : 1 <= m <= 12 -> 0 <= days_before_month y m.
Proof.
  intros Hm. unfold days_before_month.
  month_cases m; destruct (is_leap y); vm_compute; intuition congruence.
Qed.

Lemma days_in_year y m :
  1 <= m <= 12 ->
  days_before_month y m + days_in_month y m <=
  365 + (if is_leap y then 1 else 0).
Proof.
  intros Hm. unfold days_before_month, days_in_month.
  month_cases m; destruct (is_leap y); vm_compute; intuition congruence.
Qed.

(** The day number grows with the date. *)
Lemma ymd2ord_lt y m d y' m' d' :
  valid_ymd y m d -> valid_ymd y' m' d' ->
  y < y' \/ (y = y' /\ (m < m' \/ (m = m' /\ d < d'))) ->
  ymd2ord y m d < ymd2ord y' m' d'.
Proof.
  intros (Hy & Hm & Hd) (Hy' & Hm' & Hd') Hlt. unfold ymd2ord.
  destruct Hlt as [Hlt | [<- [Hlt | [<- Hlt]]]].
  - pose proof (days_before_year_succ y ltac:(lia)).
    pose proof (days_before_year_mono (y + 1) y' ltac:(lia)).
    pose proof (days_in_year y m Hm).
    pose proof (days_before_month_nonneg y' m' Hm'). lia.
  - pose proof (days_before_month_succ y m ltac:(lia)).
    pose proof (days_before_month_mono y (m + 1) m' ltac:(lia) ltac:(lia)
                  ltac:(lia)). lia.
  - lia.
Qed.

Lemma ymd2ord_pos y m d : valid_ymd y m d -> 1 <= ymd2ord y m d <= MAXORDINAL.
Proof.
  intros (Hy & Hm & Hd). unfold ymd2ord. split.
  - pose proof (days_before_year_mono 1 y ltac:(lia)).
    pose proof (days_before_month_nonneg y m Hm).
    change (days_before_year 1) with 0 in *. lia.
  - pose proof (days_before_year_succ y ltac:(lia)).
    pose proof (days_before_year_mono (y + 1) 10000 ltac:(lia)).
    pose proof (days_in_year y m Hm).
    change (days_before_year 10000) with 3652059 in *.
    change MAXORDINAL with 3652059. lia.
Qed.

Lemma days_before_year_cycles a b c e :
  0 <= a -> 0 <= b <= 3 -> 0 <= c <= 24 -> 0 <= e <= 3 ->
  days_before_year (a * 400 + 1 + b * 100 + c * 4 + e) =
  a * 146097 + b * 36524 + c * 1461 + e * 365.
Proof.
  intros Ha Hb Hc He. unfold days_before_year.
  replace (a * 400 + 1 + b * 100 + c * 4 + e - 1)
    with (a * 400 + b * 100 + c * 4 + e) by lia.
  Z.div_mod_to_equations. lia.
Qed.

Lemma is_leap_cycles a b c e :
  0 <= a -> 0 <= b <= 3 -> 0 <= c <= 24 -> 0 <= e <= 3 ->
  is_leap (a * 400 + 1 + b * 100 + c * 4 + e) =
  (e =? 3) && (negb (c =? 24) || (b =? 3)).
Proof.
  intros Ha Hb Hc He.
  apply eq_true_iff_eq. rewrite is_leap_spec.
  rewrite andb_true_iff, orb_true_iff, negb_true_iff, !Z.eqb_eq, Z.eqb_neq.
  Z.div_mod_to_equations. lia.
Qed.

Lemma month_day_ok_year :
  Forall (fun n => month_day_ok false n /\ month_day_ok true n)
         (Z.of_nat <$> seq 0 365).
Proof. apply (bool_decide_unpack _). vm_compute. exact I. Qed.

Lemma month_day_spec leap n : 0 <= n <= 364 -> month_day_ok leap n.
Proof.
  intros Hn. pose proof month_day_ok_year as H.
  rewrite Forall_forall in H. destruct (H n) as [Hf Ht].
  - apply list_elem_of_fmap. exists (Z.to_nat n). split; [lia|].
    apply elem_of_seq. lia.
  - by destruct leap.
Qed.

Lemma december y :
  days_in_month y 12 = 31 /\
  days_before_month y 12 = 334 + (if is_leap y then 1 else 0).
Proof. done. Qed.

Lemma ord2ymd_spec n :
  1 <= n <= MAXORDINAL ->
  exists y m d, ord2ymd n = (y, m, d) /\ valid_ymd y m d /\ ymd2ord y m d = n.
Proof.
  intros Hn. unfold ord2ymd. cbv zeta.
  change DI400Y with 146097. change DI100Y with 36524. change DI4Y with 1461.
  change MAXORDINAL with 3652059 in Hn.
  set (a := (n - 1) / 146097).
  set (r1 := (n - 1) mod 146097).
  set (b := r1 / 36524). set (r2 := r1 mod 36524).
  set (c := r2 / 1461). set (r3 := r2 mod 1461).
  set (e := r3 / 365). set (r4 := r3 mod 365).
  assert (n - 1 = 146097 * a + r1 /\ 0 <= r1 < 146097) as [Ha Hr1].
  { unfold a, r1. Z.div_mod_to_equations. lia. }
  assert (r1 = 36524 * b + r2 /\ 0 <= r2 < 36524) as [Hb Hr2].
  { unfold b, r2. Z.div_mod_to_equations. lia. }
  assert (r2 = 1461 * c + r3 /\ 0 <= r3 < 1461) as [Hc Hr3].
  { unfold c, r3. Z.div_mod_to_equations. lia. }
  assert (r3 = 365 * e + r4 /\ 0 <= r4 < 365) as [He Hr4].
  { unfold e, r4. Z.div_mod_to_equations. lia. }
  clearbody a r1 b r2 c r3 e r4.
  assert (0 <= a <= 24 /\ 0 <= b <= 4 /\ 0 <= c <= 24 /\ 0 <= e <= 4)
    as (Ha' & Hb' & Hc' & He') by lia.
  destruct (Z.eqb_spec e 4) as [->|Hne4]; simpl orb.
  { (* the last day of a leap year that is not the last of a century *)
    exists (a * 400 + 1 + b * 100 + c * 4 + 4 - 1), 12, 31.
    split; [done|].
    assert (b <= 3 /\ c <= 23) as [Hb3 Hc23] by lia.
    replace (a * 400 + 1 + b * 100 + c * 4 + 4 - 1)
      with (a * 400 + 1 + b * 100 + c * 4 + 3) by lia.
    assert (is_leap (a * 400 + 1 + b * 100 + c * 4 + 3) = true) as Hleap.
    { rewrite is_leap_cycles by lia.
      destruct (Z.eqb_spec c 24); [lia|done]. }
    split; [|].
    - split; [lia|]. split; [lia|].
      match goal with |- _ <= _ <= days_in_month ?y _ =>
        pose proof (proj1 (december y)) end. lia.
    - unfold ymd2ord.
      match goal with |- _ + days_before_month ?y _ + _ = _ =>
        pose proof (proj2 (december y)) as Hdec; rewrite Hleap in Hdec end.
      rewrite days_before_year_cycles by lia. lia. }
  destruct (Z.eqb_spec b 4) as [->|Hnb4].
  { (* the last day of a year that ends four centuries *)
    assert (c = 0 /\ e = 0 /\ r4 = 0) as (-> & -> & ->) by lia.
    exists (a * 400 + 1 + 3 * 100 + 24 * 4 + 3), 12, 31.
    split; [f_equal; f_equal; lia|].
    assert (is_leap (a * 400 + 1 + 3 * 100 + 24 * 4 + 3) = true) as Hleap.
    { by rewrite is_leap_cycles by lia. }
    split.
    - split; [lia|]. split; [lia|].
      match goal with |- _ <= _ <= days_in_month ?y _ =>
        pose proof (proj1 (december y)) end. lia.
    - unfold ymd2ord.
      match goal with |- _ + days_before_month ?y _ + _ = _ =>
        pose proof (proj2 (december y)) as Hdec; rewrite Hleap in Hdec end.
      rewrite days_before_year_cycles by lia. lia. }
  assert (b <= 3 /\ e <= 3) as [Hb3 He3] by lia.
  set (leapyear := (e =? 3) && (negb (c =? 24) || (b =? 3))).
  set (y := a * 400 + 1 + b * 100 + c * 4 + e).
  assert (is_leap y = leapyear) as Hleap.
  { unfold y, leapyear. apply is_leap_cycles; lia. }
  pose proof (month_day_spec leapyear r4 ltac:(lia)) as Hmd.
  unfold month_day_ok, month_day in Hmd. cbv zeta in Hmd. simpl orb.
  match goal with
  | |- exists y m d, (if ?cond then _ else _) = _ /\ _ =>
      destruct cond
  end.
  - eexists _, _, _. split; [reflexivity|].
    destruct Hmd as (Hm & Hd & Hsum).
    split.
    + split; [lia|]. split; [done|]. unfold days_in_month. by rewrite Hleap.
    + unfold ymd2ord, days_before_month. rewrite Hleap.
      unfold y. rewrite days_before_year_cycles by lia. lia.
  - eexists _, _, _. split; [reflexivity|].
    destruct Hmd as (Hm & Hd & Hsum).
    split.
    + split; [lia|]. split; [done|]. unfold days_in_month. by rewrite Hleap.
    + unfold ymd2ord, days_before_month. rewrite Hleap.
      unfold y. rewrite days_before_year_cycles by lia. lia.
Qed.

Lemma td_round_trip us : td_to_microseconds (td_of_microseconds us) = us.
Proof.
  unfold td_to_microseconds, td_of_microseconds. simpl.
  Z.div_mod_to_equations. lia.
Qed.

Lemma calendar_valid_ymd t :
  calendar_datetime t ->
  valid_ymd (Z.of_N (year t)) (Z.of_N (month t)) (Z.of_N (day t)).
Proof.
  intros [(Hy & Hm & Hd & _) Hdim]. unfold valid_ymd.
  change 9999%N with (Z.to_N 9999) in Hy. lia.
Qed.

Lemma to_microseconds_lt a b :
  calendar_datetime a -> calendar_datetime b -> dt_lt a b ->
  to_microseconds a < to_microseconds b.
Proof.
  intros Ha Hb Hlt.
  pose proof (calendar_valid_ymd a Ha) as Hya.
  pose proof (calendar_valid_ymd b Hb) as Hyb.
  destruct Ha as [(_ & _ & _ & Hah & Ham & Has & Hau) _].
  destruct Hb as [(_ & _ & _ & Hbh & Hbm & Hbs & Hbu) _].
  unfold dt_lt, datetime_compare in Hlt. unfold to_microseconds, toordinal.
  cbn [dt_date d_year d_month d_day].
  destruct (N.compare_spec (year a) (year b)) as [Ey|Ey|Ey]; simpl in Hlt;
    [|pose proof (ymd2ord_lt _ _ _ _ _ _ Hya Hyb ltac:(lia)); lia|done].
  destruct (N.compare_spec (month a) (month b)) as [Em|Em|Em]; simpl in Hlt;
    [|pose proof (ymd2ord_lt _ _ _ _ _ _ Hya Hyb ltac:(lia)); lia|done].
  destruct (N.compare_spec (day a) (day b)) as [Ed|Ed|Ed]; simpl in Hlt;
    [|pose proof (ymd2ord_lt _ _ _ _ _ _ Hya Hyb ltac:(lia)); lia|done].
  rewrite Ey, Em, Ed.
  destruct (N.compare_spec (hour a) (hour b)) as [Eh|Eh|Eh]; simpl in Hlt;
    [|lia|done].
  destruct (N.compare_spec (minute a) (minute b)) as [Emi|Emi|Emi];
    simpl in Hlt; [|lia|done].
  destruct (N.compare_spec (second a) (second b)) as [Es|Es|Es];
    simpl in Hlt; [|lia|done].
  rewrite N.compare_lt_iff in Hlt. lia.
Qed.

Lemma to_microseconds_le a b :
  calendar_datetime a -> calendar_datetime b ->
  to_microseconds a <= to_microseconds b <-> dt_le a b.
Proof.
  intros Ha Hb. split.
  - intros Hle Hgt.
    assert (dt_lt b a) as Hlt.
    { unfold dt_lt. rewrite (compare_opp _ datetime_TotalCompare a b), Hgt.
      done. }
    pose proof (to_microseconds_lt b a Hb Ha Hlt). lia.
  - intros Hle. destruct (decide (a = b)) as [->|Hne]; [lia|].
    pose proof (to_microseconds_lt a b Ha Hb (dt_le_neq_lt a b Hle Hne)). lia.
Qed.

Lemma datetime_add_spec t other :
  calendar_datetime t ->
  let us := to_microseconds t + td_to_microseconds other in
  (86400000000 <= us < (MAXORDINAL + 1) * 86400000000 ->
   exists r, datetime_add t other = Some r /\ calendar_datetime r /\
     to_microseconds r = us) /\
  (~ 86400000000 <= us < (MAXORDINAL + 1) * 86400000000 ->
   datetime_add t other = None).
Proof.
  intros Ht us. unfold datetime_add, td_add, timedelta_of.
  rewrite td_round_trip.
  assert (to_microseconds t + td_to_microseconds other = us) as Hus by done.
  unfold to_microseconds in Hus.
  match goal with
  | |- context [td_of_microseconds ?x] => replace x with us by lia
  end.
  clearbody us. unfold td_of_microseconds. cbn [td_days td_seconds td_microseconds].
  change MAXORDINAL with 3652059 in *.
  set (days := us / 86400000000).
  set (secs := us mod 86400000000 / 1000000).
  set (micro := us mod 1000000).
  assert (us = (days * 86400 + secs) * 1000000 + micro /\
          0 <= secs < 86400 /\ 0 <= micro < 1000000) as (Hsplit & Hs & Hm).
  { unfold days, secs, micro. Z.div_mod_to_equations. lia. }
  clearbody days secs micro. split.
  - intros Hrange. assert (1 <= days <= 3652059) as Hdays by lia.
    rewrite (proj2 (andb_true_iff _ _)) by (split; lia).
    destruct (ord2ymd_spec days Hdays) as (y & m & d & Hymd & Hvalid & Hord).
    eexists. split; [reflexivity|].
    unfold fromordinal. rewrite Hymd. cbn [d_year d_month d_day].
    destruct Hvalid as (Hy & Hmo & Hd).
    assert (0 <= secs / 3600 < 24 /\ 0 <= secs mod 3600 / 60 < 60 /\
            0 <= secs mod 3600 mod 60 < 60 /\
            secs = (secs / 3600 * 60 + secs mod 3600 / 60) * 60 +
                   secs mod 3600 mod 60) as (Hh & Hmi & Hse & Hsecs).
    { Z.div_mod_to_equations. lia. }
    split.
    + split.
      * unfold valid_datetime. cbn.
        pose proof (days_in_month_pos y m Hmo).
        change 9999%N with (Z.to_N 9999). lia.
      * cbn. rewrite !Z2N.id by lia. lia.
    + unfold to_microseconds, toordinal. cbn. rewrite !Z2N.id by lia.
      rewrite Hord. lia.
  - intros Hrange.
    destruct ((0 <? days) && (days <=? 3652059)) eqn:E; [|done].
    apply andb_true_iff in E as [E1 E2]. lia.
Qed.

Lemma to_microseconds_range t :
  calendar_datetime t ->
  86400000000 <= to_microseconds t < (MAXORDINAL + 1) * 86400000000.
Proof.
  intros Ht. pose proof (ymd2ord_pos _ _ _ (calendar_valid_ymd t Ht)) as Ho.
  destruct Ht as [(_ & _ & _ & Hh & Hm & Hs & Hu) _].
  unfold to_microseconds, toordinal. cbn [dt_date d_year d_month d_day].
  change MAXORDINAL with 3652059 in *. lia.
Qed.

(** Taking a duration off a date-time: the result is that much earlier,
    unless it would fall before the first day of the calendar. *)
Lemma datetime_sub_spec t us :
  calendar_datetime t -> 0 <= us ->
  (86400000000 <= to_microseconds t - us ->
   exists r, datetime_sub t (td_of_microseconds us) = Some r /\
     calendar_datetime r /\ to_microseconds r = to_microseconds t - us) /\
  (to_microseconds t - us < 86400000000 ->
   datetime_sub t (td_of_microseconds us) = None).
Proof.
  intros Ht Hus. pose proof (to_microseconds_range t Ht) as Hr.
  unfold datetime_sub.
  destruct (datetime_add_spec t (td_neg (td_of_microseconds us)) Ht)
    as [Hsome Hnone].
  unfold td_neg in *. rewrite !td_round_trip in *.
  replace (to_microseconds t + - us) with (to_microseconds t - us) in *
    by lia.
  split; intros Hlow.
  - apply Hsome. lia.
  - apply Hnone. lia.
Qed.

Lemma first_days_calendar d :
  (1 <= d <= 31)%N -> calendar_datetime (mkdatetime 1 1 d 0 0 0 0).
Proof.
  intros Hd. split.
  - unfold valid_datetime.
    cbn [year month day hour minute second microsecond]. lia.
  - cbn [year month day].
    change (days_in_month (Z.of_N 1) (Z.of_N 1)) with 31. lia.
Qed.

Lemma to_microseconds_first_days d :
  to_microseconds (mkdatetime 1 1 d 0 0 0 0) = Z.of_N d * 86400000000.
Proof.
  unfold to_microseconds, toordinal, ymd2ord. cbn [dt_date d_year d_month d_day
    hour minute second microsecond year month day].
  change (days_before_year (Z.of_N 1)) with 0.
  change (days_before_month (Z.of_N 1) (Z.of_N 1)) with 0. lia.
Qed.

End calendar.

(** ** The demo data generator: logs *)

Lemma random_randint_range a b r :
  a <= b -> a <= random_randint a b r <= b.
Proof.
  intros Hab. unfold random_randint.
  pose proof (N.mod_lt r (b - a + 1) ltac:(lia)).
  set (m := r mod (b - a + 1)) in *. lia.
Qed.

Lemma random_choice_Some {A} (seq : list A) r :
  seq <> [] -> exists x, random_choice seq r = Some x /\ x ∈ seq.
Proof.
  intros Hne. unfold random_choice.
  assert (N.to_nat (r mod N.of_nat (length seq)) < length seq)%nat as Hlt.
  { destruct seq; [done|]. 
    pose proof (N.mod_lt r (N.of_nat (length (a :: seq)))) as H.
    simpl length in *.
    set (m := r mod N.of_nat (S (length seq))) in *. lia. }
  apply lookup_lt_is_Some in Hlt as [x Hx]. exists x. split; [done|].
  by apply list_elem_of_lookup_2 in Hx.
Qed.

Lemma random_choice_elem_of {A} (seq : list A) r x :
  random_choice seq r = Some x -> x ∈ seq.
Proof. unfold random_choice. apply list_elem_of_lookup_2. Qed.

Lemma to_microseconds_micro t :
  calendar_datetime t ->
  (to_microseconds t mod 1000000)%Z = Z.of_N (microsecond t).
Proof.
  intros [(_ & _ & _ & _ & _ & _ & Hu) _]. unfold to_microseconds.
  Z.div_mod_to_equations. lia.
Qed.

(** A duration of whole days, hours, minutes and seconds, taken off. *)
Lemma datetime_sub_earlier now days hours minutes seconds bound :
  calendar_datetime now ->
  (0 <= days)%Z -> (0 <= hours)%Z -> (0 <= minutes)%Z -> (0 <= seconds)%Z ->
  let us := ((((days * 24 + hours) * 60 + minutes) * 60 + seconds)
             * 1000000)%Z in
  (us <= Z.of_N bound * 86400000000)%Z -> (bound <= 30)%N ->
  dt_le (mkdatetime 1 1 (bound + 1) 0 0 0 0) now ->
  exists ts,
    datetime_sub now (timedelta_of days hours minutes seconds 0) = Some ts /\
    calendar_datetime ts /\
    to_microseconds ts = (to_microseconds now - us)%Z.
Proof.
  intros Hnow Hd Hh Hm Hs us Hus Hbound Hfirst.
  pose proof (first_days_calendar (bound + 1) ltac:(lia)) as Hc.
  apply (to_microseconds_le _ _ Hc Hnow) in Hfirst.
  rewrite to_microseconds_first_days in Hfirst.
  unfold timedelta_of. rewrite Z.add_0_r. fold us.
  apply datetime_sub_spec; [done|unfold us; lia|lia].
Qed.

Lemma lookup_key_Some {V} key (items : list (string * V)) :
  key ∈ items.*1 -> exists v, lookup_key key items = Some v.
Proof.
  induction items as [|[k v] items IH]; intros Hin.
  - by apply not_elem_of_nil in Hin.
  - simpl. case_decide; [by eexists|]. apply IH.
    rewrite fmap_cons in Hin. apply elem_of_cons in Hin as [->|Hin]; done.
Qed.

Lemma weighted_severities_keys severity :
  severity ∈ weighted_severities -> severity ∈ SEVERITY_CHOICES.*1.
Proof.
  intros Hin.
  assert (Forall (fun s => s ∈ SEVERITY_CHOICES.*1) weighted_severities) as H.
  { apply (bool_decide_unpack _). vm_compute. exact I. }
  rewrite Forall_forall in H. by apply H.
Qed.

Lemma LOG_MESSAGES_nonempty severity messages :
  lookup_key severity LOG_MESSAGES = Some messages -> messages <> [].
Proof.
  unfold LOG_MESSAGES. simpl.
  repeat (case_decide; [by intros [= <-]|]). done.
Qed.

Lemma days_ago_choices r :
  random_choices1 (N.of_nat <$> seq 0 30)
    ((fun i => N.max (30 - i) 1) <$> (N.of_nat <$> seq 0 30)) r =
  random_choice (N.of_nat <$> seq 0 30) r.
Proof.
  unfold random_choices1. rewrite decide_True by (by rewrite !length_fmap).
  f_equal.
Qed.

Lemma bind_Some {A B} (f : A -> option B) (x : A) : Some x ≫= f = f x.
Proof. reflexivity. Qed.

Lemma new_log_generated now d :
  calendar_datetime now -> dt_le (mkdatetime 1 1 31 0 0 0 0) now ->
  exists log, new_log now d = Some log /\ generated now log.
Proof.
  intros Hnow Hfirst. unfold new_log. cbv zeta. rewrite days_ago_choices.
  destruct (random_choice_Some (N.of_nat <$> seq 0 30) (r_days d))
    as (days_ago & -> & Hdays); [done|].
  apply list_elem_of_fmap in Hdays as (k & -> & Hk).
  apply elem_of_seq in Hk.
  pose proof (random_randint_range 0 23 (r_hours d) ltac:(lia)) as Hh.
  pose proof (random_randint_range 0 59 (r_minutes d) ltac:(lia)) as Hm.
  pose proof (random_randint_range 0 59 (r_seconds d) ltac:(lia)) as Hs.
  set (hours_ago := random_randint 0 23 (r_hours d)) in *.
  set (minutes_ago := random_randint 0 59 (r_minutes d)) in *.
  set (seconds_ago := random_randint 0 59 (r_seconds d)) in *.
  clearbody hours_ago minutes_ago seconds_ago.
  rewrite bind_Some; cbv beta zeta.
  destruct (datetime_sub_earlier now (Z.of_N (N.of_nat k)) (Z.of_N hours_ago)
              (Z.of_N minutes_ago) (Z.of_N seconds_ago) 30 Hnow
              ltac:(lia) ltac:(lia) ltac:(lia) ltac:(lia) ltac:(lia)
              ltac:(lia) Hfirst)
    as (ts & -> & Hts & Hus).
  rewrite bind_Some; cbv beta zeta.
  destruct (random_choice_Some weighted_severities (r_severity d))
    as (severity & -> & Hsev); [done|].
  apply weighted_severities_keys in Hsev.
  rewrite bind_Some; cbv beta zeta.
  destruct (random_choice_Some SOURCES (r_source d))
    as (source & -> & Hsrc); [done|].
  rewrite bind_Some; cbv beta zeta.
  destruct (lookup_key_Some severity LOG_MESSAGES Hsev) as (messages & Hmsgs).
  rewrite Hmsgs. rewrite bind_Some; cbv beta zeta.
  destruct (random_choice_Some messages (r_message d))
    as (base & -> & Hbase); [by eapply LOG_MESSAGES_nonempty|].
  rewrite bind_Some; cbv beta zeta.
  assert (generated now (mkNewLog ts base severity source) /\
          forall context,
            generated now
              (mkNewLog ts (base +:+ " - " +:+ context) severity source))
    as [Hplain Hcontext].
  { assert (dt_le ts now) as Hle.
    { apply (to_microseconds_le _ _ Hts Hnow). lia. }
    assert (exists start,
              datetime_sub now (timedelta_of 30 0 0 0 0) = Some start /\
              dt_lt start ts) as Hwin.
    { destruct (datetime_sub_earlier now 30 0 0 0 30 Hnow
                  ltac:(lia) ltac:(lia) ltac:(lia) ltac:(lia) ltac:(lia)
                  ltac:(lia) Hfirst)
        as (start & Hstart & Hcal & Hus').
      exists start. split; [done|].
      apply dt_le_neq_lt.
      - apply (to_microseconds_le _ _ Hcal Hts). lia.
      - intros ->. lia. }
    assert (microsecond ts = microsecond now) as Hmicro.
    { pose proof (to_microseconds_micro ts Hts) as H1.
      pose proof (to_microseconds_micro now Hnow) as H2.
      rewrite Hus in H1. revert H1 H2. Z.div_mod_to_equations. lia. }
    split; [|intros context];
      (repeat (split; [done|]); exists messages, base;
       split; [done|]; split; [done|]).
    - by left.
    - right. by exists context. }
  destruct (r_context d); [|eexists; split; [reflexivity|exact Hplain]].
  match goal with
  | |- context [random_choice ?contexts (r_which d)] =>
      destruct (random_choice_Some contexts (r_which d))
        as (context & -> & _); [discriminate|]
  end.
  rewrite bind_Some; cbv beta zeta. eexists. split; [reflexivity|apply Hcontext].
Qed.

Lemma mapM_total {A B} (f : A -> option B) (P : B -> Prop) (l : list A) :
  (forall x, exists y, f x = Some y /\ P y) ->
  exists k, mapM f l = Some k /\ length k = length l /\ Forall P k.
Proof.
  intros Hf. induction l as [|x l (k & Hk & Hlen & HP)].
  - exists []. by split.
  - destruct (Hf x) as (y & Hy & Py). exists (y :: k).
    split; [|split; [simpl; by rewrite Hlen | by constructor]].
    change (mapM f (x :: l)) with
      (f x ≫= fun y => mapM f l ≫= fun k => mret (y :: k)).
    rewrite Hy, bind_Some, Hk, bind_Some. done.
Qed.

Lemma next_log_id_above table l :
  l ∈ table -> log_id l < next_log_id table.
Proof.
  unfold next_log_id. induction table as [|q table IH]; intros Hl.
  - by apply not_elem_of_nil in Hl.
  - rewrite fmap_cons.
    change (foldr N.max 0 (log_id q :: (log_id <$> table)))
      with (N.max (log_id q) (foldr N.max 0 (log_id <$> table))).
    apply elem_of_cons in Hl as [->|Hl]; [lia|].
    specialize (IH Hl). lia.
Qed.

Lemma bulk_create_app objs table :
  exists new,
    bulk_create objs table = table ++ new /\
    Forall2 saved_as objs new /\
    StronglySorted N.lt (log_id <$> new) /\
    (forall l old, l ∈ new -> old ∈ table -> log_id old < log_id l).
Proof.
  revert table. induction objs as [|o objs IH]; intros table.
  - exists []. rewrite app_nil_r. repeat split; try constructor.
    intros l old Hl. by apply not_elem_of_nil in Hl.
  - set (row := mkLog (next_log_id table) (n_timestamp o) (n_message o)
                  (n_severity o) (n_source o)).
    destruct (IH (table ++ [row])) as (new & Hnew & Hsaved & Hsorted & Hids).
    exists (row :: new). split; [|split; [|split]].
    + change (bulk_create (o :: objs) table)
        with (bulk_create objs (table ++ [row])).
      rewrite Hnew. by rewrite <-app_assoc.
    + constructor; [done|done].
    + rewrite fmap_cons. constructor; [done|].
      apply Forall_forall. intros i Hi.
      apply list_elem_of_fmap in Hi as (l & -> & Hl).
      apply (Hids l row Hl). apply elem_of_app. right. left.
    + intros l old Hl Hold. apply elem_of_cons in Hl as [->|Hl].
      * by apply next_log_id_above.
      * apply (Hids l old Hl). apply elem_of_app. by left.
Qed.

Lemma StronglySorted_lt_NoDup_N (l : list N) : StronglySorted N.lt l -> NoDup l.
Proof.
  induction 1 as [|x l Hl IH Hx]; constructor; [|done].
  intros Hin. rewrite Forall_forall in Hx. specialize (Hx x Hin). lia.
Qed.

(** What [create_logs] leaves behind: the rows it was given and, after
    them, one new row for every round. *)
Lemma create_logs_generated count now draws db :
  calendar_datetime now -> dt_le (mkdatetime 1 1 31 0 0 0 0) now ->
  exists objs new,
    create_logs count now draws db =
      Some (mkDatabase (db_users db) (db_logs db ++ new) (db_preferences db)) /\
    length new = Z.to_nat count /\
    Forall (generated now) objs /\
    Forall2 saved_as objs new /\
    StronglySorted N.lt (log_id <$> new) /\
    (forall l old, l ∈ new -> old ∈ db_logs db -> log_id old < log_id l).
Proof.
  intros Hnow Hfirst. unfold create_logs.
  destruct (mapM_total (fun i => new_log now (draws i)) (generated now)
              (seq 0 (Z.to_nat count)))
    as (objs & -> & Hlen & Hgen).
  { intros i. by apply new_log_generated. }
  rewrite bind_Some. cbv beta.
  destruct (bulk_create_app objs (db_logs db))
    as (new & -> & Hsaved & Hsorted & Hids).
  exists objs, new. split; [done|]. split.
  { rewrite <-(Forall2_length _ _ _ Hsaved), Hlen. apply length_seq. }
  done.
Qed.

(** X17: with the clock at 31 January of the year 1 or later,
    [create_logs(count)] does not raise; it puts one new row per round
    (none for a count below one) behind the rows of the table, leaves
    these, the users and the preferences as they are, and gives the new
    rows keys that differ from each other and are above every key in
    use. *)
Theorem create_logs_adds count now draws db :
  calendar_datetime now -> dt_le (mkdatetime 1 1 31 0 0 0 0) now ->
  exists new,
    create_logs count now draws db =
      Some (mkDatabase (db_users db) (db_logs db ++ new) (db_preferences db)) /\
    length new = Z.to_nat count /\
    NoDup (log_id <$> new) /\
    (forall l old, l ∈ new -> old ∈ db_logs db -> log_id old < log_id l) /\
    (NoDup (log_id <$> db_logs db) ->
     NoDup (log_id <$> (db_logs db ++ new))).
Proof.
  intros Hnow Hfirst.
  destruct (create_logs_generated count now draws db Hnow Hfirst)
    as (objs & new & Hrun & Hlen & _ & _ & Hsorted & Hids).
  exists new. split; [done|]. split; [done|].
  pose proof (StronglySorted_lt_NoDup_N _ Hsorted) as Hnd.
  split; [done|]. split; [done|].
  intros Hold. rewrite fmap_app. apply NoDup_app. split; [done|].
  split; [|done]. intros i Hi Hi'.
  apply list_elem_of_fmap in Hi as (old & -> & Hold').
  apply list_elem_of_fmap in Hi' as (l & Heq & Hl).
  pose proof (Hids l old Hl Hold'). lia.
Qed.

Lemma generated_saved now objs new l :
  Forall (generated now) objs -> Forall2 saved_as objs new -> l ∈ new ->
  exists o, generated now o /\ saved_as o l.
Proof.
  intros Hgen Hsaved Hl.
  apply list_elem_of_lookup in Hl as [i Hi].
  destruct (Forall2_lookup_r _ _ _ _ _ Hsaved Hi) as (o & Ho & Hol).
  exists o. split; [|done]. rewrite Forall_forall in Hgen. apply Hgen.
  by apply list_elem_of_lookup_2 in Ho.
Qed.

(** X18: every row [create_logs] adds has a timestamp of the last
    thirty days: later than thirty days before the clock reading, not
    later than the reading, a date-time of the calendar, with the
    microsecond of the reading. *)
Theorem create_logs_window count now draws db :
  calendar_datetime now -> dt_le (mkdatetime 1 1 31 0 0 0 0) now ->
  exists db' start,
    create_logs count now draws db = Some db' /\
    datetime_sub now (timedelta_of 30 0 0 0 0) = Some start /\
    forall l, l ∈ db_logs db' ->
      l ∈ db_logs db \/
      (dt_lt start (log_timestamp l) /\ dt_le (log_timestamp l) now /\
       calendar_datetime (log_timestamp l) /\
       microsecond (log_timestamp l) = microsecond now).
Proof.
  intros Hnow Hfirst.
  destruct (create_logs_generated count now draws db Hnow Hfirst)
    as (objs & new & Hrun & _ & Hgen & Hsaved & _).
  destruct (datetime_sub_earlier now 30 0 0 0 30 Hnow
              ltac:(lia) ltac:(lia) ltac:(lia) ltac:(lia) ltac:(lia)
              ltac:(lia) Hfirst)
    as (start & Hstart & _).
  eexists _, start. split; [exact Hrun|]. split; [done|].
  cbn [db_logs]. intros l Hl. apply elem_of_app in Hl as [Hl|Hl]; [by left|].
  right.
  destruct (generated_saved now objs new l Hgen Hsaved Hl)
    as (o & (Hcal & Hle & (start' & Hstart' & Hlt) & Hmicro & _) & (-> & _)).
  rewrite Hstart in Hstart'. injection Hstart' as <-. done.
Qed.

(** X19: every row [create_logs] adds has a severity of
    [Log.SEVERITY_CHOICES], a source of [SOURCES], and as its message one
    of [LOG_MESSAGES] for its severity, alone or followed by a dash and a
    context. *)
Theorem create_logs_fields count now draws db :
  calendar_datetime now -> dt_le (mkdatetime 1 1 31 0 0 0 0) now ->
  exists db',
    create_logs count now draws db = Some db' /\
    forall l, l ∈ db_logs db' ->
      l ∈ db_logs db \/
      (log_severity l ∈ SEVERITY_CHOICES.*1 /\
       log_source l ∈ SOURCES /\
       exists messages base,
         lookup_key (log_severity l) LOG_MESSAGES = Some messages /\
         base ∈ messages /\
         (log_message l = base \/
          exists context, log_message l = base +:+ " - " +:+ context)).
Proof.
  intros Hnow Hfirst.
  destruct (create_logs_generated count now draws db Hnow Hfirst)
    as (objs & new & Hrun & _ & Hgen & Hsaved & _).
  eexists. split; [exact Hrun|].
  cbn [db_logs]. intros l Hl. apply elem_of_app in Hl as [Hl|Hl]; [by left|].
  right.
  destruct (generated_saved now objs new l Hgen Hsaved Hl)
    as (o & (_ & _ & _ & _ & Hsev & Hsrc & Hmsg) & (_ & -> & -> & ->)).
  done.
Qed.

(** ** The demo data generator: accounts *)

Lemma user_by_name_Some username table u :
  user_by_name username table = Some u ->
  u ∈ table /\ au_username u = username.
Proof.
  unfold user_by_name. intros H. apply head_Some_elem_of in H.
  apply list_elem_of_filter in H. tauto.
Qed.

Lemma user_by_name_None username table :
  user_by_name username table = None <->
  forall u, u ∈ table -> au_username u <> username.
Proof.
  unfold user_by_name. rewrite head_None. split.
  - intros Hnil u Hu Hname.
    assert (u ∈ filter (fun u => au_username u = username) table) as Hin
      by (by apply list_elem_of_filter).
    rewrite Hnil in Hin. by apply not_elem_of_nil in Hin.
  - intros Hno. apply filter_nil_Forall, Forall_forall. auto.
Qed.

Lemma user_by_name_app username table new u :
  user_by_name username table = Some u ->
  user_by_name username (table ++ new) = Some u.
Proof.
  unfold user_by_name. rewrite filter_app.
  destruct (filter _ table); [done|]. done.
Qed.

Lemma user_by_name_new username table u :
  user_by_name username table = None -> au_username u = username ->
  user_by_name username (table ++ [u]) = Some u.
Proof.
  unfold user_by_name. rewrite filter_app, head_None. intros -> Hu.
  by rewrite filter_cons_True.
Qed.

Lemma next_user_id_above table u :
  u ∈ table -> au_id u < next_user_id table.
Proof.
  unfold next_user_id. induction table as [|q table IH]; intros Hu.
  - by apply not_elem_of_nil in Hu.
  - rewrite fmap_cons.
    change (foldr N.max 0 (au_id q :: (au_id <$> table)))
      with (N.max (au_id q) (foldr N.max 0 (au_id <$> table))).
    apply elem_of_cons in Hu as [->|Hu]; [lia|].
    specialize (IH Hu). lia.
Qed.

Lemma Forall2_elem_of_l {A B} (R : A -> B -> Prop) l k :
  Forall2 R l k -> Forall2 (fun x y => x ∈ l /\ R x y) l k.
Proof.
  induction 1 as [|x y l k HR Hlk IH]; constructor.
  - split; [left|done].
  - eapply Forall2_impl; [exact IH|]. intros ? ? [? ?]. split; [by right|done].
Qed.

Lemma user_by_name_other username table u :
  au_username u <> username ->
  user_by_name username (table ++ [u]) = user_by_name username table.
Proof.
  intros Hne. unfold user_by_name.
  by rewrite filter_app, filter_cons_False, filter_nil, app_nil_r.
Qed.

Lemma create_users_loop_spec data users table :
  NoDup (ud_username <$> data) ->
  exists us new,
    create_users_loop data users table = (users ++ us, table ++ new) /\
    Forall2 (account_for table (table ++ new)) data us /\
    (forall u, u ∈ new <-> u ∈ us /\ u ∉ table) /\
    (NoDup (au_username <$> table) ->
     NoDup (au_username <$> (table ++ new))) /\
    (NoDup (au_id <$> table) -> NoDup (au_id <$> (table ++ new))).
Proof.
  revert users table.
  induction data as [|d data IH]; intros users table Hnd.
  { exists [], []. rewrite !app_nil_r. split; [done|]. split; [constructor|].
    split; [|done]. intros u. split; [by intros ?%not_elem_of_nil|].
    by intros [?%not_elem_of_nil _]. }
  rewrite fmap_cons in Hnd. apply NoDup_cons in Hnd as [Hd Hnd].
  simpl. destruct (user_by_name (ud_username d) table) as [user|] eqn:E.
  - destruct (IH (users ++ [user]) table Hnd)
      as (us & new & -> & Hacc & Hnew & Hnames & Hids).
    exists (user :: us), new. rewrite <-app_assoc. split; [done|].
    split; [|split; [|done]].
    + constructor; [|done]. split; [by apply user_by_name_app | by left].
    + intros u. rewrite Hnew, elem_of_cons. split; [tauto|].
      intros [[->|Hu] Hno]; [|done].
      apply user_by_name_Some in E as [? _]. done.
  - unfold create_user.
    set (user := mkAuthUser (next_user_id table) (ud_username d)
                   (normalize_email (ud_email d)) (ud_first_name d)
                   (ud_last_name d) (ud_is_staff d) (ud_is_superuser d)
                   "demo123").
    assert (user ∉ table) as Hfresh.
    { intros Hin. pose proof (next_user_id_above table user Hin) as Hlt.
      simpl in Hlt. lia. }
    assert (forall q, q ∈ table -> au_username q <> au_username user) as Hname.
    { by apply user_by_name_None. }
    destruct (IH (users ++ [user]) (table ++ [user]) Hnd)
      as (us & new & -> & Hacc & Hnew & Hnames & Hids).
    exists (user :: us), (user :: new).
    rewrite <-!app_assoc. split; [done|].
    rewrite <-app_assoc in Hacc, Hnames, Hids.
    change ([user] ++ new) with (user :: new) in *.
    split; [|split; [|split]].
    + constructor.
      * split.
        -- rewrite cons_middle, app_assoc.
           by apply user_by_name_app, user_by_name_new.
        -- right. done.
      * apply Forall2_elem_of_l in Hacc.
        eapply Forall2_impl; [exact Hacc|].
        intros d' u [Hd' [Hfound Hhow]]. split; [done|].
        assert (au_username user <> ud_username d') as Hne.
        { intros Heq. apply Hd. simpl in Heq. rewrite Heq.
          by apply list_elem_of_fmap_2. }
        rewrite (user_by_name_other _ _ _ Hne) in Hhow.
        destruct Hhow as [?|(? & ? & Hno)]; [by left|right].
        split; [done|]. split; [done|]. intros Hin. apply Hno.
        apply elem_of_app. by left.
    + intros u. rewrite !elem_of_cons, Hnew, elem_of_app, list_elem_of_singleton.
      split.
      * intros [->|[Hu Hno]]; [by split; [left|] | split; [by right|]].
        intros Hin. apply Hno. by left.
      * intros [[->|Hu] Hno]; [by left|].
        destruct (decide (u = user)) as [->|Hne]; [by left|right].
        split; [done|]. intros [?|?]; done.
    + intros Hnd'. apply Hnames. rewrite fmap_app. apply NoDup_app.
      split; [done|]. split; [|apply NoDup_singleton].
      intros n Hn Hn'. apply list_elem_of_fmap in Hn as (q & -> & Hq).
      apply list_elem_of_singleton in Hn'. by apply (Hname q).
    + intros Hnd'. apply Hids. rewrite fmap_app. apply NoDup_app.
      split; [done|]. split; [|apply NoDup_singleton].
      intros n Hn Hn'. apply list_elem_of_fmap in Hn as (q & -> & Hq).
      apply list_elem_of_singleton in Hn'.
      pose proof (next_user_id_above table q Hq). simpl in Hn'. lia.
Qed.

Lemma create_users_loop_found data us users table :
  Forall2 (fun d u => user_by_name (ud_username d) table = Some u) data us ->
  create_users_loop data users table = (users ++ us, table).
Proof.
  intros H. revert users.
  induction H as [|d u data us Hd _ IH]; intros users.
  - by rewrite app_nil_r.
  - simpl. rewrite Hd, IH. by rewrite <-app_assoc.
Qed.

Lemma DEMO_USERS_names : NoDup (ud_username <$> DEMO_USERS).
Proof. apply (bool_decide_unpack _). vm_compute. exact I. Qed.

Lemma NoDup_take {A} (l : list A) n : NoDup l -> NoDup (take n l).
Proof.
  intros H. rewrite <-(take_drop n l) in H. by apply NoDup_app in H as [? _].
Qed.

(** What [create_users] does, with everything it is used for below. *)
Lemma create_users_spec count db :
  exists users new,
    create_users count db =
      (users,
       mkDatabase (db_users db ++ new) (db_logs db) (db_preferences db)) /\
    Forall2 (account_for (db_users db) (db_users db ++ new))
      (take (Z.to_nat (Z.min count 5)) DEMO_USERS) users /\
    (forall u, u ∈ new <-> u ∈ users /\ u ∉ db_users db) /\
    (NoDup (au_username <$> db_users db) ->
     NoDup (au_username <$> (db_users db ++ new))) /\
    (NoDup (au_id <$> db_users db) ->
     NoDup (au_id <$> (db_users db ++ new))).
Proof.
  unfold create_users. change (Z.of_nat (length DEMO_USERS)) with 5%Z.
  destruct (create_users_loop_spec
              (take (Z.to_nat (Z.min count 5)) DEMO_USERS) [] (db_users db))
    as (us & new & -> & Hacc & Hnew & Hnames & Hids).
  { rewrite fmap_take. apply NoDup_take, DEMO_USERS_names. }
  exists us, new. done.
Qed.

(** X14: [create_users(count)] returns the accounts of the first
    min(count, 5) entries of [DEMO_USERS], in their order (none for a
    count below one).  An account that exists under the name is returned
    as the table has it; otherwise it is made with the entry's data and
    the password demo123.  The table keeps its rows and gains only
    accounts that are returned; user names and keys stay unique; logs and
    preferences are not touched. *)
Theorem create_users_accounts count db :
  exists users new,
    create_users count db =
      (users,
       mkDatabase (db_users db ++ new) (db_logs db) (db_preferences db)) /\
    length users = Z.to_nat (Z.min count 5) /\
    au_username <$> users =
      take (Z.to_nat (Z.min count 5)) (ud_username <$> DEMO_USERS) /\
    Forall2 (account_for (db_users db) (db_users db ++ new))
      (take (Z.to_nat (Z.min count 5)) DEMO_USERS) users /\
    (forall u, u ∈ new <-> u ∈ users /\ u ∉ db_users db) /\
    (NoDup (au_username <$> db_users db) ->
     NoDup (au_username <$> (db_users db ++ new))) /\
    (NoDup (au_id <$> db_users db) ->
     NoDup (au_id <$> (db_users db ++ new))).
Proof.
  destruct (create_users_spec count db)
    as (users & new & Hrun & Hacc & Hnew & Hnames & Hids).
  exists users, new. split; [done|].
  assert (length users = Z.to_nat (Z.min count 5)) as Hlen.
  { rewrite <-(Forall2_length _ _ _ Hacc), length_take.
    change (length DEMO_USERS) with 5%nat. lia. }
  split; [done|]. split; [|done].
  rewrite <-fmap_take. clear Hrun Hlen Hnew.
  induction Hacc as [|d u data us [Hfound _] _ IH]; [done|].
  rewrite !fmap_cons, IH. f_equal.
  by apply user_by_name_Some in Hfound as [_ ->].
Qed.

(** X15: running [create_users] again changes nothing: the same count
    returns the same accounts and leaves the database as it is, and a
    smaller count returns the first of them. *)
Theorem create_users_again count db :
  let '(users, db') := create_users count db in
  create_users count db' = (users, db') /\
  (forall smaller, (smaller <= count)%Z ->
     create_users smaller db' =
       (take (Z.to_nat (Z.min smaller 5)) users, db')).
Proof.
  destruct (create_users_spec count db)
    as (users & new & -> & Hacc & _).
  assert (forall smaller, (smaller <= count)%Z ->
     create_users smaller
       (mkDatabase (db_users db ++ new) (db_logs db) (db_preferences db)) =
     (take (Z.to_nat (Z.min smaller 5)) users,
      mkDatabase (db_users db ++ new) (db_logs db) (db_preferences db)))
    as Hsmaller.
  { intros smaller Hle. unfold create_users.
    change (Z.of_nat (length DEMO_USERS)) with 5%Z. cbn [db_users db_logs
      db_preferences].
    rewrite (create_users_loop_found _
               (take (Z.to_nat (Z.min smaller 5)) users)); [done|].
    replace (take (Z.to_nat (Z.min smaller 5)) DEMO_USERS)
      with (take (Z.to_nat (Z.min smaller 5))
              (take (Z.to_nat (Z.min count 5)) DEMO_USERS))
      by (rewrite take_take; f_equal; lia).
    apply Forall2_take. eapply Forall2_impl; [exact Hacc|].
    by intros d u [? _]. }
  split; [|done].
  rewrite (Hsmaller count) by lia. f_equal.
  apply take_ge. rewrite <-(Forall2_length _ _ _ Hacc), length_take. lia.
Qed.

Lemma clear_existing_data_spec db :
  clear_existing_data db =
  mkDatabase (filter (fun u => au_is_superuser u = true) (db_users db)) [] [].
Proof.
  unfold clear_existing_data, delete_users. cbn [db_users db_logs db_preferences].
  f_equal. apply list_filter_iff. intros u. by destruct (au_is_superuser u).
Qed.

(** X16: [clear_existing_data] leaves no log, no preference and
    exactly the superuser accounts, and clearing again changes nothing;
    after [create_users] on the cleared database every account is a
    superuser that was there before or an account the call returned, made
    of an entry of [DEMO_USERS] with the password demo123. *)
Theorem clear_then_create count db :
  let cleared := clear_existing_data db in
  db_logs cleared = [] /\ db_preferences cleared = [] /\
  (forall u, u ∈ db_users cleared <->
     u ∈ db_users db /\ au_is_superuser u = true) /\
  clear_existing_data cleared = cleared /\
  (forall u, u ∈ db_users (create_users count cleared).2 ->
     (u ∈ db_users db /\ au_is_superuser u = true) \/
     (u ∈ (create_users count cleared).1 /\
      exists data, data ∈ DEMO_USERS /\ demo_account data u)).
Proof.
  cbv zeta. rewrite clear_existing_data_spec.
  set (superusers := filter (fun u => au_is_superuser u = true) (db_users db)).
  assert (forall u, u ∈ superusers <->
            u ∈ db_users db /\ au_is_superuser u = true) as Hsuper.
  { intros u. unfold superusers. rewrite list_elem_of_filter. tauto. }
  split; [done|]. split; [done|]. split; [done|]. split.
  { rewrite clear_existing_data_spec. cbn [db_users]. f_equal.
    apply filter_keep, Forall_forall. intros u Hu.
    by apply Hsuper in Hu as [_ ?]. }
  destruct (create_users_spec count (mkDatabase superusers [] []))
    as (users & new & -> & Hacc & Hnew & _).
  cbn [db_users fst snd]. intros u Hu.
  apply elem_of_app in Hu as [Hu|Hu]; [left; by apply Hsuper|right].
  apply Hnew in Hu as [Hu Hfresh]. split; [done|].
  apply list_elem_of_lookup in Hu as [i Hi].
  destruct (Forall2_lookup_r _ _ _ _ _ Hacc Hi) as (d & Hd & _ & Hhow).
  exists d. split.
  { apply list_elem_of_lookup_2 in Hd.
    by apply subseteq_take in Hd. }
  destruct Hhow as [Hfound|(_ & Hdemo & _)]; [|done].
  apply user_by_name_Some in Hfound as [Hin _]. done.
Qed.

Lemma random_sample_spec {A} (population : list A) k rs :
  (k <= length population)%nat ->
  exists l,
    random_sample population k rs = Some l /\ length l = k /\
    l ⊆ population /\ (NoDup population -> NoDup l).
Proof.
  revert population rs. induction k as [|k IH]; intros population rs Hk.
  { exists []. split; [done|]. split; [done|]. split; [|constructor].
    intros x Hx. by apply not_elem_of_nil in Hx. }
  simpl.
  set (i := N.to_nat (hd 0 rs mod N.of_nat (length population))).
  assert (i < length population)%nat as Hi.
  { unfold i. pose proof (N.mod_lt (hd 0 rs) (N.of_nat (length population))
                            ltac:(lia)) as Hlt.
    set (m := hd 0 rs mod N.of_nat (length population)) in *. lia. }
  destruct (lookup_lt_is_Some_2 _ _ Hi) as [x Hx]. rewrite Hx.
  rewrite bind_Some.
  destruct (IH (delete i population) (tl rs)) as (l & -> & Hlen & Hsub & Hnd).
  { rewrite length_delete by (by eexists). lia. }
  rewrite bind_Some. exists (x :: l). split; [done|].
  split; [simpl; by rewrite Hlen|].
  assert (delete i population ⊆ population) as Hdel.
  { apply sublist_subseteq, sublist_delete. }
  split.
  - intros y Hy. apply elem_of_cons in Hy as [->|Hy].
    + by apply list_elem_of_lookup_2 in Hx.
    + by apply Hdel, Hsub.
  - intros Hpop. constructor.
    + intros Hin. apply Hsub in Hin.
      rewrite <-(take_drop_middle _ _ _ Hx) in Hpop.
      rewrite delete_take_drop in Hin.
      apply NoDup_app in Hpop as (_ & Hleft & Hright).
      apply NoDup_cons in Hright as [Hright _].
      apply elem_of_app in Hin as [Hin|Hin]; [|done].
      apply (Hleft x Hin). left.
    + apply Hnd. eapply sublist_NoDup; [exact Hpop|]. apply sublist_delete.
Qed.

(** ** The demo data generator: preferences *)

Lemma objects_create_preset user preset date_from date_to now table :
  exists new,
    (objects_create (au_id user)
       (mkPrefData (preset_name preset) (preset_severity preset)
          (preset_source preset) date_from date_to) now table).2
    = table ++ new /\
    (forall p, p ∈ new -> preset_row user preset p) /\
    (exists p, p ∈ table ++ new /\ pref_user p = au_id user /\
       pref_name p = preset_name preset) /\
    (table_ok table -> table_ok (table ++ new)).
Proof.
  set (data := mkPrefData _ _ _ _ _).
  pose proof (perform_create_table_ok (au_id user) data now table) as Hok.
  unfold objects_create, perform_create in *.
  destruct (decide (violates_unique_together _ table)) as [Hv|Hv].
  - exists []. rewrite app_nil_r. split; [done|].
    split; [by intros p ?%not_elem_of_nil|]. split; [|done].
    apply violates_unique_together_spec in Hv as (q & Hq & _ & Hu & Hn).
    by exists q.
  - eexists [_]. split; [done|]. split; [|split; [|done]].
    + intros p Hp. apply list_elem_of_singleton in Hp as ->. done.
    + eexists. split; [apply elem_of_app; right; left|]. done.
Qed.

Lemma create_preset_spec user preset d table :
  clock_ok d ->
  exists new,
    create_preset user preset d table = Some (table ++ new) /\
    (forall p, p ∈ new -> preset_row user preset p) /\
    (exists p, p ∈ table ++ new /\ pref_user p = au_id user /\
       pref_name p = preset_name preset) /\
    (table_ok table -> table_ok (table ++ new)).
Proof.
  intros [Hcal Hfirst]. unfold create_preset.
  destruct (r_date_from d).
  - cbv zeta.
    pose proof (random_randint_range 1 14 (r_days_back d) ltac:(lia)) as Hr.
    set (days_back := random_randint 1 14 (r_days_back d)) in *.
    destruct (datetime_sub_earlier (now_date_from d) (Z.of_N days_back)
                0 0 0 14 Hcal ltac:(lia) ltac:(lia) ltac:(lia) ltac:(lia)
                ltac:(lia) ltac:(lia) Hfirst) as (t & -> & _).
    rewrite !bind_Some.
    destruct (objects_create_preset user preset (Some (dt_date t))
                (if r_date_to d then Some (dt_date (now_date_to d)) else None)
                (now_create d) table) as (new & -> & H).
    by exists new.
  - rewrite bind_Some. cbv zeta.
    destruct (objects_create_preset user preset None
                (if r_date_to d then Some (dt_date (now_date_to d)) else None)
                (now_create d) table) as (new & -> & H).
    by exists new.
Qed.

Lemma create_presets_spec user presets draws table :
  (forall j, clock_ok (draws j)) ->
  exists new,
    create_presets user presets draws table = (Some (), table ++ new) /\
    (forall p, p ∈ new ->
       exists preset, preset ∈ presets /\ preset_row user preset p) /\
    (forall preset, preset ∈ presets ->
       exists p, p ∈ table ++ new /\ pref_user p = au_id user /\
         pref_name p = preset_name preset) /\
    (table_ok table -> table_ok (table ++ new)).
Proof.
  revert draws table.
  induction presets as [|preset presets IH]; intros draws table Hclock.
  { exists []. rewrite app_nil_r. split; [done|].
    split; [by intros p ?%not_elem_of_nil|].
    split; [by intros p ?%not_elem_of_nil|done]. }
  change (create_presets user (preset :: presets) draws table) with
    (match create_preset user preset (draws O) table with
     | None => (None, table)
     | Some table =>
         create_presets user presets (fun i => draws (S i)) table
     end).
  destruct (create_preset_spec user preset (draws O) table (Hclock O))
    as (new1 & -> & Hrows1 & (p1 & Hp1 & Hu1 & Hn1) & Hok1).
  destruct (IH (fun i => draws (S i)) (table ++ new1))
    as (new2 & -> & Hrows2 & Hnames2 & Hok2).
  { intros j. apply Hclock. }
  exists (new1 ++ new2). rewrite app_assoc. split; [done|].
  split; [|split].
  - intros p Hp. apply elem_of_app in Hp as [Hp|Hp].
    + exists preset. split; [left|by apply Hrows1].
    + destruct (Hrows2 p Hp) as (preset' & ? & ?).
      exists preset'. split; [by right|done].
  - intros preset' Hin. apply elem_of_cons in Hin as [->|Hin].
    + exists p1. split; [|done]. apply elem_of_app. by left.
    + by apply Hnames2.
  - auto.
Qed.

Lemma FILTER_PRESETS_names : NoDup (preset_name <$> FILTER_PRESETS).
Proof. apply (bool_decide_unpack _). vm_compute. exact I. Qed.

Lemma sample_names (presets : list Preset) :
  presets ⊆ FILTER_PRESETS -> NoDup presets ->
  NoDup (preset_name <$> presets).
Proof.
  intros Hsub Hnd. apply NoDup_fmap_2_strong; [|done].
  intros x y Hx Hy Heq.
  apply (fmap_NoDup_inj preset_name FILTER_PRESETS);
    [apply FILTER_PRESETS_names|auto..].
Qed.

Lemma create_filter_preferences_loop_spec users draws table :
  (forall i j, clock_ok (r_presets (draws i) j)) ->
  exists new,
    create_filter_preferences_loop users draws table
      = (Some (), table ++ new) /\
    (forall p, p ∈ new ->
       exists user preset, user ∈ users /\ preset ∈ FILTER_PRESETS /\
         preset_row user preset p) /\
    (forall user, user ∈ users ->
       exists names, has_presets user (table ++ new) names) /\
    (table_ok table -> table_ok (table ++ new)).
Proof.
  revert draws table.
  induction users as [|user users IH]; intros draws table Hclock.
  { exists []. rewrite app_nil_r. split; [done|].
    split; [by intros p ?%not_elem_of_nil|].
    split; [by intros p ?%not_elem_of_nil|done]. }
  change (create_filter_preferences_loop (user :: users) draws table) with
    (let d := draws O in
     let num_presets := random_randint 2 4 (r_num_presets d) in
     match random_sample FILTER_PRESETS (N.to_nat num_presets) (r_sample d)
     with
     | None => (None, table)
     | Some user_presets =>
         match create_presets user user_presets (r_presets d) table with
         | (Some _, table) =>
             create_filter_preferences_loop users (fun i => draws (S i)) table
         | (None, table) => (None, table)
         end
     end).
  cbv zeta.
  pose proof (random_randint_range 2 4 (r_num_presets (draws O)) ltac:(lia))
    as Hnum.
  set (num_presets := random_randint 2 4 (r_num_presets (draws O))) in *.
  destruct (random_sample_spec FILTER_PRESETS (N.to_nat num_presets)
              (r_sample (draws O)))
    as (presets & -> & Hlen & Hsub & Hnd).
  { change (length FILTER_PRESETS) with 6%nat. lia. }
  specialize (Hnd ltac:(eapply NoDup_fmap_1, FILTER_PRESETS_names)).
  destruct (create_presets_spec user presets (r_presets (draws O)) table)
    as (new1 & -> & Hrows1 & Hnames1 & Hok1).
  { intros j. apply Hclock. }
  destruct (IH (fun i => draws (S i)) (table ++ new1))
    as (new2 & -> & Hrows2 & Hnames2 & Hok2).
  { intros i j. apply Hclock. }
  exists (new1 ++ new2). rewrite app_assoc. split; [done|].
  split; [|split].
  - intros p Hp. apply elem_of_app in Hp as [Hp|Hp].
    + destruct (Hrows1 p Hp) as (preset & Hin & Hrow).
      exists user, preset. split; [left|]. split; [by apply Hsub|done].
    + destruct (Hrows2 p Hp) as (user' & preset & ? & ? & ?).
      exists user', preset. split; [by right|done].
  - intros user' Hin. apply elem_of_cons in Hin as [->|Hin].
    + exists (preset_name <$> presets). split; [by apply sample_names|].
      split; [rewrite length_fmap; lia|].
      intros name Hname. apply list_elem_of_fmap in Hname as (preset & -> & Hp).
      destruct (Hnames1 preset Hp) as (p & Hp' & ? & ?).
      exists p. split; [|done]. apply elem_of_app. by left.
    + by apply Hnames2.
  - auto.
Qed.

Lemma has_presets_length user table names :
  has_presets user table names ->
  (length names <= length (pref_list (au_id user) table))%nat.
Proof.
  intros (Hnd & _ & Hrows).
  unfold pref_list, pref_get_queryset. rewrite merge_sort_Permutation.
  rewrite <-(length_fmap pref_name). apply submseteq_length.
  apply NoDup_submseteq; [done|]. intros name Hname.
  destruct (Hrows name Hname) as (p & Hp & Hu & <-).
  apply list_elem_of_fmap_2. by apply list_elem_of_filter.
Qed.

(** What [create_filter_preferences] leaves behind. *)
Lemma create_filter_preferences_run created_users draws db :
  (forall i j, clock_ok (r_presets (draws i) j)) ->
  exists new,
    create_filter_preferences created_users draws db =
      (Some (),
       mkDatabase (db_users db) (db_logs db) (db_preferences db ++ new)) /\
    (forall p, p ∈ new ->
       exists user preset, user ∈ created_users /\ preset ∈ FILTER_PRESETS /\
         preset_row user preset p) /\
    (forall user, user ∈ created_users ->
       exists names, has_presets user (db_preferences db ++ new) names) /\
    (table_ok (db_preferences db) -> table_ok (db_preferences db ++ new)).
Proof.
  intros Hclock.
  destruct (create_filter_preferences_loop_spec created_users draws
              (db_preferences db) Hclock)
    as (new & Hrun & Hrows & Hnames & Hok).
  exists new. split; [|done].
  unfold create_filter_preferences. destruct created_users as [|u us].
  - simpl in Hrun. injection Hrun as Hnew.
    rewrite <-Hnew. by destruct db.
  - by rewrite Hrun.
Qed.

(** X20: with every clock reading a date is worked out from at
    15 January of the year 1 or later, [create_filter_preferences] does
    not raise; it only adds rows, each one a preset of [FILTER_PRESETS]
    for one of the created users; afterwards every created user lists at
    least two preferences, the list of any other user is as it was, and a
    well-formed table stays well formed (a preset the user has under the
    same name is passed over). *)
Theorem create_filter_preferences_presets created_users draws db :
  (forall i j, clock_ok (r_presets (draws i) j)) ->
  exists new,
    create_filter_preferences created_users draws db =
      (Some (),
       mkDatabase (db_users db) (db_logs db) (db_preferences db ++ new)) /\
    (forall p, p ∈ new ->
       exists user preset, user ∈ created_users /\ preset ∈ FILTER_PRESETS /\
         preset_row user preset p) /\
    (forall user, user ∈ created_users ->
       (2 <= length (pref_list (au_id user) (db_preferences db ++ new)))%nat) /\
    (forall other, other ∉ au_id <$> created_users ->
       pref_list other (db_preferences db ++ new) =
       pref_list other (db_preferences db)) /\
    (table_ok (db_preferences db) -> table_ok (db_preferences db ++ new)).
Proof.
  intros Hclock.
  destruct (create_filter_preferences_run created_users draws db Hclock)
    as (new & Hrun & Hrows & Hnames & Hok).
  exists new. split; [done|]. split; [done|]. split; [|split; [|done]].
  - intros user Huser. destruct (Hnames user Huser) as (names & Hhas).
    pose proof (has_presets_length _ _ _ Hhas). destruct Hhas as (_ & ? & _).
    lia.
  - intros other Hother. unfold pref_list, pref_get_queryset.
    rewrite filter_app. rewrite (filter_nil_Forall _ new).
    + by rewrite app_nil_r.
    + apply Forall_forall. intros p Hp Hu.
      destruct (Hrows p Hp) as (user & preset & Huser & _ & Hrow & _).
      apply Hother. rewrite <-Hu, Hrow. by apply list_elem_of_fmap_2.
Qed.

(** ** The demo data generator: statistics *)

Lemma SEVERITY_CHOICES_keys : NoDup SEVERITY_CHOICES.*1.
Proof. apply (bool_decide_unpack _). vm_compute. exact I. Qed.

(** X22: the severity lines of [show_log_statistics] are one per
    entry of [Log.SEVERITY_CHOICES]; their counts add up to the total
    when every log has one of these severities, and never to more. *)
Theorem severity_counts_total table :
  (forall choice, choice ∈ SEVERITY_CHOICES ->
     (choice.1,
      length (filter (fun l => log_severity l = choice.1) table))
     ∈ severity_counts table) /\
  (severity_counts table).*1 = SEVERITY_CHOICES.*1 /\
  (Forall (fun l => log_severity l ∈ SEVERITY_CHOICES.*1) table ->
   sum_list (severity_counts table).*2 = total_logs table) /\
  (sum_list (severity_counts table).*2 <= total_logs table)%nat.
Proof.
  unfold severity_counts, total_logs, qs_filter, objects_all.
  cbn [qs_rows].
  split; [|split; [|split]].
  - intros choice Hin. apply list_elem_of_fmap. by exists choice.
  - rewrite <-list_fmap_compose. done.
  - intros Hall. rewrite <-list_fmap_compose.
    rewrite <-(group_sizes_sum log_severity SEVERITY_CHOICES.*1 table).
    + done.
    + apply SEVERITY_CHOICES_keys.
    + by apply Forall_forall.
  - rewrite <-list_fmap_compose.
    set (known := filter (fun l => log_severity l ∈ SEVERITY_CHOICES.*1) table).
    transitivity (length known); [|apply length_filter].
    rewrite <-(group_sizes_sum log_severity SEVERITY_CHOICES.*1 known).
    + apply Nat.eq_le_incl.
      assert (forall ks : list (string * string),
        ks ⊆ SEVERITY_CHOICES ->
        sum_list ((fun choice => length (filter (fun l => log_severity l
                     = choice.1) table)) <$> ks) =
        sum_list_with (fun k => length (rows_with log_severity k known))
          ks.*1) as Hsum.
      { induction ks as [|c ks IH]; intros Hsub; [done|].
        rewrite !fmap_cons. simpl. rewrite IH.
        - f_equal. unfold rows_with, known. rewrite list_filter_filter.
          f_equal. apply list_filter_iff. intros l. split; [|tauto].
          intros Heq. split; [done|]. rewrite Heq.
          apply list_elem_of_fmap_2, Hsub. left.
        - intros x Hx. apply Hsub. by right. }
      by apply Hsum.
    + apply SEVERITY_CHOICES_keys.
    + intros l Hl. unfold known in Hl. by apply list_elem_of_filter in Hl as [? _].
Qed.

(** X23: the top sources of [show_log_statistics] are at most five,
    all the sources when there are fewer, each once, in descending order
    of their counts; a count is the number of logs of the source, which is
    positive; and no source that is left out has more logs than one that
    is listed. *)
Theorem top_sources_top table :
  (length (top_sources table) <= 5)%nat /\
  length (top_sources table) =
    Nat.min 5 (length (remove_dups (log_source <$> table))) /\
  NoDup (top_sources table).*1 /\
  StronglySorted count_ge (top_sources table) /\
  (forall source count, (source, count) ∈ top_sources table ->
     count = length (filter (fun l => log_source l = source) table) /\
     (0 < count)%nat) /\
  (forall l, l ∈ table -> log_source l ∉ (top_sources table).*1 ->
     forall source count, (source, count) ∈ top_sources table ->
       (length (filter (fun x => log_source x = log_source l) table)
        <= count)%nat).
Proof.
  unfold top_sources, order_by_count_desc.
  set (data := values_count log_source (objects_all table)).
  set (sorted := merge_sort count_ge data).
  assert (sorted ≡ₚ data) as Hperm by apply merge_sort_Permutation.
  assert (StronglySorted count_ge sorted) as Hsorted.
  { apply StronglySorted_merge_sort; apply _. }
  assert (forall source count, (source, count) ∈ sorted <->
            (exists l, l ∈ table /\ log_source l = source) /\
            count = length (filter (fun l => log_source l = source) table))
    as Hin.
  { intros source count. rewrite Hperm. apply elem_of_values_count. }
  rewrite <-(take_drop 5 sorted) in Hsorted.
  split; [rewrite length_take; lia|]. split; [|split; [|split; [|split]]].
  - rewrite length_take. f_equal.
    rewrite Hperm. unfold data, values_count. by rewrite length_fmap.
  - rewrite fmap_take. apply NoDup_take. rewrite Hperm.
    apply NoDup_values_count.
  - by apply StronglySorted_app_1_l in Hsorted.
  - intros source count Htop. apply subseteq_take in Htop.
    apply Hin in Htop as [Hex ->]. split; [done|].
    by apply (rows_with_nonempty log_source).
  - intros l Hl Hout source count Htop.
    set (n := length (filter (fun x => log_source x = log_source l) table)).
    assert ((log_source l, n) ∈ sorted) as Hrow.
    { apply Hin. split; [by exists l | done]. }
    rewrite <-(take_drop 5 sorted) in Hrow.
    apply elem_of_app in Hrow as [Hrow|Hrow].
    + destruct Hout. by apply (list_elem_of_fmap_2 fst) in Hrow.
    + apply (StronglySorted_app_1_elem_of _ _ _ _ _ Hsorted Htop Hrow).
Qed.

Lemma ordered_before_ascending a b :
  ordered_before [(false, ord_timestamp)] a b <->
  dt_le (log_timestamp a) (log_timestamp b).
Proof.
  unfold ordered_before, dt_le. simpl.
  by destruct (datetime_compare _ _).
Qed.

Lemma head_sorted {A} (R : relation A) (l : list A) x :
  StronglySorted R l -> head l = Some x ->
  x ∈ l /\ forall y, y ∈ l -> y = x \/ R x y.
Proof.
  intros Hs Hx. destruct l as [|z l]; [done|]. injection Hx as ->.
  split; [left|]. intros y Hy. apply elem_of_cons in Hy as [->|Hy]; [by left|].
  right. apply StronglySorted_inv in Hs as [_ Hall].
  rewrite Forall_forall in Hall. by apply Hall.
Qed.

(** X24: for a table with a log, [show_log_statistics] takes as the
    bounds of the date range a log of the table with the earliest and one
    with the latest timestamp; for an empty table the queries give
    nothing. *)
Theorem date_range_extremes table :
  (table = [] -> oldest table = None /\ newest table = None) /\
  (table <> [] ->
   exists first last,
     oldest table = Some first /\ newest table = Some last /\
     first ∈ table /\ last ∈ table /\
     forall l, l ∈ table ->
       dt_le (log_timestamp first) (log_timestamp l) /\
       dt_le (log_timestamp l) (log_timestamp last)).
Proof.
  unfold oldest, newest, evaluate, qs_order_by, objects_all.
  cbn [qs_rows qs_ordering].
  split; [by intros ->|]. intros Hne.
  set (up := merge_sort (ordered_before [(false, ord_timestamp)]) table).
  set (down := merge_sort (ordered_before [(true, ord_timestamp)]) table).
  assert (up ≡ₚ table) as Hup by apply merge_sort_Permutation.
  assert (down ≡ₚ table) as Hdown by apply merge_sort_Permutation.
  assert (StronglySorted (ordered_before [(false, ord_timestamp)]) up) as Hsu.
  { apply StronglySorted_merge_sort; apply _. }
  assert (StronglySorted (ordered_before [(true, ord_timestamp)]) down) as Hsd.
  { apply StronglySorted_merge_sort; apply _. }
  destruct up as [|first up'] eqn:Eu.
  { apply Permutation_nil_l in Hup. by destruct Hne. }
  destruct down as [|last down'] eqn:Ed.
  { apply Permutation_nil_l in Hdown. by destruct Hne. }
  exists first, last. split; [done|]. split; [done|].
  destruct (head_sorted _ _ first Hsu eq_refl) as [Hf Hfirst].
  destruct (head_sorted _ _ last Hsd eq_refl) as [Hl Hlast].
  rewrite Hup in Hf. rewrite Hdown in Hl.
  split; [done|]. split; [done|]. intros l Hin. split.
  - rewrite <-Hup in Hin. destruct (Hfirst l Hin) as [->|Hle]; [done|].
    by apply ordered_before_ascending.
  - rewrite <-Hdown in Hin. destruct (Hlast l Hin) as [->|Hle]; [done|].
    by apply ordered_before_default.
Qed.

(** ** The demo data generator: a run *)

Lemma table_ok_nil : table_ok [].
Proof.
  split; [constructor|]. intros p q Hp. by apply not_elem_of_nil in Hp.
Qed.

(** X21: [main] ends with status 0 exactly when the arguments are
    accepted (at least one log, one to five users); rejected arguments
    end it with status 1 and the database as it was.  After an accepted
    run the table holds the logs it had (none of them with [--clear]) and
    after them one new row per log asked for; each of the first [users]
    entries of
    [DEMO_USERS] has an account that lists at least two preferences;
    accounts that were there are kept, superusers also with [--clear]; and
    the preference table is well formed if it was, or if it was
    cleared. *)
Theorem main_run args draws db :
  clocks_ok draws ->
  (valid_args args <-> (main args draws db).1 = 0%Z) /\
  (~ valid_args args -> main args draws db = (1%Z, db)) /\
  (valid_args args ->
   let db' := (main args draws db).2 in
   (exists new,
      db_logs db' = (if args_clear args then [] else db_logs db) ++ new /\
      length new = Z.to_nat (args_logs args)) /\
   (forall data,
      data ∈ take (Z.to_nat (args_users args)) DEMO_USERS ->
      exists u, u ∈ db_users db' /\ au_username u = ud_username data /\
        (2 <= length (pref_list (au_id u) (db_preferences db')))%nat) /\
   (forall u, u ∈ db_users db ->
      args_clear args = false \/ au_is_superuser u = true ->
      u ∈ db_users db') /\
   (args_clear args = true \/ table_ok (db_preferences db) ->
    table_ok (db_preferences db'))).
Proof.
  intros (Hcal & Hfirst & Hclock). unfold main, valid_args.
  destruct (Z.ltb_spec (args_logs args) 1) as [Hl|Hl].
  { cbn [fst snd]. split; [split; [lia|done]|]. split; [done|lia]. }
  destruct (Z.ltb_spec (args_users args) 1) as [Hu1|Hu1].
  { cbn [orb fst snd]. split; [split; [lia|done]|]. split; [done|lia]. }
  destruct (Z.ltb_spec 5 (args_users args)) as [Hu5|Hu5].
  { cbn [orb fst snd]. split; [split; [lia|done]|]. split; [done|lia]. }
  cbn [orb].
  set (db0 := if args_clear args then clear_existing_data db else db).
  destruct (create_users_spec (args_users args) db0)
    as (users & newu & -> & Hacc & _).
  destruct (create_logs_generated (args_logs args) (now_logs draws)
              (log_draws draws)
              (mkDatabase (db_users db0 ++ newu) (db_logs db0)
                 (db_preferences db0)) Hcal Hfirst)
    as (objs & new & -> & Hlen & _).
  cbn [db_users db_logs db_preferences].
  destruct (create_filter_preferences_run users (user_draws draws)
              (mkDatabase (db_users db0 ++ newu) (db_logs db0 ++ new)
                 (db_preferences db0)) Hclock)
    as (newp & -> & _ & Hnames & Hok).
  cbn [db_users db_logs db_preferences fst snd].
  split; [split; [done|lia]|]. split; [lia|]. intros _.
  cbv zeta. cbn [db_users db_logs db_preferences] in *.
  split; [|split; [|split]].
  - exists new. split; [|done]. f_equal. unfold db0.
    destruct (args_clear args); [|done].
    by rewrite clear_existing_data_spec.
  - intros data Hdata.
    replace (Z.to_nat (Z.min (args_users args) 5))
      with (Z.to_nat (args_users args)) in Hacc by lia.
    apply list_elem_of_lookup in Hdata as [i Hi].
    destruct (Forall2_lookup_l _ _ _ _ _ Hacc Hi) as (u & Hu & Hfound & _).
    apply user_by_name_Some in Hfound as [Hin Hname].
    exists u. split; [done|]. split; [done|].
    destruct (Hnames u) as (names & Hhas).
    { by apply list_elem_of_lookup_2 in Hu. }
    pose proof (has_presets_length _ _ _ Hhas). destruct Hhas as (_ & ? & _).
    lia.
  - intros u Hu Hkeep. apply elem_of_app. left. unfold db0.
    destruct (args_clear args); [|done].
    rewrite clear_existing_data_spec. cbn [db_users].
    apply list_elem_of_filter. by destruct Hkeep.
  - intros Hstart. apply Hok. unfold db0.
    destruct (args_clear args).
    + rewrite clear_existing_data_spec. apply table_ok_nil.
    + by destruct Hstart.
Qed.

(** *** A run on a small database *)

Example datetime_sub_example_leap :
  datetime_sub (mkdatetime 2024 3 1 0 0 0 0) (timedelta_of 1 0 0 1 0) =
  Some (mkdatetime 2024 2 28 23 59 59 0).
Proof. vm_compute. reflexivity. Qed.

Example datetime_sub_example_common :
  datetime_sub (mkdatetime 2023 3 1 0 0 0 0) (timedelta_of 1 0 0 0 0) =
  Some (mkdatetime 2023 2 28 0 0 0 0).
Proof. vm_compute. reflexivity. Qed.

Example datetime_sub_example_overflow :
  datetime_sub (mkdatetime 1 1 1 0 0 0 0) (timedelta_of 1 0 0 0 0) = None.
Proof. vm_compute. reflexivity. Qed.

Example fromordinal_example :
  fromordinal 738000 = mkdate 2021 7 29 /\
  toordinal (mkdate 2021 7 28) = 737999%Z.
Proof. vm_compute. split; reflexivity. Qed.

Example normalize_email_example :
  normalize_email "  Ab@Cd@EXAMPLE.Org " = "Ab@Cd@example.org".
Proof. vm_compute. reflexivity. Qed.

Example new_log_example :
  new_log ex_now ex_log_draw =
  Some (mkNewLog (mkdatetime 2024 1 1 2 52 49 0)
          "System health check passed - Duration: 90ms" "INFO"
          "api_gateway").
Proof. vm_compute. reflexivity. Qed.

Example main_example :
  let run := main (mkArgs 2 2 false) ex_draws ex_db in
  run.1 = 0%Z /\
  au_username <$> db_users run.2 = ["root"; "developer"; "admin"] /\
  au_password <$> db_users run.2 = ["secret"; "hunter2"; "demo123"] /\
  length (db_logs run.2) = 5%nat /\
  (fun p => (pref_user p, pref_name p)) <$> db_preferences run.2 =
    [ (1, "errors"); (2, "errors"); (1, "recent");
      (3, "Database Problems"); (3, "All Warnings");
      (3, "Auth Service Errors"); (2, "Database Problems");
      (2, "All Warnings"); (2, "Auth Service Errors") ].
Proof. vm_compute. repeat split; reflexivity. Qed.

Example main_example_clear :
  let run := main ex_args ex_draws ex_db in
  run.1 = 0%Z /\
  au_username <$> db_users run.2 = ["root"; "admin"; "developer"] /\
  length (db_logs run.2) = 2%nat /\
  length (db_preferences run.2) = 6%nat.
Proof. vm_compute. repeat split; reflexivity. Qed.

Example main_example_rejected :
  main (mkArgs 0 2 false) ex_draws ex_db = (1%Z, ex_db) /\
  main (mkArgs 2 6 false) ex_draws ex_db = (1%Z, ex_db).
Proof. vm_compute. split; reflexivity. Qed.

Example statistics_example :
  top_sources ex_table = [("svc1", 2%nat); ("svc2", 1%nat)] /\
  severity_counts ex_table =
    [ ("DEBUG", 0%nat); ("INFO", 1%nat); ("WARNING", 0%nat);
      ("ERROR", 2%nat); ("CRITICAL", 0%nat) ] /\
  log_id <$> oldest ex_table = Some 1 /\
  log_id <$> newest ex_table = Some 3.
Proof. vm_compute. repeat split; reflexivity. Qed.

Lemma create_logs_adds_witness :
  exists new,
    create_logs 2 ex_now (fun _ => ex_log_draw) ex_db =
      Some (mkDatabase (db_users ex_db) (db_logs ex_db ++ new)
              (db_preferences ex_db)) /\
    length new = Z.to_nat 2 /\
    NoDup (log_id <$> new) /\
    (forall l old, l ∈ new -> old ∈ db_logs ex_db -> log_id old < log_id l) /\
    (NoDup (log_id <$> db_logs ex_db) ->
     NoDup (log_id <$> (db_logs ex_db ++ new))).
Proof.
  apply (create_logs_adds 2 ex_now (fun _ => ex_log_draw) ex_db).
  - apply (bool_decide_unpack _). vm_compute. exact I.
  - apply (bool_decide_unpack _). vm_compute. exact I.
Defined.

Lemma create_logs_window_witness :
  exists db' start,
    create_logs 2 ex_now (fun _ => ex_log_draw) ex_db = Some db' /\
    datetime_sub ex_now (timedelta_of 30 0 0 0 0) = Some start /\
    forall l, l ∈ db_logs db' ->
      l ∈ db_logs ex_db \/
      (dt_lt start (log_timestamp l) /\ dt_le (log_timestamp l) ex_now /\
       calendar_datetime (log_timestamp l) /\
       microsecond (log_timestamp l) = microsecond ex_now).
Proof.
  apply (create_logs_window 2 ex_now (fun _ => ex_log_draw) ex_db).
  - apply (bool_decide_unpack _). vm_compute. exact I.
  - apply (bool_decide_unpack _). vm_compute. exact I.
Defined.

Lemma create_logs_fields_witness :
  exists db',
    create_logs 2 ex_now (fun _ => ex_log_draw) ex_db = Some db' /\
    forall l, l ∈ db_logs db' ->
      l ∈ db_logs ex_db \/
      (log_severity l ∈ SEVERITY_CHOICES.*1 /\
       log_source l ∈ SOURCES /\
       exists messages base,
         lookup_key (log_severity l) LOG_MESSAGES = Some messages /\
         base ∈ messages /\
         (log_message l = base \/
          exists context, log_message l = base +:+ " - " +:+ context)).
Proof.
  apply (create_logs_fields 2 ex_now (fun _ => ex_log_draw) ex_db).
  - apply (bool_decide_unpack _). vm_compute. exact I.
  - apply (bool_decide_unpack _). vm_compute. exact I.
Defined.

Lemma create_filter_preferences_presets_witness :
  exists new,
    create_filter_preferences ex_users (fun _ => ex_user_draw) ex_db =
      (Some (),
       mkDatabase (db_users ex_db) (db_logs ex_db)
         (db_preferences ex_db ++ new)) /\
    (forall p, p ∈ new ->
       exists user preset, user ∈ ex_users /\ preset ∈ FILTER_PRESETS /\
         preset_row user preset p) /\
    (forall user, user ∈ ex_users ->
       (2 <= length (pref_list (au_id user)
                       (db_preferences ex_db ++ new)))%nat) /\
    (forall other, other ∉ au_id <$> ex_users ->
       pref_list other (db_preferences ex_db ++ new) =
       pref_list other (db_preferences ex_db)) /\
    (table_ok (db_preferences ex_db) ->
     table_ok (db_preferences ex_db ++ new)).
Proof.
  apply (create_filter_preferences_presets ex_users (fun _ => ex_user_draw)
           ex_db).
  intros i j. apply (bool_decide_unpack _). vm_compute. exact I.
Defined.

Lemma main_run_witness :
  (valid_args ex_args <-> (main ex_args ex_draws ex_db).1 = 0%Z) /\
  (~ valid_args ex_args -> main ex_args ex_draws ex_db = (1%Z, ex_db)) /\
  (valid_args ex_args ->
   let db' := (main ex_args ex_draws ex_db).2 in
   (exists new,
      db_logs db' =
        (if args_clear ex_args then [] else db_logs ex_db) ++ new /\
      length new = Z.to_nat (args_logs ex_args)) /\
   (forall data,
      data ∈ take (Z.to_nat (args_users ex_args)) DEMO_USERS ->
      exists u, u ∈ db_users db' /\ au_username u = ud_username data /\
        (2 <= length (pref_list (au_id u) (db_preferences db')))%nat) /\
   (forall u, u ∈ db_users ex_db ->
      args_clear ex_args = false \/ au_is_superuser u = true ->
      u ∈ db_users db') /\
   (args_clear ex_args = true \/ table_ok (db_preferences ex_db) ->
    table_ok (db_preferences db'))).
Proof.
  apply (main_run ex_args ex_draws ex_db).
  split; [|split].
  - apply (bool_decide_unpack _). vm_compute. exact I.
  - apply (bool_decide_unpack _). vm_compute. exact I.
  - intros i j. apply (bool_decide_unpack _). vm_compute. exact I.
Defined.
